(** * Chunked ETL into a staging table: scan, transform, hash, load

    Shallow embedding of [scripts/python/etl_processor.py] and the
    properties of its specification.

    Conventions of the embedding.
    - A Python [str] is the list of its Unicode code points ([pystr]).
    - A Python [int] is a [Z].
    - A cell of a data frame, or a value of a record made by [to_dicts], is a
      [value]: [None], an [int], a [str], a [Decimal] with two decimals (the
      only decimal type the program creates) or a [datetime].  Binary
      floating point cells are outside the embedding.
    - An exception is an [error]; a function that can raise returns a
      [result].
    - What the libraries decide and the program does not (how polars casts
      a cell and whether it has the cast at all, how it parses a text
      column into timestamps, whether the PostgreSQL server accepts a
      connection or a COPY) is gathered in a record [Env], over which the
      program is parameterised. *)

From Stdlib Require Import String Ascii DecimalString ZArith Bool Lia List.
Import ListNotations.
Open Scope Z_scope.

(** ** Exceptions and results *)

Inductive error : Type :=
| ValueError             (* scan_input_file: unsupported extension; negative slice length *)
| OverflowError          (* polars: a slice offset or length outside the machine integers *)
| ColumnNotFoundError    (* polars: a named column is not in the frame *)
| ComputeError           (* polars: strptime could not settle on a format *)
| InvalidOperationError  (* polars: a cast that does not exist; a strict cast lost a value *)
| ShapeError             (* polars: a new column has the wrong height *)
| KeyError               (* record[col] on a missing key *)
| UnicodeEncodeError     (* str.encode("utf-8") on a lone surrogate *)
| OperationalError       (* psycopg.connect failed *)
| DatabaseError.         (* the COPY was refused by the server *)

Inductive result (A : Type) : Type :=
| Ok (a : A)
| Raise (e : error).
Arguments Ok {A} a.
Arguments Raise {A} e.

Definition rbind {A B} (r : result A) (k : A -> result B) : result B :=
  match r with
  | Ok a => k a
  | Raise e => Raise e
  end.

Notation "x <- r ;; k" := (rbind r (fun x => k))
  (at level 61, r at next level, right associativity).

Fixpoint mapM {A B} (f : A -> result B) (l : list A) : result (list B) :=
  match l with
  | [] => Ok []
  | a :: l' => b <- f a ;; bs <- mapM f l' ;; Ok (b :: bs)
  end.

(** ** Python strings *)

Module Py.

Definition pystr := list Z.

(** The code points of an ASCII literal. *)
Definition lit (s : string) : pystr :=
  map (fun a => Z.of_N (N_of_ascii a)) (list_ascii_of_string s).

Definition pystr_eqb (s t : pystr) : bool :=
  if list_eq_dec Z.eq_dec s t then true else false.

(** [sep.join(parts)] *)
Fixpoint join (sep : pystr) (parts : list pystr) : pystr :=
  match parts with
  | [] => []
  | [p] => p
  | p :: rest => p ++ sep ++ join sep rest
  end.

(** [str.isspace] on one code point: the characters [str.strip()] removes. *)
Definition isspace (c : Z) : bool :=
  ((9 <=? c) && (c <=? 13)) || ((28 <=? c) && (c <=? 32))
  || (c =? 133) || (c =? 160) || (c =? 5760)
  || ((8192 <=? c) && (c <=? 8202))
  || (c =? 8232) || (c =? 8233) || (c =? 8239) || (c =? 8287) || (c =? 12288).

Fixpoint lstrip (s : pystr) : pystr :=
  match s with
  | [] => []
  | c :: s' => if isspace c then lstrip s' else s
  end.

Definition rstrip (s : pystr) : pystr := rev (lstrip (rev s)).

(** [s.strip()] *)
Definition strip (s : pystr) : pystr := rstrip (lstrip s).

(** [str(n)] for an [int]. *)
Definition str_int (z : Z) : pystr := lit (NilZero.string_of_int (Z.to_int z)).

(** [%0<w>d] for a non-negative number. *)
Definition zfill (w : nat) (z : Z) : pystr :=
  let d := str_int z in
  repeat 48 (w - length d) ++ d.

(** [decimal.Decimal] with exponent -2, given by its unscaled value:
    [str(Decimal("-12.5").quantize(Decimal("0.01")))] is ["-12.50"]. *)
Definition str_decimal2 (unscaled : Z) : pystr :=
  (if unscaled <? 0 then [45] else [])
  ++ str_int (Z.abs unscaled / 100) ++ [46] ++ zfill 2 (Z.abs unscaled mod 100).

(** [datetime.datetime]: the fields of the object; [tzoffset] is the UTC
    offset in seconds of an aware datetime, [None] for a naive one. *)
Record datetime : Type := mkDatetime {
  year : Z; month : Z; day : Z;
  hour : Z; minute : Z; second : Z; microsecond : Z;
  tzoffset : option Z
}.

Definition format_offset (off : option Z) : pystr :=
  match off with
  | None => []
  | Some o =>
      let a := Z.abs o in
      (if o <? 0 then [45] else [43])
      ++ zfill 2 (a / 3600) ++ [58] ++ zfill 2 ((a mod 3600) / 60)
      ++ (if a mod 60 =? 0 then [] else [58] ++ zfill 2 (a mod 60))
  end.

(** [d.isoformat(sep)] *)
Definition isoformat_sep (sep : Z) (d : datetime) : pystr :=
  zfill 4 (year d) ++ [45] ++ zfill 2 (month d) ++ [45] ++ zfill 2 (day d)
  ++ [sep]
  ++ zfill 2 (hour d) ++ [58] ++ zfill 2 (minute d) ++ [58] ++ zfill 2 (second d)
  ++ (if microsecond d =? 0 then [] else [46] ++ zfill 6 (microsecond d))
  ++ format_offset (tzoffset d).

(** [d.isoformat()]: the separator is [T]. *)
Definition isoformat (d : datetime) : pystr := isoformat_sep 84 d.

(** [s.encode("utf-8")]: lone surrogates cannot be encoded. *)
Definition encode_char (c : Z) : result (list Z) :=
  if c <? 0 then Raise UnicodeEncodeError
  else if c <? 128 then Ok [c]
  else if c <? 2048 then
    Ok [Z.lor 192 (Z.shiftr c 6); Z.lor 128 (Z.land c 63)]
  else if c <? 65536 then
    if (55296 <=? c) && (c <=? 57343) then Raise UnicodeEncodeError
    else Ok [Z.lor 224 (Z.shiftr c 12);
             Z.lor 128 (Z.land (Z.shiftr c 6) 63);
             Z.lor 128 (Z.land c 63)]
  else if c <? 1114112 then
    Ok [Z.lor 240 (Z.shiftr c 18);
        Z.lor 128 (Z.land (Z.shiftr c 12) 63);
        Z.lor 128 (Z.land (Z.shiftr c 6) 63);
        Z.lor 128 (Z.land c 63)]
  else Raise UnicodeEncodeError.

Definition encode_utf8 (s : pystr) : result (list Z) :=
  bs <- mapM encode_char s ;; Ok (concat bs).

End Py.
Import Py.

(** ** hashlib.sha256 (FIPS 180-4), on a list of bytes *)

Module SHA256.

Definition w32 : Z := 4294967296.
Definition add32 (x y : Z) : Z := (x + y) mod w32.
Definition rotr (n x : Z) : Z :=
  Z.lor (Z.shiftr x n) ((Z.shiftl x (32 - n)) mod w32).
Definition not32 (x : Z) : Z := w32 - 1 - x.

Definition Ch (x y z : Z) : Z := Z.lxor (Z.land x y) (Z.land (not32 x) z).
Definition Maj (x y z : Z) : Z :=
  Z.lxor (Z.lxor (Z.land x y) (Z.land x z)) (Z.land y z).
Definition Sigma0 (x : Z) : Z := Z.lxor (Z.lxor (rotr 2 x) (rotr 13 x)) (rotr 22 x).
Definition Sigma1 (x : Z) : Z := Z.lxor (Z.lxor (rotr 6 x) (rotr 11 x)) (rotr 25 x).
Definition sigma0 (x : Z) : Z := Z.lxor (Z.lxor (rotr 7 x) (rotr 18 x)) (Z.shiftr x 3).
Definition sigma1 (x : Z) : Z := Z.lxor (Z.lxor (rotr 17 x) (rotr 19 x)) (Z.shiftr x 10).

(** The constants of the standard: the first 32 bits of the fractional
    parts of the cube roots of the first 64 primes, and of the square roots
    of the first 8. *)
Definition is_prime (n : Z) : bool :=
  (1 <? n)
  && forallb (fun d => negb (n mod d =? 0))
             (map Z.of_nat (seq 2 (Z.to_nat n - 2))).

Definition primes : list Z := filter is_prime (map Z.of_nat (seq 2 310)).

(** The largest number above [x], by the low [bits] bits, whose [k]-th
    power is at most [n]. *)
Fixpoint root_bits (k : Z) (bits : nat) (n x : Z) : Z :=
  match bits with
  | O => x
  | S b =>
      let y := x + 2 ^ Z.of_nat b in
      if y ^ k <=? n then root_bits k b n y else root_bits k b n x
  end.

Definition frac_root (k p : Z) : Z :=
  root_bits k 40 (p * 2 ^ (32 * k)) 0 mod w32.

Definition K : list Z := Eval vm_compute in map (frac_root 3) primes.

Definition H0 : list Z := Eval vm_compute in map (frac_root 2) (firstn 8 primes).

(** Big-endian bytes of a number, [n] of them. *)
Fixpoint be_bytes (n : nat) (x : Z) : list Z :=
  match n with
  | O => []
  | S n' => (Z.shiftr x (8 * Z.of_nat n')) mod 256 :: be_bytes n' x
  end.

Definition pad (msg : list Z) : list Z :=
  let len := Z.of_nat (length msg) in
  let zeros := Z.to_nat ((55 - len) mod 64) in
  msg ++ [128] ++ repeat 0 zeros ++ be_bytes 8 (8 * len).

Fixpoint words_of_bytes (bs : list Z) : list Z :=
  match bs with
  | a :: b :: c :: d :: rest =>
      (((a * 256 + b) * 256 + c) * 256 + d) :: words_of_bytes rest
  | _ => []
  end.

Fixpoint blocks (fuel : nat) (ws : list Z) : list (list Z) :=
  match fuel with
  | O => []
  | S fuel' =>
      match ws with
      | [] => []
      | _ => firstn 16 ws :: blocks fuel' (skipn 16 ws)
      end
  end.

Fixpoint schedule (n : nat) (w : list Z) : list Z :=
  match n with
  | O => w
  | S n' =>
      let t := length w in
      let at_ i := nth (t - i) w 0 in
      schedule n' (w ++ [add32 (add32 (sigma1 (at_ 2%nat)) (at_ 7%nat))
                               (add32 (sigma0 (at_ 15%nat)) (at_ 16%nat))])
  end.

Definition round (s : list Z) (kw : Z * Z) : list Z :=
  match s with
  | [a; b; c; d; e; f; g; h] =>
      let t1 := add32 (add32 (add32 h (Sigma1 e)) (add32 (Ch e f g) (fst kw))) (snd kw) in
      let t2 := add32 (Sigma0 a) (Maj a b c) in
      [add32 t1 t2; a; b; c; add32 d t1; e; f; g]
  | _ => s
  end.

Fixpoint add_words (xs ys : list Z) : list Z :=
  match xs, ys with
  | x :: xs', y :: ys' => add32 x y :: add_words xs' ys'
  | _, _ => []
  end.

Definition compress (h : list Z) (block : list Z) : list Z :=
  add_words h (fold_left round (combine K (schedule 48 block)) h).

(** The digest, as 32 bytes. *)
Definition digest (msg : list Z) : list Z :=
  let ws := words_of_bytes (pad msg) in
  flat_map (be_bytes 4) (fold_left compress (blocks (length ws) ws) H0).

Definition hexdigit (n : Z) : Z := if n <? 10 then 48 + n else 87 + n.

(** [hashlib.sha256(msg).hexdigest()] *)
Definition hexdigest (msg : list Z) : pystr :=
  flat_map (fun b => [hexdigit (b / 16); hexdigit (b mod 16)]) (digest msg).

End SHA256.

(** ** Values *)

Inductive value : Type :=
| VNone
| VInt (z : Z)
| VStr (s : pystr)
| VDecimal (unscaled : Z)
| VDatetime (d : datetime).

Definition is_null (v : value) : bool :=
  match v with VNone => true | _ => false end.

(** [str(value)] *)
Definition str (v : value) : pystr :=
  match v with
  | VNone => lit "None"
  | VInt z => str_int z
  | VStr s => s
  | VDecimal u => str_decimal2 u
  | VDatetime d => isoformat_sep 32 d
  end.

(** ** The constants of the module *)

Definition CRITICAL_COLUMNS : list string :=
  [ "CodFondo"; "Identificacion"; "CodDireccion"; "Valor"; "Unidades";
    "ObjetivoInversion"; "Asesor"; "Oficina"; "Bloqueo"; "DiasPermanencia" ]%string.

Definition DATE_COLUMNS : list string :=
  [ "FechaConstitucion"; "FechaVencimiento"; "FechaVtoTeorica";
    "FechaUltimaCancelacion" ]%string.

Definition SOURCE_COLUMNS : list string :=
  [ "CodFondo"; "CodClase"; "NumeroCuentaInversion"; "TipoIdentificacion";
    "Identificacion"; "CodDireccion"; "Valor"; "Unidades";
    "FechaConstitucion"; "FechaVencimiento"; "ObjetivoInversion"; "Asesor";
    "Referido"; "CanalApertura"; "Oficina"; "OficinaApertura";
    "OficinaActual"; "Bloqueo"; "IdCausalBloqueo"; "DiasPermanencia";
    "FechaVtoTeorica"; "FechaUltimaCancelacion" ]%string.

Definition COPY_COLUMNS : list string :=
  [ "process_id"; "source_hash"; "source_system"; "transaction_id";
    "payload_hash"; "cod_fondo"; "cod_clase"; "numero_cuenta_inversion";
    "tipo_identificacion"; "identificacion"; "cod_direccion"; "valor";
    "unidades"; "fecha_constitucion"; "fecha_vencimiento";
    "objetivo_inversion"; "asesor"; "referido"; "canal_apertura"; "oficina";
    "oficina_apertura"; "oficina_actual"; "bloqueo"; "id_causal_bloqueo";
    "dias_permanencia"; "fecha_vto_teorica"; "fecha_ultima_cancelacion" ]%string.

Record Metrics : Type := mkMetrics {
  rows_read : Z;
  rows_loaded : Z;
  rows_rejected : Z
}.

(** ** The hasher *)

Definition normalize_value (v : value) : pystr :=
  match v with
  | VNone => []
  | VDatetime d => isoformat d
  | _ => strip (str v)
  end.

Definition SEPARATOR : pystr := lit "|".

Definition canonical_string (values : list value) : pystr :=
  join SEPARATOR (map normalize_value values).

Definition sha256_from_values (values : list value) : result pystr :=
  bs <- encode_utf8 (canonical_string values) ;;
  Ok (SHA256.hexdigest bs).

(** ** Data frames

    A frame is its column names and its rows; a row holds one cell per
    column, keyed by the column name (what [to_dicts] hands to Python). *)

Definition record := list (string * value).

Record DataFrame : Type := mkFrame {
  columns : list string;
  rows : list record
}.

Inductive dtype : Type :=
| Int32
| Int64
| Decimal (precision scale : nat)
| Utf8.

Definition height (df : DataFrame) : Z := Z.of_nat (length (rows df)).

Fixpoint lookup (r : record) (c : string) : option value :=
  match r with
  | [] => None
  | (k, v) :: r' => if String.eqb k c then Some v else lookup r' c
  end.

(** The cell of a row in a column (null when the row has no such cell). *)
Definition cell (r : record) (c : string) : value :=
  match lookup r c with
  | Some v => v
  | None => VNone
  end.

Definition has_column (df : DataFrame) (c : string) : bool :=
  existsb (String.eqb c) (columns df).

Definition has_columns (df : DataFrame) (cs : list string) : bool :=
  forallb (has_column df) cs.

(** [df.select(names)] *)
Definition select (names : list string) (df : DataFrame) : result DataFrame :=
  if has_columns df names then
    Ok (mkFrame names (map (fun r => map (fun c => (c, cell r c)) names) (rows df)))
  else Raise ColumnNotFoundError.

Definition no_nulls (subset : list string) (r : record) : bool :=
  forallb (fun c => negb (is_null (cell r c))) subset.

(** [df.drop_nulls(subset)] *)
Definition drop_nulls (subset : list string) (df : DataFrame) : result DataFrame :=
  if has_columns df subset then
    Ok (mkFrame (columns df) (filter (no_nulls subset) (rows df)))
  else Raise ColumnNotFoundError.

(** The cells of a column, top to bottom. *)
Definition column (df : DataFrame) (c : string) : list value :=
  map (fun r => cell r c) (rows df).

(** [lazy_frame.slice(offset, length).collect()].  A negative length is
    refused by [LazyFrame.slice] itself.  The offset is then passed as a
    signed 64-bit integer and the length as an unsigned 32-bit one (the
    row index of the default build of polars): a value outside them is
    refused by the conversion.  A negative offset counts
    from the end ([run_etl] never passes one); the window from the start
    to the start plus the length is cut to the frame. *)
Definition slice (offset length : Z) (df : DataFrame) : result DataFrame :=
  if length <? 0 then Raise ValueError
  else if (4294967296 <=? length)
          || (offset <? - 9223372036854775808) || (9223372036854775808 <=? offset)
  then Raise OverflowError
  else
    let n := height df in
    let start := if offset <? 0 then offset + n else offset in
    let lo := Z.max 0 (Z.min start n) in
    let hi := Z.max 0 (Z.min (start + length) n) in
    Ok (mkFrame (columns df)
          (firstn (Z.to_nat (hi - lo)) (skipn (Z.to_nat lo) (rows df)))).

(** [df.to_dicts()] *)
Definition to_dicts (df : DataFrame) : list record := rows df.

(** [record[key]] *)
Definition getitem (r : record) (key : string) : result value :=
  match lookup r key with
  | Some v => Ok v
  | None => Raise KeyError
  end.

(** ** What the run observes and does *)

Inductive event : Type :=
| EConnect (connection_string : pystr)
| ECollect (offset length : Z) (chunk_height : Z)
| ECopy (sql : pystr) (data : pystr)
| ECommit
| ERollback
| EClose
| EPrint (line : pystr).

Record State : Type := mkState {
  st_metrics : Metrics;
  st_events : list event
}.

(** ** The environment: polars, the file system and the PostgreSQL server *)

Record Env : Type := mkEnv {
  (** [Series.cast(dtype, strict=False)] on one cell *)
  cast : dtype -> value -> value;
  (** whether polars has a cast to the dtype from the type of a column
      that holds these cells (it has none from a datetime column to a
      decimal one); without one, the cast raises whatever [strict] is *)
  cast_ok : dtype -> list value -> bool;
  (** [Series.str.strptime(pl.Datetime, strict=False, exact=False)] on a
      text column; the format is settled on the column as a whole *)
  strptime : list value -> result (list value);
  (** the records of the file at a path, as [scan_parquet] and [scan_csv]
      expose them; a file that cannot be read or decoded is outside the
      embedding *)
  scan_parquet : pystr -> DataFrame;
  scan_csv : pystr -> DataFrame;
  (** whether [psycopg.connect] succeeds *)
  connect_ok : pystr -> bool;
  (** whether the server takes a COPY, and a commit, after what came before *)
  copy_ok : list event -> pystr -> pystr -> bool;
  commit_ok : list event -> bool
}.

(** ** Computations of the run: the state is threaded, an exception stops
    the computation and leaves the state as it was when raised *)

Definition M (A : Type) : Type := State -> result A * State.

Definition ret {A} (a : A) : M A := fun st => (Ok a, st).

Definition bind {A B} (m : M A) (k : A -> M B) : M B :=
  fun st =>
    match m st with
    | (Ok a, st') => k a st'
    | (Raise e, st') => (Raise e, st')
    end.

Notation "x <~ m ;; k" := (bind m (fun x => k))
  (at level 61, m at next level, right associativity).

Definition lift {A} (r : result A) : M A := fun st => (r, st).

Definition emit (e : event) : M unit :=
  fun st => (Ok tt, mkState (st_metrics st) (st_events st ++ [e])).

Definition get_metrics : M Metrics := fun st => (Ok (st_metrics st), st).

Definition set_metrics (m : Metrics) : M unit :=
  fun st => (Ok tt, mkState m (st_events st)).

Fixpoint foldM {A B} (f : A -> B -> result A) (l : list B) (a : A) : result A :=
  match l with
  | [] => Ok a
  | b :: l' => a' <- f a b ;; foldM f l' a'
  end.

(** ** The program *)

Section Program.

Variable env : Env.

(** *** Transformer *)

(** The casts of the [with_columns] call of [transform_chunk]. *)
Definition CASTS : list (string * dtype) :=
  [ ("CodFondo", Int32); ("Identificacion", Int32); ("CodDireccion", Int32);
    ("Valor", Decimal 18 2); ("Unidades", Int64); ("ObjetivoInversion", Int64);
    ("Asesor", Int32); ("Oficina", Int32); ("Bloqueo", Int32);
    ("DiasPermanencia", Int64); ("OficinaApertura", Int32);
    ("OficinaActual", Int32); ("IdCausalBloqueo", Int32) ]%string.

Fixpoint cast_of (casts : list (string * dtype)) (c : string) : option dtype :=
  match casts with
  | [] => None
  | (k, dt) :: casts' => if String.eqb k c then Some dt else cast_of casts' c
  end.

Definition cast_cell (casts : list (string * dtype)) (c : string) (v : value) : value :=
  match cast_of casts c with
  | Some dt => cast env dt v
  | None => v
  end.

Definition cast_record (casts : list (string * dtype)) (r : record) : record :=
  map (fun kv => (fst kv, cast_cell casts (fst kv) (snd kv))) r.

(** [df.with_columns([pl.col(c).cast(dt, strict=False), ...])]: the
    columns are looked up first; a cast that polars does not have raises,
    a value that a cast cannot convert becomes null. *)
Definition with_columns_cast (casts : list (string * dtype)) (df : DataFrame)
  : result DataFrame :=
  if has_columns df (map fst casts) then
    if forallb (fun cd => cast_ok env (snd cd) (column df (fst cd))) casts then
      Ok (mkFrame (columns df) (map (cast_record casts) (rows df)))
    else Raise InvalidOperationError
  else Raise ColumnNotFoundError.

(** [series.cast(dtype)], strict: a value lost by the cast is an error. *)
Definition cast_strict (dt : dtype) (col : list value) : result (list value) :=
  if cast_ok env dt col then
    let out := map (cast env dt) col in
    if existsb (fun p => negb (is_null (fst p)) && is_null (snd p)) (combine col out)
    then Raise InvalidOperationError
    else Ok out
  else Raise InvalidOperationError.

Definition set_cell (c : string) (v : value) (r : record) : record :=
  map (fun kv => if String.eqb (fst kv) c then (fst kv, v) else kv) r.

(** [pl.when(old.is_null()).then(None).otherwise(parsed)] on one row. *)
Definition when_null_then_none (old parsed : value) : value :=
  if is_null old then VNone else parsed.

(** The body of the loop over [DATE_COLUMNS]:
    [with_columns(when(col.is_null()).then(None)
       .otherwise(col.cast(Utf8).str.strptime(Datetime, strict=False, exact=False))
       .alias(date_col))]. *)
Definition parse_date_column (df : DataFrame) (date_col : string) : result DataFrame :=
  if has_column df date_col then
    let col := map (fun r => cell r date_col) (rows df) in
    text <- cast_strict Utf8 col ;;
    parsed <- strptime env text ;;
    if Nat.eqb (length parsed) (length col) then
      Ok (mkFrame (columns df)
            (map (fun rp => set_cell date_col
                              (when_null_then_none (cell (fst rp) date_col) (snd rp))
                              (fst rp))
                 (combine (rows df) parsed)))
    else Raise ShapeError
  else Raise ColumnNotFoundError.

(** The first statement of [transform_chunk]: select, drop, cast, drop. *)
Definition transform_casts (df : DataFrame) : result DataFrame :=
  selected <- select SOURCE_COLUMNS df ;;
  dropped <- drop_nulls CRITICAL_COLUMNS selected ;;
  casted <- with_columns_cast CASTS dropped ;;
  drop_nulls CRITICAL_COLUMNS casted.

Definition transform_chunk (df : DataFrame) : result DataFrame :=
  transformed <- transform_casts df ;;
  foldM parse_date_column DATE_COLUMNS transformed.

(** *** Hasher and row builder *)

(** The keys of the business key, in the order of the list literal. *)
Definition BUSINESS_KEY_COLUMNS : list string :=
  [ "CodFondo"; "NumeroCuentaInversion"; "Identificacion"; "CodDireccion";
    "FechaConstitucion" ]%string.

(** The keys read for the tail of a row, in the order of the list literal. *)
Definition ROW_COLUMNS : list string :=
  [ "CodFondo"; "CodClase"; "NumeroCuentaInversion"; "TipoIdentificacion";
    "Identificacion"; "CodDireccion"; "Valor"; "Unidades";
    "FechaConstitucion"; "FechaVencimiento"; "ObjetivoInversion"; "Asesor";
    "Referido"; "CanalApertura"; "Oficina"; "OficinaApertura";
    "OficinaActual"; "Bloqueo"; "IdCausalBloqueo"; "DiasPermanencia";
    "FechaVtoTeorica"; "FechaUltimaCancelacion" ]%string.

Definition business_key (r : record) (source_system : pystr) : result (list value) :=
  key <- mapM (getitem r) BUSINESS_KEY_COLUMNS ;;
  Ok (key ++ [VStr source_system]).

Definition payload_values (r : record) (source_system : pystr) : result (list value) :=
  vals <- mapM (getitem r) SOURCE_COLUMNS ;;
  Ok (vals ++ [VStr source_system]).

(** The body of the loop of [build_copy_rows]. *)
Definition build_copy_row (process_id source_hash source_system : pystr) (r : record)
  : result (list value) :=
  bk <- business_key r source_system ;;
  pv <- payload_values r source_system ;;
  transaction_id <- sha256_from_values bk ;;
  payload_hash <- sha256_from_values pv ;;
  fields <- mapM (getitem r) ROW_COLUMNS ;;
  Ok ([VStr process_id; VStr source_hash; VStr source_system;
       VStr transaction_id; VStr payload_hash] ++ fields).

Definition build_copy_rows (df : DataFrame) (process_id source_hash source_system : pystr)
  : result (list (list value)) :=
  mapM (build_copy_row process_id source_hash source_system) (to_dicts df).

(** *** Bulk loader *)

(** What [csv.writer] writes for one field before quoting. *)
Definition csv_text (v : value) : pystr :=
  match v with
  | VNone => []
  | _ => str v
  end.

(** QUOTE_MINIMAL: a field is quoted when it holds the delimiter, the
    quote character or a character of the line terminator. *)
Definition csv_special (c : Z) : bool :=
  (c =? 44) || (c =? 34) || (c =? 13) || (c =? 10).

Definition csv_quote (s : pystr) : pystr :=
  [34] ++ flat_map (fun c => if c =? 34 then [34; 34] else [c]) s ++ [34].

Definition csv_field (v : value) : pystr :=
  let s := csv_text v in
  if existsb csv_special s then csv_quote s else s.

(** [writer.writerow(row)]: a record that would be empty although it has a
    field is written as a quoted empty field. *)
Definition writerow (row : list value) : pystr :=
  let line := join [44] (map csv_field row) in
  (match row, line with
   | _ :: _, [] => csv_quote []
   | _, _ => line
   end) ++ [13; 10].

Definition writerows (rs : list (list value)) : pystr :=
  flat_map writerow rs.

Definition copy_sql : pystr :=
  [10] ++ lit "        COPY staging_transactions ("
  ++ join (lit ", ") (map lit COPY_COLUMNS) ++ lit ")"
  ++ [10] ++ lit "        FROM STDIN WITH (FORMAT CSV)"
  ++ [10] ++ lit "    ".

(** [cursor.copy(sql)] then [copy.write(data)]. *)
Definition cursor_copy (sql data : pystr) : M unit :=
  fun st =>
    if copy_ok env (st_events st) sql data
    then emit (ECopy sql data) st
    else (Raise DatabaseError, st).

Definition copy_to_staging (rs : list (list value)) : M unit :=
  match rs with
  | [] => ret tt
  | _ => cursor_copy copy_sql (writerows rs)
  end.

(** [conn.commit()] *)
Definition commit : M unit :=
  fun st =>
    if commit_ok env (st_events st)
    then emit ECommit st
    else (Raise DatabaseError, st).

(** *** Source reader *)

(** [Path.name]: the last component of the path, the path being given as
    [pathlib] holds it (POSIX separators, no trailing separator). *)
Fixpoint path_name_aux (acc p : pystr) : pystr :=
  match p with
  | [] => acc
  | c :: p' => if c =? 47 then path_name_aux [] p' else path_name_aux (acc ++ [c]) p'
  end.

Definition path_name (p : pystr) : pystr := path_name_aux [] p.

(** [name.rfind(".")], as the suffix it starts, when there is one. *)
Fixpoint last_dot (name : pystr) : option pystr :=
  match name with
  | [] => None
  | c :: name' =>
      match last_dot name' with
      | Some s => Some s
      | None => if c =? 46 then Some name else None
      end
  end.

(** [Path.suffix]: from the last dot of the name, unless that dot starts or
    ends the name. *)
Definition suffix (p : pystr) : pystr :=
  let name := path_name p in
  match last_dot name with
  | Some s =>
      if (Nat.ltb (length s) (length name)) && (Nat.ltb 1 (length s)) then s else []
  | None => []
  end.

(** [str.lower] on the ASCII letters; no other character lowers to a
    character of the two extensions compared with. *)
Definition lower (s : pystr) : pystr :=
  map (fun c => if (65 <=? c) && (c <=? 90) then c + 32 else c) s.

Definition scan_input_file (input_path : pystr) : result DataFrame :=
  let extension := lower (suffix input_path) in
  if pystr_eqb extension (lit ".parquet") then Ok (scan_parquet env input_path)
  else if pystr_eqb extension (lit ".csv") then Ok (scan_csv env input_path)
  else Raise ValueError.

(** *** Orchestrator *)

(** [lazy_frame.slice(offset, chunk_size).collect(engine="streaming")] *)
Definition collect_slice (lazy_frame : DataFrame) (offset chunk_size : Z) : M DataFrame :=
  chunk <~ lift (slice offset chunk_size lazy_frame) ;;
  _ <~ emit (ECollect offset chunk_size (height chunk)) ;;
  ret chunk.

Definition progress_line (m : Metrics) : pystr :=
  lit "PROGRESS rows_read=" ++ str_int (rows_read m)
  ++ lit " rows_loaded=" ++ str_int (rows_loaded m)
  ++ lit " rows_rejected=" ++ str_int (rows_rejected m).

Inductive control : Type := Break | Continue.

(** One turn of the [while True] loop, up to the update of [offset]. *)
Definition etl_batch (lazy_frame : DataFrame)
    (process_id source_hash source_system : pystr) (chunk_size offset : Z)
  : M control :=
  chunk <~ collect_slice lazy_frame offset chunk_size ;;
  if height chunk =? 0 then ret Break
  else
    m0 <~ get_metrics ;;
    _ <~ set_metrics (mkMetrics (rows_read m0 + height chunk)
                                (rows_loaded m0) (rows_rejected m0)) ;;
    transformed <~ lift (transform_chunk chunk) ;;
    rs <~ lift (build_copy_rows transformed process_id source_hash source_system) ;;
    _ <~ copy_to_staging rs ;;
    m1 <~ get_metrics ;;
    _ <~ set_metrics (mkMetrics (rows_read m1)
                                (rows_loaded m1 + Z.of_nat (length rs))
                                (rows_rejected m1)) ;;
    m2 <~ get_metrics ;;
    _ <~ set_metrics (mkMetrics (rows_read m2) (rows_loaded m2)
                                (rows_rejected m2 + (height chunk - Z.of_nat (length rs)))) ;;
    _ <~ commit ;;
    m3 <~ get_metrics ;;
    _ <~ emit (EPrint (progress_line m3)) ;;
    ret Continue.

(** The [while True] loop; [None] when the fuel runs out before the loop
    ends. *)
Fixpoint run_loop (fuel : nat) (lazy_frame : DataFrame)
    (process_id source_hash source_system : pystr) (chunk_size offset : Z)
    (st : State) : option (result Metrics * State) :=
  match fuel with
  | O => None
  | S fuel' =>
      match etl_batch lazy_frame process_id source_hash source_system
                      chunk_size offset st with
      | (Raise e, st') => Some (Raise e, st')
      | (Ok Break, st') => Some (Ok (st_metrics st'), st')
      | (Ok Continue, st') =>
          run_loop fuel' lazy_frame process_id source_hash source_system
                   chunk_size (offset + chunk_size) st'
      end
  end.

(** Leaving the [with psycopg.connect(...)] block: commit and close, or
    roll back and close when an exception passes through; a commit that
    fails raises before the close. *)
Definition leave_connection (r : result Metrics * State) : result Metrics * State :=
  match r with
  | (Ok m, st) =>
      if commit_ok env (st_events st)
      then (Ok m, mkState (st_metrics st) (st_events st ++ [ECommit; EClose]))
      else (Raise DatabaseError, st)
  | (Raise e, st) =>
      (Raise e, mkState (st_metrics st) (st_events st ++ [ERollback; EClose]))
  end.

Definition run_etl (fuel : nat) (input_path process_id source_hash source_system
                    connection_string : pystr) (chunk_size : Z)
  : option (result Metrics * State) :=
  let st0 := mkState (mkMetrics 0 0 0) [] in
  match scan_input_file input_path with
  | Raise e => Some (Raise e, st0)
  | Ok lazy_frame =>
      if connect_ok env connection_string then
        option_map leave_connection
          (run_loop fuel lazy_frame process_id source_hash source_system
                    chunk_size 0
                    (mkState (st_metrics st0) (st_events st0 ++ [EConnect connection_string])))
      else Some (Raise OperationalError, st0)
  end.

End Program.

(** ** A sample environment, to run the program on examples *)

Module Sample.

Fixpoint parse_digits (acc : Z) (s : pystr) : option Z :=
  match s with
  | [] => Some acc
  | c :: s' =>
      if (48 <=? c) && (c <=? 57) then parse_digits (10 * acc + (c - 48)) s'
      else None
  end.

Definition parse_int (s : pystr) : option Z :=
  match s with
  | [] => None
  | [45] => None
  | 45 :: s' => option_map Z.opp (parse_digits 0 s')
  | _ => parse_digits 0 s
  end.

Definition in_range (bits : Z) (z : Z) : value :=
  if (- 2 ^ (bits - 1) <=? z) && (z <? 2 ^ (bits - 1)) then VInt z else VNone.

Definition cast_int (bits : Z) (v : value) : value :=
  match v with
  | VInt z => in_range bits z
  | VStr s => match parse_int s with Some z => in_range bits z | None => VNone end
  | VDecimal u => in_range bits (Z.quot u 100)
  | _ => VNone
  end.

Definition cast_decimal (v : value) : value :=
  match v with
  | VInt z => VDecimal (100 * z)
  | VDecimal u => VDecimal u
  | VStr s => match parse_int s with Some z => VDecimal (100 * z) | None => VNone end
  | _ => VNone
  end.

Definition cast (dt : dtype) (v : value) : value :=
  match dt with
  | Int32 => cast_int 32 v
  | Int64 => cast_int 64 v
  | Decimal _ _ => cast_decimal v
  | Utf8 => match v with VNone => VNone | _ => VStr (str v) end
  end.

(** A text of the form [YYYY-MM-DD...] is a date at midnight. *)
Definition parse_date (v : value) : value :=
  match v with
  | VStr (y1 :: y2 :: y3 :: y4 :: 45 :: m1 :: m2 :: 45 :: d1 :: d2 :: _) =>
      match parse_digits 0 [y1; y2; y3; y4], parse_digits 0 [m1; m2],
            parse_digits 0 [d1; d2] with
      | Some y, Some m, Some d => VDatetime (mkDatetime y m d 0 0 0 0 None)
      | _, _, _ => VNone
      end
  | _ => VNone
  end.

Definition strptime (col : list value) : result (list value) :=
  Ok (map parse_date col).

Definition is_datetime (v : value) : bool :=
  match v with VDatetime _ => true | _ => false end.

(** There is no cast from a datetime column to a decimal one. *)
Definition cast_ok (dt : dtype) (col : list value) : bool :=
  match dt with
  | Decimal _ _ => negb (existsb is_datetime col)
  | _ => true
  end.

Definition row (cod_fondo cuenta identificacion valor : value) (fecha : value) : record :=
  [ ("CodFondo", cod_fondo); ("CodClase", VStr (lit "A"));
    ("NumeroCuentaInversion", cuenta); ("TipoIdentificacion", VStr (lit "CC"));
    ("Identificacion", identificacion); ("CodDireccion", VInt 7);
    ("Valor", valor); ("Unidades", VInt 12);
    ("FechaConstitucion", fecha); ("FechaVencimiento", VNone);
    ("ObjetivoInversion", VInt 3); ("Asesor", VInt 1000);
    ("Referido", VNone); ("CanalApertura", VStr (lit "DIGITAL"));
    ("Oficina", VInt 20); ("OficinaApertura", VNone);
    ("OficinaActual", VInt 21); ("Bloqueo", VInt 0);
    ("IdCausalBloqueo", VNone); ("DiasPermanencia", VInt 90);
    ("FechaVtoTeorica", VStr (lit "2031-01-15")); ("FechaUltimaCancelacion", VNone)
  ]%string.

(** Three records; the second has no holder identifier. *)
Definition frame : DataFrame :=
  mkFrame SOURCE_COLUMNS
    [ row (VInt 101) (VStr (lit "ACCT-1")) (VInt 5001) (VInt 250) (VStr (lit "2020-02-03"));
      row (VInt 102) (VStr (lit "ACCT-2")) VNone (VInt 300) (VStr (lit "2021-05-06"));
      row (VInt 103) (VStr (lit "ACCT-3")) (VInt 5003) (VInt 350) (VStr (lit "2022-08-09")) ].

Definition env : Env :=
  mkEnv cast cast_ok strptime (fun _ => frame) (fun _ => frame)
        (fun _ => true) (fun _ _ _ => true) (fun _ => true).

End Sample.

(** * The rest of the module: the file digest and the entry point *)

(** ** compute_file_hash

    The file is given by its bytes.  A [hashlib] hasher is the bytes it was
    fed so far: [update(a)] then [update(b)] is [update(a + b)]. *)

(** [source.read(n)] on what is left of the file: the bytes read and what
    is left after them. *)
Definition file_read (n : nat) (remaining : list Z) : list Z * list Z :=
  (firstn n remaining, skipn n remaining).

(** [for chunk in iter(lambda: source.read(n), b""): hasher.update(chunk)];
    [None] when the fuel runs out before the empty read. *)
Fixpoint update_chunks (fuel n : nat) (remaining hasher : list Z) : option (list Z) :=
  match fuel with
  | O => None
  | S fuel' =>
      match file_read n remaining with
      | ([], _) => Some hasher
      | (chunk, remaining') => update_chunks fuel' n remaining' (hasher ++ chunk)
      end
  end.

Definition compute_file_hash (fuel : nat) (content : list Z) : option pystr :=
  option_map SHA256.hexdigest (update_chunks fuel (1024 * 1024) content []).

(** ** pathlib.Path, on POSIX *)

(** [s.split(sep)] on one character. *)
Fixpoint split_on (sep : Z) (cur s : pystr) : list pystr :=
  match s with
  | [] => [cur]
  | c :: s' => if c =? sep then cur :: split_on sep [] s' else split_on sep (cur ++ [c]) s'
  end.

(** [posixpath.splitroot]: one leading slash, or exactly two, is the root. *)
Definition splitroot (s : pystr) : pystr * pystr :=
  match s with
  | 47 :: 47 :: 47 :: _ => ([47], tl s)
  | 47 :: 47 :: rest => ([47; 47], rest)
  | 47 :: rest => ([47], rest)
  | _ => ([], s)
  end.

(** [Path(s).as_posix()]: empty and [.] components are dropped. *)
Definition Path (s : pystr) : pystr :=
  let (root, rel) := splitroot s in
  let parts := filter (fun x => negb (pystr_eqb x []) && negb (pystr_eqb x [46]))
                      (split_on 47 [] rel) in
  match root, parts with
  | [], [] => [46]
  | _, _ => root ++ join [47] parts
  end.

(** ** json.dumps, for the summary *)

Definition hex4 (n : Z) : pystr :=
  map SHA256.hexdigit [n / 4096 mod 16; n / 256 mod 16; n / 16 mod 16; n mod 16].

(** One character of a string, as [ensure_ascii] writes it. *)
Definition json_escape (c : Z) : pystr :=
  if c =? 34 then [92; 34]
  else if c =? 92 then [92; 92]
  else if c =? 10 then [92; 110]
  else if c =? 13 then [92; 114]
  else if c =? 9 then [92; 116]
  else if c =? 12 then [92; 102]
  else if c =? 8 then [92; 98]
  else if (32 <=? c) && (c <=? 126) then [c]
  else if c <? 65536 then [92; 117] ++ hex4 c
  else
    let v := c - 65536 in
    [92; 117] ++ hex4 (Z.lor 55296 (Z.land (Z.shiftr v 10) 1023))
    ++ [92; 117] ++ hex4 (Z.lor 56320 (Z.land v 1023)).

Definition json_string (s : pystr) : pystr :=
  [34] ++ flat_map json_escape s ++ [34].

(** [json.dumps] of the dictionary that [main] prints. *)
Definition summary_line (process_id source_hash : pystr) (m : Metrics) : pystr :=
  lit "{" ++ json_string (lit "processId") ++ lit ": " ++ json_string process_id
  ++ lit ", " ++ json_string (lit "sourceHash") ++ lit ": " ++ json_string source_hash
  ++ lit ", " ++ json_string (lit "rowsRead") ++ lit ": " ++ str_int (rows_read m)
  ++ lit ", " ++ json_string (lit "rowsLoaded") ++ lit ": " ++ str_int (rows_loaded m)
  ++ lit ", " ++ json_string (lit "rowsRejected") ++ lit ": " ++ str_int (rows_rejected m)
  ++ lit "}".

(** ** main, from the parsed arguments on *)

(** The namespace that [parser.parse_args()] returns. *)
Record Namespace : Type := mkNamespace {
  arg_parquet_path : pystr;
  arg_process_id : pystr;
  arg_connection_string : pystr;
  arg_source_system : pystr;
  arg_source_hash : pystr;
  arg_chunk_size : Z
}.

(** The namespace of a command line that gives the three required
    arguments only. *)
Definition default_namespace (parquet_path process_id connection_string : pystr)
  : Namespace :=
  mkNamespace parquet_path process_id connection_string
              (lit "ExternalProvider") [] 200000.

(** How [main] ends: it returns, or [open] raises [OSError] on the file
    to digest, or [run_etl] raises. *)
Inductive main_exit : Type :=
| Returned
| FileError
| RunError (e : error).

Section Main.

Variable env : Env.

(** The bytes of the file at a path, when it can be opened and read. *)
Variable file_bytes : pystr -> option (list Z).

(** [args.source_hash or compute_file_hash(input_path)]: [Some None] when
    the file cannot be opened. *)
Definition main_source_hash (fuel : nat) (args : Namespace) (input_path : pystr)
  : option (option pystr) :=
  match arg_source_hash args with
  | [] =>
      match file_bytes input_path with
      | None => Some None
      | Some content => option_map Some (compute_file_hash fuel content)
      end
  | given => Some (Some given)
  end.

Definition main (fuel : nat) (args : Namespace) : option (main_exit * State) :=
  let input_path := Path (arg_parquet_path args) in
  match main_source_hash fuel args input_path with
  | None => None
  | Some None => Some (FileError, mkState (mkMetrics 0 0 0) [])
  | Some (Some source_hash) =>
      match run_etl env fuel input_path (arg_process_id args) source_hash
                    (arg_source_system args) (arg_connection_string args)
                    (arg_chunk_size args) with
      | None => None
      | Some (Raise e, st) => Some (RunError e, st)
      | Some (Ok metrics, st) =>
          Some (Returned,
                mkState (st_metrics st)
                        (st_events st
                         ++ [EPrint (summary_line (arg_process_id args) source_hash
                                                  metrics)]))
      end
  end.

End Main.

(** * The vocabulary of the properties *)

(** ** Hasher *)

Definition is_lower_hex (c : Z) : bool :=
  ((48 <=? c) && (c <=? 57)) || ((97 <=? c) && (c <=? 102)).

(** A code point that UTF-8 encodes: any but the surrogates. *)
Definition scalar_value (c : Z) : bool :=
  (0 <=? c) && (c <? 1114112) && negb ((55296 <=? c) && (c <=? 57343)).

(** Two records that share the six key values, up to canonicalization, and
    differ elsewhere. *)
Definition key_twin_1 : record :=
  Sample.row (VInt 101) (VStr (lit "ACCT-1")) (VInt 5001) (VInt 250)
             (VStr (lit "2020-02-03")).
Definition key_twin_2 : record :=
  set_cell "Unidades" (VInt 99)
    (Sample.row (VStr (lit " 101")) (VStr (lit "ACCT-1 ")) (VInt 5001) (VInt 999)
                (VStr (lit "2020-02-03"))).

(** Two records that differ in one field, by a space before the text,
    and two that differ in one field, absent in one and empty in the
    other. *)
Definition spaced_1 : record := key_twin_1.
Definition spaced_2 : record :=
  set_cell "CanalApertura" (VStr (lit " DIGITAL")) key_twin_1.
Definition absent_1 : record := key_twin_1.
Definition absent_2 : record := set_cell "Referido" (VStr []) key_twin_1.

(** The canonical forms that a payload digest is made of. *)
Definition payload_forms (r : record) (source_system : pystr) : list pystr :=
  map normalize_value (map (cell r) SOURCE_COLUMNS ++ [VStr source_system]).

(** Two records that differ in two fields and have one canonical string:
    the separator is not escaped. *)
Definition collide_1 : record :=
  set_cell "CodClase" (VStr (lit "A|B"))
    (set_cell "NumeroCuentaInversion" (VStr (lit "C")) key_twin_1).
Definition collide_2 : record :=
  set_cell "CodClase" (VStr (lit "A"))
    (set_cell "NumeroCuentaInversion" (VStr (lit "B|C")) key_twin_1).

(** ** Bulk loader *)

(** The staging column of a source column: [NumeroCuentaInversion] is
    stored as [numero_cuenta_inversion]. *)
Definition is_upper (a : ascii) : bool :=
  (Nat.leb 65 (nat_of_ascii a)) && (Nat.leb (nat_of_ascii a) 90).

Definition to_lower (a : ascii) : ascii :=
  if is_upper a then ascii_of_nat (nat_of_ascii a + 32) else a.

Fixpoint snake_case_from (first : bool) (s : string) : string :=
  match s with
  | EmptyString => EmptyString
  | String a s' =>
      if is_upper a && negb first
      then String "_" (String (to_lower a) (snake_case_from false s'))
      else String (to_lower a) (snake_case_from false s')
  end.

Definition snake_case (s : string) : string := snake_case_from true s.

(** The staging columns that come before the 22 fields. *)
Definition LINEAGE_COLUMNS : list string :=
  [ "process_id"; "source_hash"; "source_system"; "transaction_id";
    "payload_hash" ]%string.

(** ** Transformer *)

(** The row of a frame, restricted to the 22 source columns. *)
Definition project (r : record) : record :=
  map (fun c => (c, cell r c)) SOURCE_COLUMNS.

(** The row as the casts leave it. *)
Definition casted env (r : record) : record := cast_record env CASTS (project r).

(** The rows that pass both [drop_nulls]. *)
Definition retained env (r : record) : bool :=
  no_nulls CRITICAL_COLUMNS (project r) && no_nulls CRITICAL_COLUMNS (casted env r).

(** The rows that the first [drop_nulls] leaves, on the 22 columns: the
    rows that the casts are applied to. *)
Definition present (df : DataFrame) : list record :=
  filter (no_nulls CRITICAL_COLUMNS) (map project (rows df)).

(** Whether polars has each cast of [CASTS] for the column it is applied
    to. *)
Definition castable env (df : DataFrame) : bool :=
  forallb (fun cd => cast_ok env (snd cd) (map (fun r => cell r (fst cd)) (present df)))
          CASTS.



(** What the date loop may change in a row: cells of date columns only,
    and never a null into a value. *)
Definition dates_only (r o : record) : Prop :=
  (forall c, ~ In c DATE_COLUMNS -> lookup o c = lookup r c)
  /\ (forall c, cell r c = VNone -> cell o c = VNone).

(** [l1] is [l2] with some elements left out, the others in their order. *)
Inductive subseq {A : Type} : list A -> list A -> Prop :=
| subseq_nil : subseq [] []
| subseq_skip a l1 l2 : subseq l1 l2 -> subseq l1 (a :: l2)
| subseq_keep a l1 l2 : subseq l1 l2 -> subseq (a :: l1) (a :: l2).

(** Four records: a good one, one without holder identifier, one whose
    fund code is not a number, and one whose optional cells are all null. *)
Definition mixed_frame : DataFrame :=
  mkFrame SOURCE_COLUMNS
    [ key_twin_1;
      Sample.row (VInt 102) (VStr (lit "ACCT-2")) VNone (VInt 300) (VStr (lit "2021-05-06"));
      Sample.row (VStr (lit "n/a")) (VStr (lit "ACCT-3")) (VInt 5003) (VInt 350)
                 (VStr (lit "2022-08-09"));
      set_cell "CodClase" VNone
        (set_cell "NumeroCuentaInversion" VNone
           (Sample.row (VInt 104) VNone (VInt 5004) (VInt 400) VNone)) ].

(** ** Orchestrator *)

(** The counters after a batch of [read] records of which [loaded] were
    loaded. *)
Definition add_batch (m : Metrics) (read loaded : Z) : Metrics :=
  mkMetrics (rows_read m + read) (rows_loaded m + loaded)
            (rows_rejected m + (read - loaded)).

(** The COPY of a batch: none when no row was built. *)
Definition copy_events (rs : list (list value)) : list event :=
  match rs with
  | [] => []
  | _ => [ECopy copy_sql (writerows rs)]
  end.

(** The events of a turn that goes through. *)
Definition batch_events (offset chunk_size read : Z) (rs : list (list value))
    (m : Metrics) : list event :=
  ECollect offset chunk_size read :: copy_events rs
  ++ [ECommit; EPrint (progress_line m)].

Definition is_print (e : event) : bool :=
  match e with EPrint _ => true | _ => false end.

Definition is_empty_collect (e : event) : bool :=
  match e with ECollect _ _ h => h =? 0 | _ => false end.

(** A processed batch: where it was read, the chunk read and the rows
    loaded from it. *)
Record batch : Type := mkBatch {
  b_offset : Z;
  b_chunk : DataFrame;
  b_rows : list (list value)
}.

Definition b_read (b : batch) : Z := height (b_chunk b).
Definition b_loaded (b : batch) : Z := Z.of_nat (length (b_rows b)).

(** The records of the chunk that the transformer left out. *)
Definition b_rejected env (b : batch) : Z :=
  Z.of_nat (length (filter (fun r => negb (retained env r)) (rows (b_chunk b)))).

(** [b] is what the turn at its offset reads, transforms and builds. *)
Definition batch_ok env (lf : DataFrame) (pid sh ss : pystr) (c : Z) (b : batch) : Prop :=
  slice (b_offset b) c lf = Ok (b_chunk b)
  /\ height (b_chunk b) <> 0
  /\ exists transformed,
       transform_chunk env (b_chunk b) = Ok transformed
       /\ build_copy_rows transformed pid sh ss = Ok (b_rows b).

(** The offsets of successive batches: [off], [off + c], [off + 2c], ... *)
Fixpoint offsets_from (off c : Z) (bs : list batch) : Prop :=
  match bs with
  | [] => True
  | b :: bs' => b_offset b = off /\ offsets_from (off + c) c bs'
  end.

(** The state after a batch, and the events of successive batches. *)
Definition after_batch (c : Z) (st : State) (b : batch) : State :=
  let m := add_batch (st_metrics st) (b_read b) (b_loaded b) in
  mkState m (st_events st ++ batch_events (b_offset b) c (b_read b) (b_rows b) m).

Fixpoint batches_events (c : Z) (m : Metrics) (bs : list batch) : list event :=
  match bs with
  | [] => []
  | b :: bs' =>
      let m' := add_batch m (b_read b) (b_loaded b) in
      batch_events (b_offset b) c (b_read b) (b_rows b) m' ++ batches_events c m' bs'
  end.

Fixpoint sumZ (f : batch -> Z) (bs : list batch) : Z :=
  match bs with
  | [] => 0
  | b :: bs' => f b + sumZ f bs'
  end.

(** Every progress line comes right after the commit of a batch that was
    read non-empty. *)
Definition progress_after_commit (evs : list event) : Prop :=
  forall pre line post,
    evs = pre ++ EPrint line :: post ->
    exists pre' off len h copies,
      pre = pre' ++ ECollect off len h :: copies ++ [ECommit]
      /\ h <> 0
      /\ (copies = [] \/ exists sql data, copies = [ECopy sql data]).

(** Nothing is printed once an empty slice was read. *)
Definition quiet_after_empty_slice (evs : list event) : Prop :=
  forall pre off len post,
    evs = pre ++ ECollect off len 0 :: post ->
    forallb (fun ev => negb (is_print ev)) post = true.

(** The fuel that is enough for a run: one turn per record of the source
    and one more. *)
Definition enough_fuel env (input_path : pystr) : nat :=
  match scan_input_file env input_path with
  | Ok lazy_frame => S (length (rows lazy_frame))
  | Raise _ => O
  end.

(** The counters after each batch, as the progress lines show them. *)
Fixpoint snapshots (m : Metrics) (bs : list batch) : list Metrics :=
  match bs with
  | [] => []
  | b :: bs' =>
      let m' := add_batch m (b_read b) (b_loaded b) in
      m' :: snapshots m' bs'
  end.

Definition metrics_le (m1 m2 : Metrics) : Prop :=
  rows_read m1 <= rows_read m2
  /\ rows_loaded m1 <= rows_loaded m2
  /\ rows_rejected m1 <= rows_rejected m2.

Definition metrics_sound (m : Metrics) : Prop :=
  0 <= rows_loaded m <= rows_read m /\ 0 <= rows_rejected m.

Fixpoint nondecreasing (m : Metrics) (ms : list Metrics) : Prop :=
  match ms with
  | [] => True
  | m' :: ms' => metrics_le m m' /\ nondecreasing m' ms'
  end.

(** ** What a reader of the CSV format reads

    Fields are separated by commas and records end with a line feed, a
    carriage return before it being part of the terminator; between double
    quotes every character belongs to the field, a doubled quote standing
    for one. *)

Inductive csv_mode : Type := Plain | Quoted | QuoteSeen.

Fixpoint csv_parse (mode : csv_mode) (field : pystr) (fields : list pystr)
    (records : list (list pystr)) (input : pystr) : list (list pystr) :=
  match input with
  | [] =>
      match mode, field, fields with
      | Plain, [], [] => records
      | _, _, _ => records ++ [fields ++ [field]]
      end
  | c :: rest =>
      match mode with
      | Quoted =>
          if c =? 34 then csv_parse QuoteSeen field fields records rest
          else csv_parse Quoted (field ++ [c]) fields records rest
      | _ =>
          if c =? 34 then
            match mode with
            | QuoteSeen => csv_parse Quoted (field ++ [34]) fields records rest
            | _ => csv_parse Quoted field fields records rest
            end
          else if c =? 44 then csv_parse Plain [] (fields ++ [field]) records rest
          else if c =? 13 then csv_parse mode field fields records rest
          else if c =? 10 then csv_parse Plain [] [] (records ++ [fields ++ [field]]) rest
          else csv_parse Plain (field ++ [c]) fields records rest
      end
  end.

Definition csv_read (data : pystr) : list (list pystr) :=
  csv_parse Plain [] [] [] data.

(** ** What the store holds after the events of a run: a COPY is pending
    until the next commit, and a rollback drops what is pending *)

Fixpoint replay (evs : list event) (pending stored : list pystr) : list pystr :=
  match evs with
  | [] => stored
  | ECopy _ data :: evs' => replay evs' (pending ++ [data]) stored
  | ECommit :: evs' => replay evs' [] (stored ++ pending)
  | ERollback :: evs' => replay evs' [] stored
  | _ :: evs' => replay evs' pending stored
  end.

Definition stored_data (evs : list event) : list pystr := replay evs [] [].

(** The data that a batch copies. *)
Definition batch_data (b : batch) : list pystr :=
  match b_rows b with
  | [] => []
  | rs => [writerows rs]
  end.

Definition is_commit (e : event) : bool :=
  match e with ECommit => true | _ => false end.

(** A server that refuses every COPY that comes after a commit. *)
Definition refusing_env : Env :=
  mkEnv Sample.cast Sample.cast_ok Sample.strptime
        (fun _ => Sample.frame) (fun _ => Sample.frame)
        (fun _ => true)
        (fun evs _ _ => negb (existsb is_commit evs))
        (fun _ => true).

(** The file of a path, when there is one file only. *)
Definition one_file (path : pystr) (content : list Z) (p : pystr) : option (list Z) :=
  if pystr_eqb p path then Some content else None.

(** A character that is printable ASCII. *)
Definition printable (c : Z) : bool := (32 <=? c) && (c <=? 126).

(** A string that does not hold the separator of the canonical string. *)
Definition separator_free (s : pystr) : bool := negb (existsb (fun c => c =? 124) s).

(** The file name [stem.ext] in a directory. *)
Definition file_in (dir stem ext : pystr) : pystr := dir ++ [47] ++ stem ++ ext.

(** * Properties *)

(** ** The embedded SHA-256 on the test vectors of the standard *)

Example sha256_abc :
  SHA256.hexdigest (lit "abc")
  = lit "ba7816bf8f01cfea414140de5dae2223b00361a396177a9cb410ff61f20015ad".
Proof. vm_compute. reflexivity. Qed.

Example sha256_empty :
  SHA256.hexdigest []
  = lit "e3b0c44298fc1c149afbf4c8996fb92427ae41e4649b934ca495991b7852b855".
Proof. vm_compute. reflexivity. Qed.

Example sha256_two_blocks :
  SHA256.hexdigest (lit "abcdbcdecdefdefgefghfghighijhijkijkljklmklmnlmnomnopnopq")
  = lit "248d6a61d20638b8e5c026930c3e6039a33ce45964ff2167f6ecedd419db06c1".
Proof. vm_compute. reflexivity. Qed.

(** ** Results and lists *)

Lemma rbind_Ok {A B} (r : result A) (k : A -> result B) (b : B) :
  rbind r k = Ok b -> exists a, r = Ok a /\ k a = Ok b.
Proof. destruct r as [a | e]; simpl; intros H; [eauto | discriminate]. Qed.

Lemma mapM_length {A B} (f : A -> result B) (l : list A) (bs : list B) :
  mapM f l = Ok bs -> length bs = length l.
Proof.
  revert bs; induction l as [| a l IH]; simpl; intros bs H.
  - now inversion H.
  - apply rbind_Ok in H as (b & _ & H).
    apply rbind_Ok in H as (bs' & Hbs & H).
    inversion H; subst; simpl; f_equal; auto.
Qed.

Lemma flat_map_length_const {A B} (f : A -> list B) (k : nat) (l : list A) :
  (forall a, length (f a) = k) -> length (flat_map f l) = (length l * k)%nat.
Proof.
  intros Hf; induction l as [| a l IH]; simpl; [reflexivity |].
  rewrite length_app, Hf, IH; reflexivity.
Qed.

Lemma Forall_flat_map {A B} (P : B -> Prop) (f : A -> list B) (l : list A) :
  (forall a, In a l -> Forall P (f a)) -> Forall P (flat_map f l).
Proof.
  induction l as [| a l IH]; simpl; intros H; [constructor |].
  apply Forall_app; split; auto.
Qed.

(** ** The digest is 32 bytes, rendered as 64 lowercase hexadecimal digits *)

Module SHA256Facts.
Import SHA256.

Lemma be_bytes_length n x : length (be_bytes n x) = n.
Proof. induction n; simpl; auto. Qed.

Lemma be_bytes_range n x : Forall (fun b => 0 <= b < 256) (be_bytes n x).
Proof.
  induction n; simpl; constructor; auto.
  apply Z.mod_pos_bound; lia.
Qed.

Lemma round_length s kw : length s = 8%nat -> length (round s kw) = 8%nat.
Proof.
  intros H.
  do 9 (destruct s as [| ? s]; try discriminate H).
  reflexivity.
Qed.

Lemma rounds_length kws : forall s,
  length s = 8%nat -> length (fold_left round kws s) = 8%nat.
Proof.
  induction kws as [| kw kws IH]; simpl; intros s H; auto using round_length.
Qed.

Lemma add_words_length xs : forall ys,
  length (add_words xs ys) = Nat.min (length xs) (length ys).
Proof.
  induction xs as [| x xs IH]; intros [| y ys]; simpl; auto.
Qed.

Lemma compress_length h block : length h = 8%nat -> length (compress h block) = 8%nat.
Proof.
  intros H. unfold compress.
  rewrite add_words_length, rounds_length, H; auto.
Qed.

Lemma compress_all_length bs : forall h,
  length h = 8%nat -> length (fold_left compress bs h) = 8%nat.
Proof.
  induction bs as [| b bs IH]; simpl; intros h H; auto using compress_length.
Qed.

Lemma digest_length msg : length (digest msg) = 32%nat.
Proof.
  unfold digest.
  rewrite flat_map_length_const with (k := 4%nat) by (intros; apply be_bytes_length).
  rewrite compress_all_length; reflexivity.
Qed.

Lemma digest_bytes msg : Forall (fun b => 0 <= b < 256) (digest msg).
Proof.
  unfold digest. apply Forall_flat_map. intros; apply be_bytes_range.
Qed.

Lemma hexdigit_lower n : 0 <= n < 16 -> is_lower_hex (hexdigit n) = true.
Proof.
  intros H. unfold hexdigit, is_lower_hex.
  destruct (n <? 10) eqn:E; [apply Z.ltb_lt in E | apply Z.ltb_ge in E].
  - apply orb_true_iff; left. apply andb_true_iff; split; apply Z.leb_le; lia.
  - apply orb_true_iff; right. apply andb_true_iff; split; apply Z.leb_le; lia.
Qed.

Lemma hexdigest_length msg : length (hexdigest msg) = 64%nat.
Proof.
  unfold hexdigest.
  rewrite flat_map_length_const with (k := 2%nat) by reflexivity.
  rewrite digest_length; reflexivity.
Qed.

Lemma hexdigest_lower msg : Forall (fun c => is_lower_hex c = true) (hexdigest msg).
Proof.
  unfold hexdigest. apply Forall_flat_map. intros b Hb.
  pose proof (digest_bytes msg) as Hr.
  rewrite Forall_forall in Hr. specialize (Hr b Hb).
  repeat constructor; apply hexdigit_lower.
  - split; [apply Z.div_pos; lia | apply Z.div_lt_upper_bound; lia].
  - apply Z.mod_pos_bound; lia.
Qed.

End SHA256Facts.

(** ** strip removes the surrounding whitespace and nothing else *)

Lemma lstrip_spec s :
  exists l, s = l ++ lstrip s /\ Forall (fun c => isspace c = true) l
            /\ (forall c t, lstrip s = c :: t -> isspace c = false).
Proof.
  induction s as [| c s (l & Hs & Hl & Hh)]; simpl.
  - exists []; repeat split; auto; discriminate.
  - destruct (isspace c) eqn:E.
    + exists (c :: l); repeat split; auto. simpl; congruence.
    + exists []; repeat split; auto. intros c' t H; inversion H; subst; auto.
Qed.

Lemma strip_spec s :
  exists l r,
    s = l ++ strip s ++ r
    /\ Forall (fun c => isspace c = true) l
    /\ Forall (fun c => isspace c = true) r
    /\ (forall c t, strip s = c :: t -> isspace c = false)
    /\ (forall t c, strip s = t ++ [c] -> isspace c = false).
Proof.
  destruct (lstrip_spec s) as (l & Hs & Hl & Hhead).
  destruct (lstrip_spec (rev (lstrip s))) as (r & Hr & Hrs & Hlast).
  exists l, (rev r). unfold strip, rstrip.
  assert (Hmid : lstrip s = rev (lstrip (rev (lstrip s))) ++ rev r).
  { rewrite <- rev_app_distr, <- Hr, rev_involutive; reflexivity. }
  repeat split.
  - rewrite <- Hmid; exact Hs.
  - exact Hl.
  - apply Forall_rev; exact Hrs.
  - intros c t H.
    destruct (lstrip (rev (lstrip s))) as [| x u] eqn:E; [discriminate H |].
    specialize (Hlast x u eq_refl).
    rewrite H in Hmid. simpl in Hmid.
    apply (Hhead c (t ++ rev r)). exact Hmid.
  - intros t c H.
    apply (f_equal (@rev Z)) in H.
    rewrite rev_involutive, rev_app_distr in H. simpl in H.
    eapply Hlast; exact H.
Qed.

(** ** encode("utf-8") succeeds on Unicode scalar values and only there *)

Lemma encode_char_scalar c :
  scalar_value c = true -> exists bs, encode_char c = Ok bs.
Proof.
  unfold scalar_value, encode_char. intros H.
  apply andb_true_iff in H as [H Hs]. apply andb_true_iff in H as [H0 H1].
  apply Z.leb_le in H0.
  destruct (c <? 0) eqn:E0; [apply Z.ltb_lt in E0; lia |].
  destruct (c <? 128); [eauto |].
  destruct (c <? 2048); [eauto |].
  destruct (c <? 65536).
  - apply negb_true_iff in Hs. rewrite Hs. eauto.
  - rewrite H1. eauto.
Qed.

Lemma encode_utf8_scalar s :
  forallb scalar_value s = true -> exists bs, encode_utf8 s = Ok bs.
Proof.
  unfold encode_utf8. intros H.
  assert (exists bss, mapM encode_char s = Ok bss) as (bss & Hb).
  { induction s as [| c s IH]; simpl in *; [eauto |].
    apply andb_true_iff in H as [Hc Hs].
    destruct (encode_char_scalar c Hc) as (b & ->).
    destruct (IH Hs) as (bss & ->). simpl. eauto. }
  rewrite Hb. simpl. eauto.
Qed.

(** ** Hasher *)

Lemma normalize_value_cases v :
  match v with
  | VNone => normalize_value v = []
  | VDatetime d => normalize_value v = isoformat d
  | _ => normalize_value v = strip (str v)
  end.
Proof. destruct v; reflexivity. Qed.

Lemma sha256_from_values_Ok values digest :
  sha256_from_values values = Ok digest ->
  exists bytes,
    encode_utf8 (canonical_string values) = Ok bytes
    /\ digest = SHA256.hexdigest bytes.
Proof.
  unfold sha256_from_values. intros H.
  apply rbind_Ok in H as (bs & Hbs & H). inversion H; eauto.
Qed.

Lemma sha256_from_values_canonical_eq vs1 vs2 :
  map normalize_value vs1 = map normalize_value vs2 ->
  sha256_from_values vs1 = sha256_from_values vs2.
Proof.
  intros H. unfold sha256_from_values, canonical_string. now rewrite H.
Qed.

Lemma getitem_cell r c v : getitem r c = Ok v -> cell r c = v.
Proof.
  unfold getitem, cell. destruct (lookup r c); intros H; inversion H; reflexivity.
Qed.

Lemma mapM_getitem r cs vs :
  mapM (getitem r) cs = Ok vs -> vs = map (cell r) cs.
Proof.
  revert vs; induction cs as [| c cs IH]; simpl; intros vs H.
  - now inversion H.
  - apply rbind_Ok in H as (v & Hv & H).
    apply rbind_Ok in H as (vs' & Hvs & H).
    inversion H; subst. f_equal; [symmetry; now apply getitem_cell | auto].
Qed.

Lemma business_key_Ok r ss bk :
  business_key r ss = Ok bk -> bk = map (cell r) BUSINESS_KEY_COLUMNS ++ [VStr ss].
Proof.
  unfold business_key. intros H. apply rbind_Ok in H as (k & Hk & H).
  inversion H; subst. f_equal. now apply mapM_getitem.
Qed.

Lemma payload_values_Ok r ss pv :
  payload_values r ss = Ok pv -> pv = map (cell r) SOURCE_COLUMNS ++ [VStr ss].
Proof.
  unfold payload_values. intros H. apply rbind_Ok in H as (k & Hk & H).
  inversion H; subst. f_equal. now apply mapM_getitem.
Qed.

(** What a row made by [build_copy_row] holds. *)
Lemma build_copy_row_Ok pid sh ss r row :
  build_copy_row pid sh ss r = Ok row ->
  exists tid ph,
    sha256_from_values (map (cell r) BUSINESS_KEY_COLUMNS ++ [VStr ss]) = Ok tid
    /\ sha256_from_values (map (cell r) SOURCE_COLUMNS ++ [VStr ss]) = Ok ph
    /\ row = [VStr pid; VStr sh; VStr ss; VStr tid; VStr ph]
             ++ map (cell r) SOURCE_COLUMNS.
Proof.
  unfold build_copy_row. intros H.
  apply rbind_Ok in H as (bk & Hbk & H).
  apply rbind_Ok in H as (pv & Hpv & H).
  apply rbind_Ok in H as (tid & Htid & H).
  apply rbind_Ok in H as (ph & Hph & H).
  apply rbind_Ok in H as (fields & Hf & H).
  apply business_key_Ok in Hbk. apply payload_values_Ok in Hpv.
  apply mapM_getitem in Hf. subst bk pv fields.
  exists tid, ph. repeat split; auto. now inversion H.
Qed.

(** C3: every value is canonicalized (an absent value to the empty string,
    a timestamp to its ISO-8601 text, any other value to its string form
    stripped of the surrounding whitespace), the canonical strings are
    joined with the separator [|], and the digest returned is the SHA-256
    of the UTF-8 bytes of that string: 32 bytes, written as 64 lowercase
    hexadecimal digits.  A digest is returned whenever the canonical string
    holds Unicode scalar values only.  Both digests of a staged row, the
    business-key digest and the payload digest, are computed this way. *)
Theorem sha256_from_values_canonical (values : list value) :
  normalize_value VNone = []
  /\ (forall d, normalize_value (VDatetime d) = isoformat d)
  /\ (forall v, v <> VNone -> (forall d, v <> VDatetime d) ->
        normalize_value v = strip (str v)
        /\ exists l r,
             str v = l ++ normalize_value v ++ r
             /\ Forall (fun c => isspace c = true) l
             /\ Forall (fun c => isspace c = true) r
             /\ (forall c t, normalize_value v = c :: t -> isspace c = false)
             /\ (forall t c, normalize_value v = t ++ [c] -> isspace c = false))
  /\ (forall digest, sha256_from_values values = Ok digest ->
        exists bytes,
          encode_utf8 (join (lit "|") (map normalize_value values)) = Ok bytes
          /\ digest = SHA256.hexdigest bytes
          /\ length (SHA256.digest bytes) = 32%nat
          /\ Forall (fun b => 0 <= b < 256) (SHA256.digest bytes)
          /\ length digest = 64%nat
          /\ Forall (fun c => is_lower_hex c = true) digest)
  /\ (forallb scalar_value (join (lit "|") (map normalize_value values)) = true ->
        exists digest, sha256_from_values values = Ok digest)
  /\ (forall pid sh ss r row,
        build_copy_row pid sh ss r = Ok row ->
        exists transaction_id payload_hash,
          sha256_from_values (map (cell r) BUSINESS_KEY_COLUMNS ++ [VStr ss])
          = Ok transaction_id
          /\ sha256_from_values (map (cell r) SOURCE_COLUMNS ++ [VStr ss])
             = Ok payload_hash
          /\ nth 3 row VNone = VStr transaction_id
          /\ nth 4 row VNone = VStr payload_hash).
Proof.
  split; [reflexivity |].
  split; [reflexivity |].
  split.
  { intros v Hnone Hdt.
    assert (Hn : normalize_value v = strip (str v)).
    { destruct v; try reflexivity; [congruence | exfalso; eapply Hdt; eauto]. }
    split; [exact Hn |].
    rewrite Hn. exact (strip_spec (str v)). }
  split.
  { intros digest H.
    apply sha256_from_values_Ok in H as (bytes & Hb & ->).
    exists bytes. split; [exact Hb |]. split; [reflexivity |].
    split; [apply SHA256Facts.digest_length |].
    split; [apply SHA256Facts.digest_bytes |].
    split; [apply SHA256Facts.hexdigest_length | apply SHA256Facts.hexdigest_lower]. }
  split.
  { intros H.
    destruct (encode_utf8_scalar _ H) as (bs & Hbs).
    exists (SHA256.hexdigest bs).
    unfold sha256_from_values, canonical_string, SEPARATOR. rewrite Hbs. reflexivity. }
  intros pid sh ss r row H.
  apply build_copy_row_Ok in H as (tid & ph & Ht & Hp & ->).
  exists tid, ph. auto.
Qed.

Lemma sha256_from_values_canonical_witness :
  exists digest,
    sha256_from_values [VNone; VStr (lit "  ACCT-1 "); VInt 42] = Ok digest
    /\ length digest = 64%nat.
Proof.
  destruct (sha256_from_values_canonical [VNone; VStr (lit "  ACCT-1 "); VInt 42])
    as (_ & _ & _ & Hd & Hex & _).
  destruct Hex as (digest & H); [vm_compute; reflexivity |].
  exists digest. split; [exact H |].
  destruct (Hd digest H) as (bytes & _ & _ & _ & _ & Hlen & _). exact Hlen.
Defined.

(** C4: the business-key digest of a staged row (its fourth entry) is the
    digest of six values: the cells of the fund code, the account number,
    the holder identifier, the address code and the constitution date, and
    the source-system tag.  Two records with the same six canonicalized
    values get the same digest, whatever their other fields, process
    identifiers and file digests are. *)
Theorem business_key_digest_pure
    (pid1 sh1 ss1 pid2 sh2 ss2 : pystr) (r1 r2 : record) (row1 row2 : list value) :
  build_copy_row pid1 sh1 ss1 r1 = Ok row1 ->
  build_copy_row pid2 sh2 ss2 r2 = Ok row2 ->
  map normalize_value (map (cell r1) BUSINESS_KEY_COLUMNS ++ [VStr ss1])
  = map normalize_value (map (cell r2) BUSINESS_KEY_COLUMNS ++ [VStr ss2]) ->
  exists digest,
    sha256_from_values
      [cell r1 "CodFondo"; cell r1 "NumeroCuentaInversion"; cell r1 "Identificacion";
       cell r1 "CodDireccion"; cell r1 "FechaConstitucion"; VStr ss1] = Ok digest
    /\ nth 3 row1 VNone = VStr digest
    /\ nth 3 row2 VNone = VStr digest.
Proof.
  intros H1 H2 Heq.
  apply build_copy_row_Ok in H1 as (tid1 & ph1 & Ht1 & _ & ->).
  apply build_copy_row_Ok in H2 as (tid2 & ph2 & Ht2 & _ & ->).
  rewrite (sha256_from_values_canonical_eq _ _ Heq) in Ht1.
  assert (tid1 = tid2) by congruence. subst tid2.
  exists tid1. split; [| split; reflexivity].
  rewrite <- Ht2. now apply sha256_from_values_canonical_eq.
Qed.

Lemma business_key_digest_pure_witness :
  exists digest,
    sha256_from_values
      [cell key_twin_1 "CodFondo"; cell key_twin_1 "NumeroCuentaInversion";
       cell key_twin_1 "Identificacion"; cell key_twin_1 "CodDireccion";
       cell key_twin_1 "FechaConstitucion"; VStr (lit "ExternalProvider")] = Ok digest
    /\ nth 3 (match build_copy_row (lit "p1") (lit "h1") (lit "ExternalProvider") key_twin_1
              with Ok row => row | Raise _ => [] end) VNone = VStr digest
    /\ nth 3 (match build_copy_row (lit "p2") (lit "h2") (lit "ExternalProvider ") key_twin_2
              with Ok row => row | Raise _ => [] end) VNone = VStr digest.
Proof.
  assert (exists row, build_copy_row (lit "p1") (lit "h1") (lit "ExternalProvider")
                                     key_twin_1 = Ok row) as [row1 E1]
    by (vm_compute; eexists; reflexivity).
  assert (exists row, build_copy_row (lit "p2") (lit "h2") (lit "ExternalProvider ")
                                     key_twin_2 = Ok row) as [row2 E2]
    by (vm_compute; eexists; reflexivity).
  rewrite E1, E2.
  apply (business_key_digest_pure _ _ _ _ _ _ _ _ _ _ E1 E2).
  vm_compute. reflexivity.
Defined.

(** Fields that hold the separator: two records that differ, also after
    canonicalization, and have one payload digest. *)
Lemma payload_digest_collision :
  exists row1 row2,
    build_copy_row (lit "p") (lit "h") (lit "ExternalProvider") collide_1 = Ok row1
    /\ build_copy_row (lit "p") (lit "h") (lit "ExternalProvider") collide_2 = Ok row2
    /\ cell collide_1 "CodClase" <> cell collide_2 "CodClase"
    /\ normalize_value (cell collide_1 "CodClase")
       <> normalize_value (cell collide_2 "CodClase")
    /\ nth 4 row1 VNone = nth 4 row2 VNone.
Proof.
  exists (match build_copy_row (lit "p") (lit "h") (lit "ExternalProvider") collide_1
          with Ok row => row | Raise _ => [] end),
         (match build_copy_row (lit "p") (lit "h") (lit "ExternalProvider") collide_2
          with Ok row => row | Raise _ => [] end).
  repeat split; vm_compute; try reflexivity; discriminate.
Qed.

(** Fields that differ and that canonicalization makes equal: the
    payload digests are the same, with no separator in any value. *)
Lemma payload_digest_blind :
  exists row1 row2 row3 row4,
    build_copy_row (lit "p") (lit "h") (lit "ExternalProvider") spaced_1 = Ok row1
    /\ build_copy_row (lit "p") (lit "h") (lit "ExternalProvider") spaced_2 = Ok row2
    /\ cell spaced_1 "CanalApertura" <> cell spaced_2 "CanalApertura"
    /\ nth 4 row1 VNone = nth 4 row2 VNone
    /\ build_copy_row (lit "p") (lit "h") (lit "ExternalProvider") absent_1 = Ok row3
    /\ build_copy_row (lit "p") (lit "h") (lit "ExternalProvider") absent_2 = Ok row4
    /\ cell absent_1 "Referido" <> cell absent_2 "Referido"
    /\ nth 4 row3 VNone = nth 4 row4 VNone
    /\ forallb separator_free
               (payload_forms spaced_1 (lit "ExternalProvider")
                ++ payload_forms spaced_2 (lit "ExternalProvider")
                ++ payload_forms absent_2 (lit "ExternalProvider")) = true.
Proof.
  exists (match build_copy_row (lit "p") (lit "h") (lit "ExternalProvider") spaced_1
          with Ok row => row | Raise _ => [] end),
         (match build_copy_row (lit "p") (lit "h") (lit "ExternalProvider") spaced_2
          with Ok row => row | Raise _ => [] end),
         (match build_copy_row (lit "p") (lit "h") (lit "ExternalProvider") absent_1
          with Ok row => row | Raise _ => [] end),
         (match build_copy_row (lit "p") (lit "h") (lit "ExternalProvider") absent_2
          with Ok row => row | Raise _ => [] end).
  repeat split; vm_compute; try reflexivity; discriminate.
Qed.

Lemma split_at_separator a : forall b r1 r2,
  separator_free a = true -> separator_free b = true ->
  a ++ 124 :: r1 = b ++ 124 :: r2 -> a = b /\ r1 = r2.
Proof.
  unfold separator_free.
  induction a as [| x a IH]; intros [| y b] r1 r2 Ha Hb E; simpl in *.
  - inversion E. auto.
  - inversion E; subst. rewrite Z.eqb_refl in Hb. discriminate.
  - inversion E; subst. rewrite Z.eqb_refl in Ha. discriminate.
  - inversion E; subst.
    apply negb_true_iff, orb_false_iff in Ha as [_ Ha].
    apply negb_true_iff, orb_false_iff in Hb as [_ Hb].
    destruct (IH b r1 r2) as [-> ->]; auto; now apply negb_true_iff.
Qed.

Lemma join_separator_free l1 : forall l2,
  length l1 = length l2 ->
  Forall (fun s => separator_free s = true) l1 ->
  Forall (fun s => separator_free s = true) l2 ->
  join [124] l1 = join [124] l2 -> l1 = l2.
Proof.
  induction l1 as [| a l1 IH]; intros [| b l2] Hlen H1 H2 E; try discriminate.
  - reflexivity.
  - apply Forall_inv in H1 as Ha. apply Forall_inv_tail in H1.
    apply Forall_inv in H2 as Hb. apply Forall_inv_tail in H2.
    destruct l1 as [| a' l1], l2 as [| b' l2]; try discriminate.
    + simpl in E. now subst.
    + change (a ++ 124 :: join [124] (a' :: l1) = b ++ 124 :: join [124] (b' :: l2)) in E.
      apply split_at_separator in E as [-> E]; auto.
      f_equal. apply IH; auto.
Qed.

(** C5, as the code has it: the payload digest of a staged row (its fifth
    entry) is the digest of the 22 source fields and the source-system
    tag, 23 values.  It is determined by their canonical string, so equal
    inputs, and inputs with equal canonical forms, give equal digests, and
    two digests differ only if one of the 23 inputs differs.  When no
    canonical form holds the separator, the canonical strings are the same
    exactly when the 23 canonical forms are: a difference in any canonical
    form changes the string that is hashed. *)
Theorem payload_digest_determined
    (pid1 sh1 ss1 pid2 sh2 ss2 : pystr) (r1 r2 : record) (row1 row2 : list value) :
  build_copy_row pid1 sh1 ss1 r1 = Ok row1 ->
  build_copy_row pid2 sh2 ss2 r2 = Ok row2 ->
  let inputs1 := map (cell r1) SOURCE_COLUMNS ++ [VStr ss1] in
  let inputs2 := map (cell r2) SOURCE_COLUMNS ++ [VStr ss2] in
  length inputs1 = 23%nat
  /\ exists d1 d2,
       sha256_from_values inputs1 = Ok d1 /\ nth 4 row1 VNone = VStr d1
       /\ sha256_from_values inputs2 = Ok d2 /\ nth 4 row2 VNone = VStr d2
       /\ (exists bytes1 bytes2,
             encode_utf8 (canonical_string inputs1) = Ok bytes1
             /\ encode_utf8 (canonical_string inputs2) = Ok bytes2
             /\ d1 = SHA256.hexdigest bytes1 /\ d2 = SHA256.hexdigest bytes2)
       /\ (inputs1 = inputs2 -> d1 = d2)
       /\ (map normalize_value inputs1 = map normalize_value inputs2 -> d1 = d2)
       /\ (canonical_string inputs1 = canonical_string inputs2 -> d1 = d2)
       /\ (d1 <> d2 -> inputs1 <> inputs2)
       /\ (d1 <> d2 -> map normalize_value inputs1 <> map normalize_value inputs2)
       /\ (forallb separator_free (payload_forms r1 ss1) = true ->
           forallb separator_free (payload_forms r2 ss2) = true ->
           (canonical_string inputs1 = canonical_string inputs2
            <-> map normalize_value inputs1 = map normalize_value inputs2)
           /\ (forall i,
                 nth i (map normalize_value inputs1) []
                 <> nth i (map normalize_value inputs2) [] ->
                 canonical_string inputs1 <> canonical_string inputs2)).
Proof.
  intros H1 H2 inputs1 inputs2.
  apply build_copy_row_Ok in H1 as (tid1 & ph1 & _ & Hp1 & ->).
  apply build_copy_row_Ok in H2 as (tid2 & ph2 & _ & Hp2 & ->).
  split; [reflexivity |].
  exists ph1, ph2.
  fold inputs1 in Hp1. fold inputs2 in Hp2.
  assert (Hcanon : canonical_string inputs1 = canonical_string inputs2 -> ph1 = ph2).
  { intros Hc. unfold sha256_from_values in Hp1, Hp2.
    rewrite Hc in Hp1. congruence. }
  assert (Hforms : map normalize_value inputs1 = map normalize_value inputs2 ->
                   canonical_string inputs1 = canonical_string inputs2).
  { intros E. unfold canonical_string. now rewrite E. }
  split; [exact Hp1 |]. split; [reflexivity |].
  split; [exact Hp2 |]. split; [reflexivity |].
  split.
  { unfold sha256_from_values in Hp1, Hp2.
    apply rbind_Ok in Hp1 as (b1 & Hb1 & Hd1).
    apply rbind_Ok in Hp2 as (b2 & Hb2 & Hd2).
    exists b1, b2. inversion Hd1. inversion Hd2. auto. }
  split; [intros Heq; apply Hcanon; now rewrite Heq |].
  split; [intros Heq; now apply Hcanon, Hforms |].
  split; [exact Hcanon |].
  split; [intros Hneq Heq; apply Hneq, Hcanon; now rewrite Heq |].
  split; [intros Hneq Heq; now apply Hneq, Hcanon, Hforms |].
  intros Hf1 Hf2.
  assert (Hinj : canonical_string inputs1 = canonical_string inputs2 ->
                 map normalize_value inputs1 = map normalize_value inputs2).
  { intros E. unfold canonical_string, SEPARATOR in E.
    apply join_separator_free; [| | | exact E].
    - now rewrite !length_map.
    - apply Forall_forall. intros x Hx.
      unfold payload_forms in Hf1. rewrite forallb_forall in Hf1. now apply Hf1.
    - apply Forall_forall. intros x Hx.
      unfold payload_forms in Hf2. rewrite forallb_forall in Hf2. now apply Hf2. }
  split; [split; [exact Hinj | exact Hforms] |].
  intros i Hi E. apply Hi. now rewrite (Hinj E).
Qed.

Lemma payload_digest_determined_witness :
  exists d1 d2,
    nth 4 (match build_copy_row (lit "p") (lit "h") (lit "ExternalProvider") spaced_1
           with Ok row => row | Raise _ => [] end) VNone = VStr d1
    /\ nth 4 (match build_copy_row (lit "q") (lit "k") (lit "ExternalProvider") spaced_2
              with Ok row => row | Raise _ => [] end) VNone = VStr d2
    /\ d1 = d2
    /\ canonical_string (map (cell spaced_1) SOURCE_COLUMNS ++ [VStr (lit "ExternalProvider")])
       <> canonical_string (map (cell key_twin_2) SOURCE_COLUMNS
                            ++ [VStr (lit "ExternalProvider")]).
Proof.
  assert (exists row, build_copy_row (lit "p") (lit "h") (lit "ExternalProvider")
                                     spaced_1 = Ok row) as [row1 E1]
    by (vm_compute; eexists; reflexivity).
  assert (exists row, build_copy_row (lit "q") (lit "k") (lit "ExternalProvider")
                                     spaced_2 = Ok row) as [row2 E2]
    by (vm_compute; eexists; reflexivity).
  assert (exists row, build_copy_row (lit "q") (lit "k") (lit "ExternalProvider")
                                     key_twin_2 = Ok row) as [row3 E3]
    by (vm_compute; eexists; reflexivity).
  rewrite E1, E2.
  destruct (payload_digest_determined _ _ _ _ _ _ _ _ _ _ E1 E2)
    as (_ & d1 & d2 & _ & Hr1 & _ & Hr2 & _ & _ & Hc & _).
  destruct (payload_digest_determined _ _ _ _ _ _ _ _ _ _ E1 E3)
    as (_ & _ & _ & _ & _ & _ & _ & _ & _ & _ & _ & _ & _ & Hsep).
  exists d1, d2. split; [exact Hr1 | split; [exact Hr2 |]].
  split; [apply Hc; vm_compute; reflexivity |].
  destruct Hsep as [_ Hdiff]; [vm_compute; reflexivity .. |].
  apply (Hdiff 7%nat). vm_compute. discriminate.
Defined.

(** ** Bulk loader *)

Lemma COPY_COLUMNS_layout :
  COPY_COLUMNS = LINEAGE_COLUMNS ++ map snake_case SOURCE_COLUMNS.
Proof. reflexivity. Qed.

Lemma ROW_COLUMNS_are_SOURCE_COLUMNS : ROW_COLUMNS = SOURCE_COLUMNS.
Proof. reflexivity. Qed.

Lemma join_two_nonempty sep a b l : sep <> [] -> join sep (a :: b :: l) <> [].
Proof.
  intros Hsep H. simpl in H.
  apply app_eq_nil in H as [_ H]. apply app_eq_nil in H as [H _]. contradiction.
Qed.

Lemma writerow_several a b l :
  writerow (a :: b :: l) = join [44] (map csv_field (a :: b :: l)) ++ [13; 10].
Proof.
  unfold writerow.
  destruct (join [44] (map csv_field (a :: b :: l))) eqn:E; [| reflexivity].
  exfalso. revert E. simpl map. apply join_two_nonempty. discriminate.
Qed.

(** C8: with no rows [copy_to_staging] changes nothing; with rows it makes
    one COPY, whose statement names the 27 staging columns in order and
    whose data is one CSV line per row, in order; a row holds the process
    id, the file digest, the source-system tag, the two digests and then
    the 22 fields in the order of the columns. *)
Theorem copy_to_staging_single_copy (env : Env) (st : State) :
  copy_to_staging env [] st = (Ok tt, st)
  /\ (forall rs, rs <> [] ->
        (copy_ok env (st_events st) copy_sql (writerows rs) = true ->
         copy_to_staging env rs st
         = (Ok tt, mkState (st_metrics st)
                           (st_events st ++ [ECopy copy_sql (writerows rs)])))
        /\ (copy_ok env (st_events st) copy_sql (writerows rs) = false ->
            copy_to_staging env rs st = (Raise DatabaseError, st))
        /\ writerows rs = concat (map writerow rs))
  /\ copy_sql
     = [10] ++ lit "        COPY staging_transactions ("
       ++ join (lit ", ") (map lit (LINEAGE_COLUMNS ++ map snake_case SOURCE_COLUMNS))
       ++ lit ")" ++ [10] ++ lit "        FROM STDIN WITH (FORMAT CSV)"
       ++ [10] ++ lit "    "
  /\ (forall pid sh ss r row,
        build_copy_row pid sh ss r = Ok row ->
        exists tid ph,
          row = [VStr pid; VStr sh; VStr ss; VStr tid; VStr ph]
                ++ map (cell r) SOURCE_COLUMNS
          /\ length row = length COPY_COLUMNS
          /\ writerow row = join [44] (map csv_field row) ++ [13; 10]).
Proof.
  split; [reflexivity |].
  split.
  { intros rs Hrs.
    destruct rs as [| r rs]; [contradiction |].
    unfold copy_to_staging, cursor_copy.
    repeat split.
    - intros ->. reflexivity.
    - intros ->. reflexivity.
    - unfold writerows. now rewrite flat_map_concat_map. }
  split; [reflexivity |].
  intros pid sh ss r row H.
  apply build_copy_row_Ok in H as (tid & ph & _ & _ & ->).
  exists tid, ph. split; [reflexivity |]. split; [reflexivity |].
  apply writerow_several.
Qed.

Lemma copy_to_staging_single_copy_witness :
  copy_to_staging Sample.env [[VStr (lit "p"); VNone; VInt 7]] (mkState (mkMetrics 0 0 0) [])
  = (Ok tt, mkState (mkMetrics 0 0 0) [ECopy copy_sql (lit "p,,7" ++ [13; 10])]).
Proof.
  destruct (copy_to_staging_single_copy Sample.env (mkState (mkMetrics 0 0 0) []))
    as (_ & H & _).
  destruct (H [[VStr (lit "p"); VNone; VInt 7]]) as (Hok & _ & _); [discriminate |].
  rewrite Hok; reflexivity.
Defined.

(** ** Source reader *)

Lemma pystr_eqb_false s t : s <> t -> pystr_eqb s t = false.
Proof.
  unfold pystr_eqb. destruct (list_eq_dec Z.eq_dec s t); [contradiction | reflexivity].
Qed.

Lemma pystr_eqb_true s t : pystr_eqb s t = true -> s = t.
Proof.
  unfold pystr_eqb. destruct (list_eq_dec Z.eq_dec s t); [auto | discriminate].
Qed.

(** C6: a path whose extension, lowered, is neither [.parquet] nor [.csv]
    makes [scan_input_file] raise, and the run ends there: nothing was
    connected to, no batch was read, and the counters are all zero.  The
    exception the code raises for an unsupported format is a [ValueError]. *)
Theorem run_etl_unsupported_format (env : Env) (fuel : nat)
    (input_path process_id source_hash source_system connection_string : pystr)
    (chunk_size : Z) :
  lower (suffix input_path) <> lit ".parquet" ->
  lower (suffix input_path) <> lit ".csv" ->
  scan_input_file env input_path = Raise ValueError
  /\ run_etl env fuel input_path process_id source_hash source_system
             connection_string chunk_size
     = Some (Raise ValueError, mkState (mkMetrics 0 0 0) []).
Proof.
  intros Hp Hc.
  assert (Hscan : scan_input_file env input_path = Raise ValueError).
  { unfold scan_input_file.
    rewrite (pystr_eqb_false _ _ Hp), (pystr_eqb_false _ _ Hc). reflexivity. }
  split; [exact Hscan |].
  unfold run_etl. rewrite Hscan. reflexivity.
Qed.

Lemma run_etl_unsupported_format_witness :
  run_etl Sample.env 5 (lit "data/transactions.txt") (lit "p1") (lit "h")
          (lit "ExternalProvider") (lit "host=db") 200000
  = Some (Raise ValueError, mkState (mkMetrics 0 0 0) []).
Proof.
  apply (run_etl_unsupported_format Sample.env 5 (lit "data/transactions.txt")).
  - vm_compute. discriminate.
  - vm_compute. discriminate.
Defined.

(** Conversely the two extensions are accepted, in any letter case. *)
Lemma scan_input_file_accepts env input_path :
  lower (suffix input_path) = lit ".parquet" \/ lower (suffix input_path) = lit ".csv" ->
  exists lazy_frame, scan_input_file env input_path = Ok lazy_frame.
Proof.
  unfold scan_input_file. intros [-> | ->]; simpl; eauto.
Qed.

(** ** Transformer *)

(** *** Cells of rewritten rows *)

Lemma lookup_project (r : record) (names : list string) (c : string) :
  lookup (map (fun k => (k, cell r k)) names) c
  = if existsb (String.eqb c) names then Some (cell r c) else None.
Proof.
  induction names as [| k names IH]; simpl; [reflexivity |].
  rewrite (String.eqb_sym c k).
  destruct (String.eqb k c) eqn:E; simpl; [| exact IH].
  apply String.eqb_eq in E. now subst.
Qed.

Lemma lookup_cast_record env casts (r : record) (c : string) :
  lookup (cast_record env casts r) c
  = option_map (cast_cell env casts c) (lookup r c).
Proof.
  induction r as [| [k v] r IH]; simpl; [reflexivity |].
  destruct (String.eqb k c) eqn:E; [| exact IH].
  apply String.eqb_eq in E. now subst.
Qed.

Lemma lookup_set_cell_other (c c' : string) (v : value) (r : record) :
  c' <> c -> lookup (set_cell c v r) c' = lookup r c'.
Proof.
  intros Hne. induction r as [| [k x] r IH]; simpl; [reflexivity |].
  destruct (String.eqb k c) eqn:E; simpl.
  - apply String.eqb_eq in E. subst k.
    destruct (String.eqb c c') eqn:E'; [| exact IH].
    apply String.eqb_eq in E'. congruence.
  - now rewrite IH.
Qed.

Lemma cell_set_cell_same (c : string) (v : value) (r : record) :
  cell (set_cell c v r) c = match lookup r c with Some _ => v | None => VNone end.
Proof.
  unfold cell. induction r as [| [k x] r IH]; simpl; [reflexivity |].
  destruct (String.eqb k c) eqn:E; simpl; rewrite E; [reflexivity | exact IH].
Qed.

Lemma existsb_eqb_In (c : string) (cs : list string) :
  existsb (String.eqb c) cs = true <-> In c cs.
Proof.
  rewrite existsb_exists. split.
  - intros (x & Hx & E). apply String.eqb_eq in E. now subst.
  - intros H. exists c. split; [exact H | apply String.eqb_refl].
Qed.

(** *** The first statement of [transform_chunk] *)

Lemma filter_filter {A} (f g : A -> bool) (l : list A) :
  filter f (filter g l) = filter (fun a => g a && f a) l.
Proof.
  induction l as [| a l IH]; simpl; [reflexivity |].
  destruct (g a); simpl; [destruct (f a) |]; now rewrite IH.
Qed.

Lemma transform_casts_cases env (df : DataFrame) :
  has_columns df SOURCE_COLUMNS = true ->
  transform_casts env df
  = if castable env df
    then Ok (mkFrame SOURCE_COLUMNS (map (casted env) (filter (retained env) (rows df))))
    else Raise InvalidOperationError.
Proof.
  intros Hc. unfold transform_casts, select. rewrite Hc. cbn [rbind].
  unfold drop_nulls at 1.
  replace (has_columns _ CRITICAL_COLUMNS) with true by reflexivity.
  cbn [rbind]. unfold with_columns_cast.
  replace (has_columns _ (map fst CASTS)) with true by reflexivity.
  unfold column. cbn [columns rows].
  change (map (fun r => map (fun c => (c, cell r c)) SOURCE_COLUMNS) (rows df))
    with (map project (rows df)).
  change (forallb _ CASTS) with (castable env df).
  destruct (castable env df); [| reflexivity].
  cbn [rbind]. unfold drop_nulls.
  replace (has_columns _ CRITICAL_COLUMNS) with true by reflexivity.
  f_equal. f_equal. cbn [columns rows].
  rewrite (filter_map_swap _ project), map_map.
  rewrite filter_map_swap, filter_filter. reflexivity.
Qed.

Lemma transform_casts_Ok env (df : DataFrame) :
  has_columns df SOURCE_COLUMNS = true ->
  castable env df = true ->
  transform_casts env df
  = Ok (mkFrame SOURCE_COLUMNS (map (casted env) (filter (retained env) (rows df)))).
Proof.
  intros Hc Hok. now rewrite transform_casts_cases, Hok.
Qed.

Lemma transform_casts_missing env (df : DataFrame) :
  has_columns df SOURCE_COLUMNS = false ->
  transform_casts env df = Raise ColumnNotFoundError.
Proof.
  intros Hc. unfold transform_casts, select. now rewrite Hc.
Qed.



Lemma transform_casts_Ok_inv env (df mid : DataFrame) :
  transform_casts env df = Ok mid ->
  has_columns df SOURCE_COLUMNS = true
  /\ castable env df = true
  /\ mid = mkFrame SOURCE_COLUMNS (map (casted env) (filter (retained env) (rows df))).
Proof.
  intros H. destruct (has_columns df SOURCE_COLUMNS) eqn:Hc.
  - rewrite transform_casts_cases in H by exact Hc.
    destruct (castable env df); [| discriminate].
    inversion H; subst. auto.
  - rewrite transform_casts_missing in H by exact Hc. discriminate.
Qed.


(** *** The loop over the date columns *)

Lemma dates_only_refl r : dates_only r r.
Proof. split; auto. Qed.

Lemma dates_only_trans r s t : dates_only r s -> dates_only s t -> dates_only r t.
Proof.
  intros [H1 N1] [H2 N2]. split.
  - intros c Hc. now rewrite H2, H1.
  - auto.
Qed.

Lemma dates_only_set_cell c v r :
  In c DATE_COLUMNS -> (cell r c = VNone -> v = VNone) ->
  dates_only r (set_cell c v r).
Proof.
  intros Hc Hv. split.
  - intros c' Hc'. apply lookup_set_cell_other. intros ->. contradiction.
  - intros c' Hnull. destruct (string_dec c' c) as [-> | Hne].
    + rewrite cell_set_cell_same. destruct (lookup r c); auto.
    + unfold cell in *. now rewrite lookup_set_cell_other.
Qed.

Lemma Forall2_map_combine {A B} (R : A -> A -> Prop) (f : A * B -> A) :
  (forall a b, R a (f (a, b))) ->
  forall (l1 : list A) (l2 : list B),
    length l2 = length l1 -> Forall2 R l1 (map f (combine l1 l2)).
Proof.
  intros Hf. induction l1 as [| a l1 IH]; intros [| b l2] Hlen;
    simpl in *; try discriminate; constructor; auto.
Qed.

Lemma Forall2_trans {A} (R : A -> A -> Prop) :
  (forall a b c, R a b -> R b c -> R a c) ->
  forall l1 l2 l3, Forall2 R l1 l2 -> Forall2 R l2 l3 -> Forall2 R l1 l3.
Proof.
  intros Ht l1 l2 l3 H12. revert l3.
  induction H12; intros l3 H23; inversion H23; subst; constructor; eauto.
Qed.

Lemma Forall2_refl {A} (R : A -> A -> Prop) :
  (forall a, R a a) -> forall l, Forall2 R l l.
Proof. intros Hr. induction l; constructor; auto. Qed.

Lemma parse_date_column_Ok env df c out :
  In c DATE_COLUMNS ->
  parse_date_column env df c = Ok out ->
  columns out = columns df /\ Forall2 dates_only (rows df) (rows out).
Proof.
  intros Hc. unfold parse_date_column.
  destruct (has_column df c); [| discriminate].
  intros H.
  apply rbind_Ok in H as (text & _ & H).
  apply rbind_Ok in H as (parsed & _ & H).
  destruct (Nat.eqb (length parsed) _) eqn:E; [| discriminate].
  apply Nat.eqb_eq in E. rewrite length_map in E.
  inversion H; subst; clear H. cbn [columns rows]. split; [reflexivity |].
  apply Forall2_map_combine; [| exact E].
  intros r p. apply dates_only_set_cell; [exact Hc |].
  cbn [fst snd]. unfold when_null_then_none. now intros ->.
Qed.

Lemma parse_dates_Ok env cs :
  incl cs DATE_COLUMNS ->
  forall df out,
    foldM (parse_date_column env) cs df = Ok out ->
    columns out = columns df /\ Forall2 dates_only (rows df) (rows out).
Proof.
  induction cs as [| c cs IH]; intros Hin df out H; simpl in H.
  - inversion H; subst. split; [reflexivity |].
    apply Forall2_refl, dates_only_refl.
  - apply rbind_Ok in H as (mid & Hmid & H).
    apply parse_date_column_Ok in Hmid as [Hc1 Hr1]; [| apply Hin; now left].
    apply IH in H as [Hc2 Hr2]; [| intros x Hx; apply Hin; now right].
    split; [congruence |].
    eapply Forall2_trans; eauto using dates_only_trans.
Qed.

(** What [transform_chunk] returns: the retained rows, in their order,
    cast, with their date cells parsed. *)
Lemma transform_chunk_Ok env df out :
  transform_chunk env df = Ok out ->
  has_columns df SOURCE_COLUMNS = true
  /\ columns out = SOURCE_COLUMNS
  /\ Forall2 dates_only (map (casted env) (filter (retained env) (rows df))) (rows out).
Proof.
  unfold transform_chunk. intros H.
  apply rbind_Ok in H as (mid & Hmid & H).
  apply transform_casts_Ok_inv in Hmid as (Hc & _ & ->).
  apply parse_dates_Ok in H as [Hcols Hrows]; [| apply incl_refl].
  auto.
Qed.

Lemma cell_casted env r c :
  In c SOURCE_COLUMNS -> cell (casted env r) c = cast_cell env CASTS c (cell r c).
Proof.
  intros Hc. unfold casted, cell at 1.
  rewrite lookup_cast_record. unfold project. rewrite lookup_project.
  apply existsb_eqb_In in Hc. rewrite Hc. reflexivity.
Qed.





(** *** The date cells *)












(** ** Orchestrator *)

(** *** One turn of the loop *)

Ltac run_monad :=
  unfold etl_batch, collect_slice, copy_to_staging, cursor_copy, commit,
    bind, lift, emit, ret, get_metrics, set_metrics in *;
  cbn [st_metrics st_events rows_read rows_loaded rows_rejected] in *.

Lemma etl_batch_Break env lf pid sh ss c off st chunk :
  slice off c lf = Ok chunk -> height chunk = 0 ->
  etl_batch env lf pid sh ss c off st
  = (Ok Break, mkState (st_metrics st) (st_events st ++ [ECollect off c 0])).
Proof.
  intros Hs Hh. run_monad. rewrite Hs, Hh. reflexivity.
Qed.

Lemma etl_batch_Break_inv env lf pid sh ss c off st st' :
  etl_batch env lf pid sh ss c off st = (Ok Break, st') ->
  exists chunk,
    slice off c lf = Ok chunk /\ height chunk = 0
    /\ st' = mkState (st_metrics st) (st_events st ++ [ECollect off c 0]).
Proof.
  run_monad. intros H.
  destruct (slice off c lf) as [chunk | e] eqn:Hs; [| discriminate].
  destruct (height chunk =? 0) eqn:E.
  - apply Z.eqb_eq in E. inversion H; subst. exists chunk. rewrite E. auto.
  - destruct (transform_chunk env chunk) as [t | e]; [| discriminate].
    destruct (build_copy_rows t pid sh ss) as [rs | e]; [| discriminate].
    destruct rs as [| r rs];
      repeat (match type of H with
              | context [if ?b then _ else _] => destruct b
              end; try discriminate).
Qed.

Lemma etl_batch_Continue_inv env lf pid sh ss c off st st' :
  etl_batch env lf pid sh ss c off st = (Ok Continue, st') ->
  exists chunk transformed rs,
    slice off c lf = Ok chunk /\ height chunk <> 0
    /\ transform_chunk env chunk = Ok transformed
    /\ build_copy_rows transformed pid sh ss = Ok rs
    /\ st' = mkState (add_batch (st_metrics st) (height chunk) (Z.of_nat (length rs)))
                     (st_events st
                      ++ batch_events off c (height chunk) rs
                           (add_batch (st_metrics st) (height chunk)
                                      (Z.of_nat (length rs)))).
Proof.
  run_monad. intros H.
  destruct (slice off c lf) as [chunk | e] eqn:Hs; [| discriminate].
  destruct (height chunk =? 0) eqn:E; [discriminate |].
  apply Z.eqb_neq in E.
  destruct (transform_chunk env chunk) as [t | e] eqn:Ht; [| discriminate].
  destruct (build_copy_rows t pid sh ss) as [rs | e] eqn:Hb; [| discriminate].
  exists chunk, t, rs. repeat split; auto.
  destruct rs as [| r rs];
    repeat (match type of H with
            | context [if ?b then _ else _] => destruct b
            end; try discriminate);
    inversion H; subst; clear H; unfold add_batch, batch_events, copy_events;
    cbn [st_metrics st_events rows_read rows_loaded rows_rejected app];
    rewrite <- ?app_assoc; reflexivity.
Qed.

(** A turn that raises leaves no progress line behind. *)
Lemma etl_batch_Raise_inv env lf pid sh ss c off st st' e :
  etl_batch env lf pid sh ss c off st = (Raise e, st') ->
  exists evs, st_events st' = st_events st ++ evs
              /\ forallb (fun ev => negb (is_print ev)) evs = true.
Proof.
  run_monad. intros H.
  destruct (slice off c lf) as [chunk | e0];
    [| inversion H; subst; exists []; now rewrite app_nil_r].
  destruct (height chunk =? 0); [discriminate |].
  destruct (transform_chunk env chunk) as [t | e0];
    [| inversion H; subst; eexists; split; reflexivity].
  destruct (build_copy_rows t pid sh ss) as [rs | e0];
    [| inversion H; subst; eexists; split; reflexivity].
  destruct rs as [| r rs];
    repeat (match type of H with
            | context [if ?b then _ else _] => destruct b
            end; try discriminate);
    inversion H; subst; clear H; cbn [st_events];
    rewrite <- ?app_assoc; eexists; split; reflexivity.
Qed.

(** *** The batches of a run *)

Lemma after_batches_metrics c bs : forall st,
  st_metrics (fold_left (after_batch c) bs st)
  = mkMetrics (rows_read (st_metrics st) + sumZ b_read bs)
              (rows_loaded (st_metrics st) + sumZ b_loaded bs)
              (rows_rejected (st_metrics st)
               + sumZ (fun b => b_read b - b_loaded b) bs).
Proof.
  induction bs as [| b bs IH]; intros st; simpl.
  - destruct (st_metrics st); simpl. f_equal; lia.
  - rewrite IH. unfold after_batch, add_batch. simpl. f_equal; lia.
Qed.

Lemma after_batches_events c bs : forall st,
  st_events (fold_left (after_batch c) bs st)
  = st_events st ++ batches_events c (st_metrics st) bs.
Proof.
  induction bs as [| b bs IH]; intros st; simpl.
  - now rewrite app_nil_r.
  - rewrite IH. unfold after_batch. simpl. now rewrite <- app_assoc.
Qed.

(** How a run of the loop that ends went: some batches, one after the
    other from the first offset on, then a turn that found an empty slice
    or a turn that raised. *)
Lemma run_loop_inv env lf pid sh ss c fuel : forall off st r st',
  run_loop env fuel lf pid sh ss c off st = Some (r, st') ->
  exists bs,
    Forall (batch_ok env lf pid sh ss c) bs
    /\ offsets_from off c bs
    /\ let stn := fold_left (after_batch c) bs st in
       let offn := off + c * Z.of_nat (length bs) in
       (r = Ok (st_metrics stn)
        /\ etl_batch env lf pid sh ss c offn stn = (Ok Break, st')
        /\ st_metrics st' = st_metrics stn)
       \/ (exists e, r = Raise e
                     /\ etl_batch env lf pid sh ss c offn stn = (Raise e, st')).
Proof.
  induction fuel as [| fuel IH]; intros off st r st' H; simpl in H; [discriminate |].
  destruct (etl_batch env lf pid sh ss c off st) as [[[] | e] st1] eqn:E.
  - (* break *)
    inversion H; subst; clear H. exists []. simpl.
    replace (off + c * 0) with off by lia.
    split; [constructor |]. split; [exact I |]. left.
    destruct (etl_batch_Break_inv _ _ _ _ _ _ _ _ _ E) as (chunk & _ & _ & ->).
    auto.
  - (* continue *)
    destruct (etl_batch_Continue_inv _ _ _ _ _ _ _ _ _ E)
      as (chunk & t & rs & Hs & Hh & Ht & Hb & ->).
    apply IH in H as (bs & Hok & Hoff & Hend).
    exists (mkBatch off chunk rs :: bs). simpl.
    split; [constructor; [repeat split; eauto | exact Hok] |].
    split; [split; [reflexivity | exact Hoff] |].
    replace (off + c * Z.pos (Pos.of_succ_nat (length bs)))
      with (off + c + c * Z.of_nat (length bs)) by lia.
    exact Hend.
  - (* raise *)
    inversion H; subst; clear H. exists []. simpl.
    replace (off + c * 0) with off by lia.
    split; [constructor |]. split; [exact I |]. right. eauto.
Qed.

(** *** Counting the rows of a batch *)

Lemma build_copy_rows_length df pid sh ss rs :
  build_copy_rows df pid sh ss = Ok rs -> length rs = length (rows df).
Proof. unfold build_copy_rows, to_dicts. apply mapM_length. Qed.

Lemma transform_chunk_height env df out :
  transform_chunk env df = Ok out ->
  length (rows out) = length (filter (retained env) (rows df)).
Proof.
  intros H. apply transform_chunk_Ok in H as (_ & _ & H).
  apply Forall2_length in H. now rewrite length_map in H.
Qed.

Lemma batch_ok_loaded env lf pid sh ss c b :
  batch_ok env lf pid sh ss c b ->
  b_loaded b = Z.of_nat (length (filter (retained env) (rows (b_chunk b)))).
Proof.
  intros (_ & _ & t & Ht & Hb). unfold b_loaded.
  apply build_copy_rows_length in Hb. apply transform_chunk_height in Ht.
  congruence.
Qed.

(** Read = loaded + rejected, batch by batch. *)
Lemma batch_ok_partition env lf pid sh ss c b :
  batch_ok env lf pid sh ss c b ->
  b_read b = b_loaded b + b_rejected env b.
Proof.
  intros H. rewrite (batch_ok_loaded _ _ _ _ _ _ _ H).
  unfold b_read, b_rejected, height.
  rewrite <- Nat2Z.inj_add, filter_length. reflexivity.
Qed.

Lemma batch_ok_bounds env lf pid sh ss c b :
  batch_ok env lf pid sh ss c b ->
  0 <= b_loaded b <= b_read b /\ 0 <= b_read b - b_loaded b.
Proof.
  intros H. pose proof (batch_ok_partition _ _ _ _ _ _ _ H) as Hp.
  unfold b_loaded, b_rejected in *. lia.
Qed.

Lemma sumZ_ext (f g : batch -> Z) (bs : list batch) :
  Forall (fun b => f b = g b) bs -> sumZ f bs = sumZ g bs.
Proof.
  induction 1 as [| b bs Hb _ IH]; simpl; [reflexivity | now rewrite Hb, IH].
Qed.

(** *** How a run that ends went *)

Lemma run_etl_inv env fuel path pid sh ss cs c r st :
  run_etl env fuel path pid sh ss cs c = Some (r, st) ->
  (exists e, r = Raise e /\ st = mkState (mkMetrics 0 0 0) []
             /\ (scan_input_file env path = Raise e
                 \/ connect_ok env cs = false))
  \/ exists lf bs tail,
       scan_input_file env path = Ok lf
       /\ Forall (batch_ok env lf pid sh ss c) bs
       /\ offsets_from 0 c bs
       /\ st_events st = EConnect cs :: batches_events c (mkMetrics 0 0 0) bs ++ tail
       /\ forallb (fun ev => negb (is_print ev)) tail = true
       /\ (forall m, r = Ok m ->
             m = st_metrics st
             /\ m = mkMetrics (sumZ b_read bs) (sumZ b_loaded bs)
                              (sumZ (fun b => b_read b - b_loaded b) bs)
             /\ (exists chunk, slice (c * Z.of_nat (length bs)) c lf = Ok chunk
                               /\ height chunk = 0)
             /\ tail = [ECollect (c * Z.of_nat (length bs)) c 0; ECommit; EClose]).
Proof.
  unfold run_etl. intros H.
  destruct (scan_input_file env path) as [lf | e] eqn:Hscan;
    [| inversion H; subst; left; eauto].
  destruct (connect_ok env cs) eqn:Hconn; [| inversion H; subst; left; eauto 6].
  cbn [st_metrics st_events app] in H.
  destruct (run_loop env fuel lf pid sh ss c 0 _) as [[r1 st1] |] eqn:Hloop;
    [| discriminate].
  apply run_loop_inv in Hloop as (bs & Hok & Hoff & Hend).
  cbn zeta in Hend. rewrite Z.add_0_l in Hend.
  pose proof (after_batches_metrics c bs (mkState (mkMetrics 0 0 0) [EConnect cs]))
    as Hm.
  pose proof (after_batches_events c bs (mkState (mkMetrics 0 0 0) [EConnect cs]))
    as He.
  cbn [st_metrics st_events rows_read rows_loaded rows_rejected app] in Hm, He.
  rewrite !Z.add_0_l in Hm.
  right. exists lf, bs.
  destruct Hend as [(-> & Hbreak & Hmet) | (e & -> & Hraise)].
  - apply etl_batch_Break_inv in Hbreak as (chunk & Hs & Hh & ->).
    cbn [option_map leave_connection st_metrics st_events] in H.
    rewrite He in H.
    destruct (commit_ok env _).
    + inversion H; subst; clear H.
      exists [ECollect (c * Z.of_nat (length bs)) c 0; ECommit; EClose].
      cbn [st_events st_metrics].
      split; [reflexivity |]. split; [exact Hok |]. split; [exact Hoff |].
      split; [cbn [app]; rewrite <- ?app_assoc; reflexivity |].
      split; [reflexivity |].
      intros m Hm'. inversion Hm'; subst m; clear Hm'.
      split; [reflexivity |]. split; [exact Hm |]. split; [eauto | reflexivity].
    + inversion H; subst; clear H.
      exists [ECollect (c * Z.of_nat (length bs)) c 0].
      cbn [st_events st_metrics].
      split; [reflexivity |]. split; [exact Hok |]. split; [exact Hoff |].
      split; [cbn [app]; rewrite <- ?app_assoc; reflexivity |].
      split; [reflexivity | discriminate].
  - apply etl_batch_Raise_inv in Hraise as (evs & Hevs & Hq).
    cbn [option_map leave_connection] in H.
    inversion H; subst; clear H.
    exists (evs ++ [ERollback; EClose]). cbn [st_events].
    rewrite Hevs, He.
    split; [reflexivity |]. split; [exact Hok |]. split; [exact Hoff |].
    split; [cbn [app]; rewrite <- ?app_assoc; reflexivity |].
    split; [| discriminate].
    rewrite forallb_app, Hq. reflexivity.
Qed.

(** C1: in a run that returns, the counters returned are the sums over the
    processed batches of the records read, of the rows loaded and of the
    records rejected, and in each batch the records read are the rows
    loaded plus the records the transformer left out.  The batches are the
    slices of the source at the offsets [0], [chunk_size], ... *)
Theorem run_etl_metrics (env : Env) (fuel : nat)
    (input_path process_id source_hash source_system connection_string : pystr)
    (chunk_size : Z) (m : Metrics) (st : State) :
  run_etl env fuel input_path process_id source_hash source_system
          connection_string chunk_size = Some (Ok m, st) ->
  exists lazy_frame batches,
    scan_input_file env input_path = Ok lazy_frame
    /\ Forall (batch_ok env lazy_frame process_id source_hash source_system chunk_size)
              batches
    /\ offsets_from 0 chunk_size batches
    /\ Forall (fun b => b_read b = b_loaded b + b_rejected env b
                        /\ b_rejected env b = b_read b - b_loaded b) batches
    /\ rows_read m = sumZ b_read batches
    /\ rows_loaded m = sumZ b_loaded batches
    /\ rows_rejected m = sumZ (b_rejected env) batches
    /\ rows_read m = rows_loaded m + rows_rejected m.
Proof.
  intros H. apply run_etl_inv in H as [(e & He & _) | H]; [discriminate |].
  destruct H as (lf & bs & tail & Hscan & Hok & Hoff & _ & _ & Hm).
  destruct (Hm m eq_refl) as (_ & -> & _).
  assert (Hpart : Forall (fun b => b_read b = b_loaded b + b_rejected env b
                                   /\ b_rejected env b = b_read b - b_loaded b) bs).
  { eapply Forall_impl; [| exact Hok].
    intros b Hb. pose proof (batch_ok_partition _ _ _ _ _ _ _ Hb). lia. }
  assert (Hrej : sumZ (fun b => b_read b - b_loaded b) bs = sumZ (b_rejected env) bs).
  { apply sumZ_ext. eapply Forall_impl; [| exact Hpart]. intros b [_ Hb]. now rewrite Hb. }
  exists lf, bs. cbn [rows_read rows_loaded rows_rejected].
  repeat split; auto.
  rewrite Hrej. clear - Hpart.
  induction Hpart as [| b bs [Hb _] _ IH]; simpl; lia.
Qed.

Lemma run_etl_metrics_witness :
  exists st,
    run_etl Sample.env 5 (lit "data/in.csv") (lit "p1") (lit "h")
            (lit "ExternalProvider") (lit "host=db") 2
    = Some (Ok (mkMetrics 3 2 1), st)
    /\ exists batches,
         3 = sumZ b_read batches
         /\ 2 = sumZ b_loaded batches
         /\ 1 = sumZ (b_rejected Sample.env) batches.
Proof.
  assert (exists st, run_etl Sample.env 5 (lit "data/in.csv") (lit "p1") (lit "h")
                             (lit "ExternalProvider") (lit "host=db") 2
                     = Some (Ok (mkMetrics 3 2 1), st)) as [st H]
    by (vm_compute; eexists; reflexivity).
  exists st. split; [exact H |].
  destruct (run_etl_metrics _ _ _ _ _ _ _ _ _ _ H)
    as (lf & bs & _ & _ & _ & _ & Hr & Hl & Hj & _).
  exists bs. repeat split; assumption.
Defined.

(** The scenario of the specification: three records in one batch, the
    second without holder identifier; two rows are loaded, with distinct
    business-key digests. *)
Example run_etl_three_records :
  option_map fst
    (run_etl Sample.env 3 (lit "in.parquet") (lit "p1") (lit "h")
             (lit "ExternalProvider") (lit "host=db") 200000)
  = Some (Ok (mkMetrics 3 2 1))
  /\ (exists t1 t2 rest1 rest2 p h s,
        (rs <- (t <- transform_chunk Sample.env Sample.frame ;;
                build_copy_rows t (lit "p1") (lit "h") (lit "ExternalProvider")) ;;
         Ok rs)
        = Ok [p :: h :: s :: t1 :: rest1; p :: h :: s :: t2 :: rest2]
        /\ t1 <> t2).
Proof.
  split; [vm_compute; reflexivity |].
  vm_compute. do 7 eexists. split; [reflexivity | discriminate].
Qed.

(** *** Slices *)

Lemma height_nonneg df : 0 <= height df.
Proof. unfold height. lia. Qed.

(** A slice from an offset that is not negative is the window of so
    many rows from there, when the offset and the length are in range. *)
Lemma slice_window lf off c :
  0 <= off < 9223372036854775808 -> 0 <= c < 4294967296 ->
  slice off c lf
  = Ok (mkFrame (columns lf) (firstn (Z.to_nat c) (skipn (Z.to_nat off) (rows lf)))).
Proof.
  intros Hoff Hc. unfold slice.
  destruct (c <? 0) eqn:E1; [apply Z.ltb_lt in E1; lia |].
  destruct (4294967296 <=? c) eqn:E2; [apply Z.leb_le in E2; lia |].
  destruct (off <? _) eqn:E3; [apply Z.ltb_lt in E3; lia |].
  destruct (9223372036854775808 <=? off) eqn:E4; [apply Z.leb_le in E4; lia |].
  destruct (off <? 0) eqn:E5; [apply Z.ltb_lt in E5; lia |].
  cbn [orb]. cbv zeta. f_equal. f_equal. unfold height.
  set (n := length (rows lf)).
  destruct (Z.le_gt_cases (Z.of_nat n) off) as [Hge | Hlt].
  - rewrite !skipn_all2 by (fold n; lia). now rewrite !firstn_nil.
  - replace (Z.max 0 (Z.min off (Z.of_nat n))) with off by lia.
    destruct (Z.le_gt_cases (off + c) (Z.of_nat n)) as [Hin | Hout].
    + replace (Z.max 0 (Z.min (off + c) (Z.of_nat n)) - off) with c by lia.
      reflexivity.
    + rewrite !firstn_all2; [reflexivity | |]; rewrite length_skipn; fold n; lia.
Qed.

(** A slice that is returned had its offset and its length in range. *)
Lemma slice_Ok_range lf off c chunk :
  slice off c lf = Ok chunk ->
  0 <= c < 4294967296 /\ - 9223372036854775808 <= off < 9223372036854775808.
Proof.
  unfold slice.
  destruct (c <? 0) eqn:E1; [discriminate |]. apply Z.ltb_ge in E1.
  destruct (4294967296 <=? c) eqn:E2; [discriminate |]. apply Z.leb_gt in E2.
  destruct (off <? _) eqn:E3; [discriminate |]. apply Z.ltb_ge in E3.
  destruct (9223372036854775808 <=? off) eqn:E4; [discriminate |].
  apply Z.leb_gt in E4. intros _. lia.
Qed.

Lemma slice_rows lf off c chunk :
  0 <= off -> slice off c lf = Ok chunk ->
  rows chunk = firstn (Z.to_nat c) (skipn (Z.to_nat off) (rows lf)).
Proof.
  intros Hoff Hs. pose proof (slice_Ok_range _ _ _ _ Hs) as [Hc Hr].
  rewrite slice_window in Hs by lia. now inversion Hs.
Qed.

(** A length that does not fit 32 bits is refused, wherever the slice
    starts. *)
Lemma slice_overflow lf off c :
  4294967296 <= c -> slice off c lf = Raise OverflowError.
Proof.
  intros Hc. unfold slice.
  destruct (c <? 0) eqn:E1; [apply Z.ltb_lt in E1; lia |].
  destruct (4294967296 <=? c) eqn:E2; [reflexivity | apply Z.leb_gt in E2; lia].
Qed.

(** An offset that does not fit 64 bits is refused too. *)
Lemma slice_offset_overflow lf off c :
  0 <= c -> 9223372036854775808 <= off -> slice off c lf = Raise OverflowError.
Proof.
  intros Hc Hoff. unfold slice.
  destruct (c <? 0) eqn:E1; [apply Z.ltb_lt in E1; lia |].
  destruct (9223372036854775808 <=? off) eqn:E2; [| apply Z.leb_gt in E2; lia].
  now rewrite !orb_true_r.
Qed.

(** A window that ends before the first row is empty. *)
Lemma slice_before_start lf off c :
  0 <= c < 4294967296 -> - 9223372036854775808 <= off < 0 ->
  off + height lf + c <= 0 ->
  slice off c lf = Ok (mkFrame (columns lf) []).
Proof.
  intros Hc Hoff Hend. pose proof (height_nonneg lf) as Hn. unfold slice.
  destruct (c <? 0) eqn:E1; [apply Z.ltb_lt in E1; lia |].
  destruct (4294967296 <=? c) eqn:E2; [apply Z.leb_le in E2; lia |].
  destruct (off <? - 9223372036854775808) eqn:E3; [apply Z.ltb_lt in E3; lia |].
  destruct (9223372036854775808 <=? off) eqn:E4; [apply Z.leb_le in E4; lia |].
  destruct (off <? 0) eqn:E5; [| apply Z.ltb_ge in E5; lia].
  cbn [orb]. cbv zeta.
  replace (Z.max 0 (Z.min (off + height lf + c) (height lf))
           - Z.max 0 (Z.min (off + height lf) (height lf))) with 0 by lia.
  reflexivity.
Qed.

(** A slice at or past the end of the source is empty. *)
Lemma slice_past_end lf off c :
  0 <= c < 4294967296 -> height lf <= off < 9223372036854775808 ->
  slice off c lf
  = Ok (mkFrame (columns lf) []).
Proof.
  intros Hc Hoff. pose proof (height_nonneg lf) as Hn.
  rewrite slice_window by lia.
  rewrite skipn_all2, firstn_nil; [reflexivity |].
  unfold height in Hoff. lia.
Qed.

(** A slice that is not empty starts inside the source. *)
Lemma slice_nonempty lf off c chunk :
  0 <= off -> slice off c lf = Ok chunk -> height chunk <> 0 ->
  off < height lf /\ 0 < c.
Proof.
  intros Hoff Hs Hh.
  pose proof (slice_rows _ _ _ _ Hoff Hs) as Hrows.
  pose proof (slice_Ok_range _ _ _ _ Hs) as [Hc _].
  unfold height in *. rewrite Hrows in Hh.
  rewrite length_firstn, length_skipn in Hh. lia.
Qed.

(** *** A run that returns has read every record once *)

Lemma slice_height lf off c chunk :
  0 <= off -> slice off c lf = Ok chunk ->
  height chunk = Z.max 0 (Z.min c (height lf - off)).
Proof.
  intros Hoff Hs.
  pose proof (slice_rows _ _ _ _ Hoff Hs) as Hrows.
  pose proof (slice_Ok_range _ _ _ _ Hs) as [Hc _].
  unfold height. rewrite Hrows, length_firstn, length_skipn. lia.
Qed.

Lemma batches_read_sum env lf pid sh ss c :
  0 < c ->
  forall bs off,
    0 <= off -> offsets_from off c bs ->
    Forall (batch_ok env lf pid sh ss c) bs ->
    sumZ b_read bs
    = Z.max 0 (Z.min (height lf) (off + c * Z.of_nat (length bs)) - off).
Proof.
  intros Hc. induction bs as [| b bs IH]; intros off Hoff Ho Hok.
  - simpl. lia.
  - destruct Ho as [Hb Ho]. pose proof (Forall_inv Hok) as (Hs & Hh & _).
    apply Forall_inv_tail in Hok. rewrite Hb in Hs.
    pose proof (slice_height _ _ _ _ Hoff Hs) as Hread.
    destruct (slice_nonempty _ _ _ _ Hoff Hs Hh) as [Hin _].
    assert (Hoff' : 0 <= off + c) by lia.
    specialize (IH (off + c) Hoff' Ho Hok).
    cbn [sumZ]. unfold b_read at 1. rewrite Hread, IH.
    replace (Z.of_nat (length (b :: bs))) with (Z.of_nat (length bs) + 1)
      by (simpl; lia).
    destruct bs as [| b' bs'].
    + simpl. lia.
    + destruct Ho as [Hb' _]. pose proof (Forall_inv Hok) as (Hs' & Hh' & _).
      rewrite Hb' in Hs'.
      destruct (slice_nonempty _ _ _ _ Hoff' Hs' Hh') as [Hin' _].
      assert (c <= c * Z.of_nat (length (b' :: bs'))) by (simpl length; nia).
      lia.
Qed.

(** With a positive batch size, a run that returns has read as many
    records as the source holds. *)
Lemma run_etl_reads_all env fuel path pid sh ss cs c m st lf :
  0 < c ->
  run_etl env fuel path pid sh ss cs c = Some (Ok m, st) ->
  scan_input_file env path = Ok lf ->
  rows_read m = height lf.
Proof.
  intros Hc H Hscan.
  apply run_etl_inv in H as [(e & He & _) | H]; [discriminate |].
  destruct H as (lf' & bs & tail & Hscan' & Hok & Hoff & _ & _ & Hm).
  assert (lf' = lf) by congruence. subst lf'.
  destruct (Hm m eq_refl) as (_ & -> & (chunk & Hs & Hh) & _).
  cbn [rows_read].
  rewrite (batches_read_sum env lf pid sh ss c Hc bs 0 (Z.le_refl 0) Hoff Hok).
  assert (Hpos : 0 <= c * Z.of_nat (length bs)) by nia.
  pose proof (slice_height _ _ _ _ Hpos Hs) as Hlast.
  pose proof (height_nonneg lf). lia.
Qed.

(** *** Progress lines *)

Lemma quiet_no_print l pre line post :
  forallb (fun ev => negb (is_print ev)) l = true -> l <> pre ++ EPrint line :: post.
Proof.
  intros H ->. rewrite forallb_app in H. simpl in H.
  now rewrite andb_false_r in H.
Qed.

Lemma progress_after_commit_quiet l :
  forallb (fun ev => negb (is_print ev)) l = true -> progress_after_commit l.
Proof. intros H pre line post E. now apply quiet_no_print in E. Qed.

Lemma progress_after_commit_app_quiet l1 l2 :
  progress_after_commit l1 ->
  forallb (fun ev => negb (is_print ev)) l2 = true ->
  progress_after_commit (l1 ++ l2).
Proof.
  intros H1 H2 pre line post E.
  apply app_eq_app in E as (l & [[E1 E2] | [E1 E2]]).
  - destruct l as [| e l].
    + simpl in E2. symmetry in E2. now apply (quiet_no_print _ [] _ _ H2) in E2.
    + simpl in E2. inversion E2; subst. eapply H1. reflexivity.
  - now apply quiet_no_print in E2.
Qed.

Lemma copy_events_cases rs :
  copy_events rs = [] \/ exists sql data, copy_events rs = [ECopy sql data].
Proof. destruct rs; simpl; eauto. Qed.

Lemma copy_events_quiet rs :
  forallb (fun ev => negb (is_print ev)) (copy_events rs) = true.
Proof. destruct rs; reflexivity. Qed.

Lemma progress_after_commit_app_batch l off c h rs m :
  progress_after_commit l -> h <> 0 ->
  progress_after_commit (l ++ batch_events off c h rs m).
Proof.
  intros Hl Hh pre line post E.
  unfold batch_events in E.
  assert (Hq : forallb (fun ev => negb (is_print ev))
                 (ECollect off c h :: copy_events rs ++ [ECommit]) = true).
  { simpl. rewrite forallb_app, copy_events_quiet. reflexivity. }
  replace (l ++ ECollect off c h :: copy_events rs ++ [ECommit; EPrint (progress_line m)])
    with ((l ++ ECollect off c h :: copy_events rs ++ [ECommit])
          ++ [EPrint (progress_line m)]) in E
    by (rewrite <- !app_assoc; simpl; rewrite <- !app_assoc; reflexivity).
  apply app_eq_app in E as (k & [[E1 E2] | [E1 E2]]).
  - destruct k as [| e k].
    + rewrite app_nil_r in E1. subst pre.
      exists l, off, c, h, (copy_events rs).
      split; [reflexivity |]. split; [exact Hh | apply copy_events_cases].
    + simpl in E2. inversion E2; subst.
      eapply (progress_after_commit_app_quiet _ _ Hl Hq). exact E1.
  - destruct k as [| e k].
    + rewrite app_nil_r in E1. subst pre.
      exists l, off, c, h, (copy_events rs).
      split; [reflexivity |]. split; [exact Hh | apply copy_events_cases].
    + simpl in E2. inversion E2 as [[He Hk]]. now destruct k.
Qed.

Lemma progress_after_commit_batches c bs : forall m l,
  progress_after_commit l ->
  Forall (fun b => b_read b <> 0) bs ->
  progress_after_commit (l ++ batches_events c m bs).
Proof.
  induction bs as [| b bs IH]; intros m l Hl Hbs; cbn [batches_events].
  - now rewrite app_nil_r.
  - rewrite app_assoc. apply IH; [| now apply Forall_inv_tail in Hbs].
    apply progress_after_commit_app_batch; [exact Hl | now apply Forall_inv in Hbs].
Qed.

Lemma batches_events_no_empty_collect c bs : forall m,
  Forall (fun b => b_read b <> 0) bs ->
  forallb (fun ev => negb (is_empty_collect ev)) (batches_events c m bs) = true.
Proof.
  induction bs as [| b bs IH]; intros m Hbs; simpl; [reflexivity |].
  apply Forall_inv in Hbs as Hb. apply Forall_inv_tail in Hbs.
  apply Z.eqb_neq in Hb. rewrite Hb. simpl.
  rewrite !forallb_app, IH by exact Hbs.
  destruct (b_rows b); reflexivity.
Qed.

Lemma forallb_suffix {A} (f : A -> bool) (l1 l2 : list A) :
  forallb f (l1 ++ l2) = true -> forallb f l2 = true.
Proof. rewrite forallb_app. intros H. now apply andb_true_iff in H. Qed.

Lemma quiet_after_empty_slice_app l tail :
  forallb (fun ev => negb (is_empty_collect ev)) l = true ->
  forallb (fun ev => negb (is_print ev)) tail = true ->
  quiet_after_empty_slice (l ++ tail).
Proof.
  intros Hl Ht pre off len post E.
  apply app_eq_app in E as (k & [[E1 E2] | [E1 E2]]).
  - destruct k as [| e k].
    + simpl in E2. rewrite <- E2 in Ht. simpl in Ht. exact Ht.
    + simpl in E2. inversion E2; subst.
      rewrite forallb_app in Hl. simpl in Hl.
      now rewrite andb_false_r in Hl.
  - subst tail. apply forallb_suffix in Ht. simpl in Ht. exact Ht.
Qed.

Lemma batch_ok_nonempty env lf pid sh ss c bs :
  Forall (batch_ok env lf pid sh ss c) bs -> Forall (fun b => b_read b <> 0) bs.
Proof. apply Forall_impl. intros b (_ & H & _). exact H. Qed.

(** C7: a turn of the loop that reads an empty slice ends the loop, which
    returns the counters as they are, with nothing printed; a run starts
    at offset 0 with the counters at zero, and what it does is: connect,
    then for each batch read non-empty a COPY (when rows were built), a
    commit and a progress line, then events among which there is no
    progress line.  So every progress line follows the commit of a
    non-empty batch, and none follows an empty slice. *)
Theorem run_etl_progress_lines (env : Env)
    (input_path process_id source_hash source_system connection_string : pystr)
    (chunk_size : Z) :
  (forall fuel lazy_frame offset st chunk,
      slice offset chunk_size lazy_frame = Ok chunk -> height chunk = 0 ->
      run_loop env (S fuel) lazy_frame process_id source_hash source_system
               chunk_size offset st
      = Some (Ok (st_metrics st),
              mkState (st_metrics st)
                      (st_events st ++ [ECollect offset chunk_size 0])))
  /\ (forall fuel r st,
        run_etl env fuel input_path process_id source_hash source_system
                connection_string chunk_size = Some (r, st) ->
        progress_after_commit (st_events st)
        /\ quiet_after_empty_slice (st_events st)
        /\ (st = mkState (mkMetrics 0 0 0) []
            \/ exists batches tail,
                 st_events st
                 = EConnect connection_string
                   :: batches_events chunk_size (mkMetrics 0 0 0) batches ++ tail
                 /\ offsets_from 0 chunk_size batches
                 /\ Forall (fun b => b_read b <> 0) batches
                 /\ forallb (fun ev => negb (is_print ev)) tail = true)
        /\ (forall m, r = Ok m -> m = st_metrics st)).
Proof.
  split.
  { intros fuel lf off st chunk Hs Hh. simpl.
    now rewrite (etl_batch_Break env lf _ _ _ _ _ st chunk Hs Hh). }
  intros fuel r st H.
  apply run_etl_inv in H as [(e & -> & -> & _) | H].
  { split; [now apply progress_after_commit_quiet |].
    split; [intros [| ? ?] ? ? ? E; discriminate E |].
    split; [now left | discriminate]. }
  destruct H as (lf & bs & tail & _ & Hok & Hoff & Hev & Hq & Hm).
  apply batch_ok_nonempty in Hok.
  split; [| split; [| split]].
  - rewrite Hev.
    change (EConnect connection_string
            :: batches_events chunk_size (mkMetrics 0 0 0) bs ++ tail)
      with (([EConnect connection_string]
             ++ batches_events chunk_size (mkMetrics 0 0 0) bs) ++ tail).
    apply progress_after_commit_app_quiet; [| exact Hq].
    apply progress_after_commit_batches; [| exact Hok].
    now apply progress_after_commit_quiet.
  - rewrite Hev.
    change (EConnect connection_string
            :: batches_events chunk_size (mkMetrics 0 0 0) bs ++ tail)
      with ((EConnect connection_string
             :: batches_events chunk_size (mkMetrics 0 0 0) bs) ++ tail).
    apply quiet_after_empty_slice_app; [| exact Hq].
    simpl. now apply batches_events_no_empty_collect.
  - right. exists bs, tail. auto.
  - intros m ->. now destruct (Hm m eq_refl).
Qed.

Lemma run_etl_progress_lines_witness :
  exists r st,
    run_etl Sample.env 5 (lit "data/in.csv") (lit "p1") (lit "h")
            (lit "ExternalProvider") (lit "host=db") 2 = Some (r, st)
    /\ r = Ok (mkMetrics 3 2 1)
    /\ progress_after_commit (st_events st)
    /\ quiet_after_empty_slice (st_events st).
Proof.
  assert (exists st, run_etl Sample.env 5 (lit "data/in.csv") (lit "p1") (lit "h")
                             (lit "ExternalProvider") (lit "host=db") 2
                     = Some (Ok (mkMetrics 3 2 1), st)) as [st H]
    by (vm_compute; eexists; reflexivity).
  exists (Ok (mkMetrics 3 2 1)), st.
  destruct (run_etl_progress_lines Sample.env (lit "data/in.csv") (lit "p1") (lit "h")
              (lit "ExternalProvider") (lit "host=db") 2) as [_ Hrun].
  destruct (Hrun _ _ _ H) as (Hp & Hq & _).
  auto.
Defined.

(** *** Termination *)

Lemma run_loop_terminates env lf pid sh ss c :
  0 < c ->
  forall k off st,
    0 <= off -> height lf - off <= Z.of_nat k ->
    exists r, run_loop env (S k) lf pid sh ss c off st = Some r.
Proof.
  intros Hc. induction k as [| k IH]; intros off st Hoff Hk;
    cbn [run_loop];
    destruct (etl_batch env lf pid sh ss c off st) as [[[] | e] st1] eqn:E;
    eauto.
  - exfalso.
    apply etl_batch_Continue_inv in E as (chunk & _ & _ & Hs & Hh & _).
    destruct (slice_nonempty _ _ _ _ Hoff Hs Hh). lia.
  - apply IH; lia.
Qed.

Lemma run_loop_fuel_mono env lf pid sh ss c fuel : forall off st r,
  run_loop env fuel lf pid sh ss c off st = Some r ->
  forall fuel', (fuel <= fuel')%nat ->
    run_loop env fuel' lf pid sh ss c off st = Some r.
Proof.
  induction fuel as [| fuel IH]; intros off st r H fuel' Hle; [discriminate |].
  destruct fuel' as [| fuel']; [lia |].
  cbn [run_loop] in *.
  destruct (etl_batch env lf pid sh ss c off st) as [[[] | e] st1]; auto.
  apply IH; [exact H | lia].
Qed.

Lemma offsets_from_nth off c bs : forall i b,
  offsets_from off c bs ->
  nth_error bs i = Some b -> b_offset b = off + c * Z.of_nat i.
Proof.
  revert off. induction bs as [| b0 bs IH]; intros off i b Hoff Hn.
  - destruct i; discriminate.
  - destruct Hoff as [H0 Hrest]. destruct i as [| i]; simpl in Hn.
    + inversion Hn; subst. lia.
    + rewrite (IH _ _ _ Hrest Hn). lia.
Qed.

Lemma batch_ok_inside env lf pid sh ss c off bs :
  0 <= off -> 0 <= c ->
  offsets_from off c bs ->
  Forall (batch_ok env lf pid sh ss c) bs ->
  Forall (fun b => 0 <= b_offset b < height lf) bs.
Proof.
  intros Hoff Hc. revert off Hoff.
  induction bs as [| b bs IH]; intros off Hoff Ho Hok; constructor.
  - destruct Ho as [Hb _]. apply Forall_inv in Hok as (Hs & Hh & _).
    rewrite Hb in *. destruct (slice_nonempty _ _ _ _ Hoff Hs Hh). lia.
  - destruct Ho as [_ Ho]. apply Forall_inv_tail in Hok.
    apply (IH (off + c)); auto; lia.
Qed.

(** C9: with a positive batch size the run ends, whatever the source: it
    returns the counters or it raises.  The batches are read at the
    offsets [0], [chunk_size], [2 * chunk_size], ..., each inside the
    source, and a turn that reads an empty slice ends the loop.  When the
    size fits 32 bits, a slice at or past the end of the source is empty,
    as long as the offset fits 64 bits.  A size that does not fit is
    refused by the first slice: the run raises [OverflowError] with no
    batch read, rolls back and closes. *)
Theorem run_etl_terminates (env : Env)
    (input_path process_id source_hash source_system connection_string : pystr)
    (chunk_size : Z) :
  0 < chunk_size ->
  (exists r st,
     forall fuel, (enough_fuel env input_path <= fuel)%nat ->
       run_etl env fuel input_path process_id source_hash source_system
               connection_string chunk_size = Some (r, st))
  /\ (forall fuel r st lazy_frame,
        run_etl env fuel input_path process_id source_hash source_system
                connection_string chunk_size = Some (r, st) ->
        scan_input_file env input_path = Ok lazy_frame ->
        connect_ok env connection_string = true ->
        exists batches,
          Forall (batch_ok env lazy_frame process_id source_hash source_system
                           chunk_size) batches
          /\ (forall i b, nth_error batches i = Some b ->
                b_offset b = chunk_size * Z.of_nat i
                /\ 0 <= b_offset b < height lazy_frame)
          /\ chunk_size * Z.of_nat (length batches) < height lazy_frame + chunk_size)
  /\ (chunk_size < 4294967296 ->
      forall lazy_frame offset,
        height lazy_frame <= offset < 9223372036854775808 ->
        exists chunk, slice offset chunk_size lazy_frame = Ok chunk /\ height chunk = 0)
  /\ (forall fuel lazy_frame offset st chunk,
        slice offset chunk_size lazy_frame = Ok chunk -> height chunk = 0 ->
        exists st',
          run_loop env (S fuel) lazy_frame process_id source_hash source_system
                   chunk_size offset st = Some (Ok (st_metrics st), st'))
  /\ (forall lazy_frame offset,
        9223372036854775808 <= offset ->
        slice offset chunk_size lazy_frame = Raise OverflowError)
  /\ (4294967296 <= chunk_size ->
      forall fuel lazy_frame offset,
        slice offset chunk_size lazy_frame = Raise OverflowError
        /\ (scan_input_file env input_path = Ok lazy_frame ->
            connect_ok env connection_string = true ->
            run_etl env (S fuel) input_path process_id source_hash source_system
                    connection_string chunk_size
            = Some (Raise OverflowError,
                    mkState (mkMetrics 0 0 0)
                            [EConnect connection_string; ERollback; EClose]))).
Proof.
  intros Hc. split; [| split; [| split; [| split; [| split]]]].
  - unfold enough_fuel, run_etl.
    destruct (scan_input_file env input_path) as [lf | e]; [| eauto].
    destruct (connect_ok env connection_string); [| eauto].
    destruct (run_loop_terminates env lf process_id source_hash source_system
                chunk_size Hc (length (rows lf)) 0
                (mkState (st_metrics (mkState (mkMetrics 0 0 0) []))
                   (st_events (mkState (mkMetrics 0 0 0) [])
                    ++ [EConnect connection_string])))
      as ([r st] & Hrun); [lia | unfold height; lia |].
    destruct (leave_connection env (r, st)) as [r' st'] eqn:El.
    exists r', st'. intros fuel Hfuel.
    rewrite (run_loop_fuel_mono _ _ _ _ _ _ _ _ _ _ Hrun fuel Hfuel).
    cbn [option_map]. now rewrite El.
  - intros fuel r st lf H Hscan Hconn.
    apply run_etl_inv in H as [(e & _ & _ & [Hs | Hn]) | H]; [congruence .. |].
    destruct H as (lf' & bs & tail & Hscan' & Hok & Hoff & _).
    assert (lf' = lf) by congruence. subst lf'.
    pose proof (batch_ok_inside _ _ _ _ _ _ 0 bs (Z.le_refl 0) (Z.lt_le_incl _ _ Hc)
                  Hoff Hok) as Hin.
    exists bs. split; [exact Hok |]. split.
    + intros i b Hn. split.
      * rewrite (offsets_from_nth _ _ _ _ _ Hoff Hn). lia.
      * rewrite Forall_forall in Hin. apply Hin. eapply nth_error_In; eauto.
    + destruct (Nat.eq_dec (length bs) 0) as [E0 | Hne].
      { rewrite E0. pose proof (height_nonneg lf). lia. }
      assert (Hlast : exists b, nth_error bs (length bs - 1) = Some b).
      { destruct (nth_error bs (length bs - 1)) eqn:En; [eauto |].
        apply nth_error_None in En. lia. }
      destruct Hlast as (b & Hn).
      pose proof (offsets_from_nth _ _ _ _ _ Hoff Hn) as Hb.
      rewrite Forall_forall in Hin.
      specialize (Hin b (nth_error_In _ _ Hn)).
      assert (Z.of_nat (length bs - 1) = Z.of_nat (length bs) - 1) by lia.
      nia.
  - intros Hfit lf off Hoff.
    rewrite slice_past_end by lia. eauto.
  - intros fuel lf off st chunk Hs Hh. simpl.
    rewrite (etl_batch_Break env lf _ _ _ _ _ st chunk Hs Hh). eauto.
  - intros lf off Hoff. apply slice_offset_overflow; lia.
  - intros Hbig fuel lf off.
    split; [now apply slice_overflow |].
    intros Hscan Hconn. unfold run_etl. rewrite Hscan, Hconn.
    cbn [run_loop st_metrics st_events app].
    unfold etl_batch, collect_slice, bind, lift.
    rewrite slice_overflow by exact Hbig. reflexivity.
Qed.

Lemma run_etl_terminates_witness :
  exists r st,
    forall fuel, (4 <= fuel)%nat ->
      run_etl Sample.env fuel (lit "data/in.csv") (lit "p1") (lit "h")
              (lit "ExternalProvider") (lit "host=db") 2 = Some (r, st).
Proof.
  destruct (run_etl_terminates Sample.env (lit "data/in.csv") (lit "p1") (lit "h")
              (lit "ExternalProvider") (lit "host=db") 2) as [H _]; [lia |].
  exact H.
Defined.

(** A batch size of 2^32: the slice past the end of the three records is
    not empty but refused, and the run raises on its first slice. *)
Lemma run_etl_chunk_size_overflow :
  height Sample.frame <= 3
  /\ slice 3 4294967296 Sample.frame = Raise OverflowError
  /\ run_etl Sample.env 5 (lit "data/in.csv") (lit "p1") (lit "h")
             (lit "ExternalProvider") (lit "host=db") 4294967296
     = Some (Raise OverflowError,
             mkState (mkMetrics 0 0 0) [EConnect (lit "host=db"); ERollback; EClose]).
Proof.
  split; [vm_compute; discriminate |]. split; vm_compute; reflexivity.
Qed.

(** *** The transformer only filters; the counters only grow *)

Lemma filter_subseq {A} (f : A -> bool) (l : list A) : subseq (filter f l) l.
Proof.
  induction l as [| a l IH]; simpl; [constructor |].
  destruct (f a); now constructor.
Qed.

Lemma Forall2_map_left {A B C} (R : B -> C -> Prop) (f : A -> B) (l1 : list A) :
  forall l2, Forall2 R (map f l1) l2 -> Forall2 (fun a c => R (f a) c) l1 l2.
Proof.
  induction l1 as [| a l1 IH]; intros l2 H; inversion H; subst; constructor; auto.
Qed.

Lemma filter_quiet (l : list event) :
  forallb (fun ev => negb (is_print ev)) l = true -> filter is_print l = [].
Proof.
  induction l as [| e l IH]; simpl; [reflexivity |].
  intros H. apply andb_true_iff in H as [He Hl].
  apply negb_true_iff in He. rewrite He. auto.
Qed.

Lemma prints_of_batches c bs : forall m,
  filter is_print (batches_events c m bs)
  = map (fun m' => EPrint (progress_line m')) (snapshots m bs).
Proof.
  induction bs as [| b bs IH]; intros m; [reflexivity |].
  cbn [batches_events snapshots map]. unfold batch_events.
  cbn [filter is_print app]. rewrite <- app_assoc, !filter_app.
  rewrite (filter_quiet _ (copy_events_quiet (b_rows b))).
  cbn [filter is_print app]. now rewrite IH.
Qed.

Lemma last_indep {A} (l : list A) (d d' : A) : l <> [] -> last l d = last l d'.
Proof.
  induction l as [| a [| b l] IH]; intros H; [contradiction | reflexivity |].
  change (last (b :: l) d = last (b :: l) d'). apply IH. discriminate.
Qed.

Lemma snapshots_grow bs : forall m,
  Forall (fun b => 0 <= b_read b - b_loaded b /\ 0 <= b_loaded b <= b_read b) bs ->
  metrics_sound m ->
  Forall metrics_sound (snapshots m bs)
  /\ nondecreasing m (snapshots m bs)
  /\ metrics_sound (last (snapshots m bs) m).
Proof.
  induction bs as [| b bs IH]; intros m Hbs Hm; cbn [snapshots].
  - repeat split; auto; apply Hm.
  - pose proof (Forall_inv Hbs) as Hb. cbv beta in Hb.
    apply Forall_inv_tail in Hbs.
    assert (Hm' : metrics_sound (add_batch m (b_read b) (b_loaded b))).
    { unfold metrics_sound, add_batch in *. simpl. lia. }
    destruct (IH _ Hbs Hm') as (Hs & Hn & Hl).
    split; [now constructor |]. split.
    + split; [| exact Hn]. unfold metrics_le, add_batch. simpl. lia.
    + destruct (snapshots (add_batch m (b_read b) (b_loaded b)) bs) as [| m0 l] eqn:E;
        [exact Hm' |].
      change (metrics_sound (last (m0 :: l) m)).
      rewrite (last_indep (m0 :: l) m (add_batch m (b_read b) (b_loaded b)))
        by discriminate.
      exact Hl.
Qed.

Lemma snapshots_last bs : forall m,
  last (snapshots m bs) m
  = mkMetrics (rows_read m + sumZ b_read bs) (rows_loaded m + sumZ b_loaded bs)
              (rows_rejected m + sumZ (fun b => b_read b - b_loaded b) bs).
Proof.
  induction bs as [| b bs IH]; intros m; cbn [snapshots sumZ].
  - destruct m; simpl. f_equal; lia.
  - specialize (IH (add_batch m (b_read b) (b_loaded b))).
    destruct (snapshots (add_batch m (b_read b) (b_loaded b)) bs) as [| m0 l] eqn:E.
    + simpl in *. rewrite IH. unfold add_batch. simpl. f_equal; lia.
    + change (last (add_batch m (b_read b) (b_loaded b) :: m0 :: l) m)
        with (last (m0 :: l) m).
      rewrite (last_indep (m0 :: l) m (add_batch m (b_read b) (b_loaded b)))
        by discriminate.
      rewrite IH. unfold add_batch. simpl. f_equal; lia.
Qed.

(** C10: [transform_chunk] returns no more rows than it was given, and the
    rows it returns are rows of the input, in their order, rewritten (a
    cell outside the date columns is the cast of the cell it comes from);
    [build_copy_rows] makes one row of each.  So a batch rejects a
    non-negative number of records and loads no more than it read, and
    the counters, as each progress line shows them and as the run returns
    them, never go down, are never negative, and keep [rows_loaded] at
    most [rows_read]. *)
Theorem transform_chunk_filters (env : Env) :
  (forall df out,
      transform_chunk env df = Ok out ->
      height out <= height df
      /\ (exists kept,
            subseq kept (rows df)
            /\ Forall2 (fun r o => forall c, In c SOURCE_COLUMNS -> ~ In c DATE_COLUMNS ->
                                             cell o c = cast_cell env CASTS c (cell r c))
                       kept (rows out))
      /\ (forall pid sh ss rs,
            build_copy_rows out pid sh ss = Ok rs ->
            length rs = length (rows out)
            /\ 0 <= height df - Z.of_nat (length rs)))
  /\ (forall fuel input_path process_id source_hash source_system connection_string
             chunk_size r st,
        run_etl env fuel input_path process_id source_hash source_system
                connection_string chunk_size = Some (r, st) ->
        exists batches,
          filter is_print (st_events st)
          = map (fun m => EPrint (progress_line m)) (snapshots (mkMetrics 0 0 0) batches)
          /\ Forall (fun b => 0 <= b_read b - b_loaded b /\ 0 <= b_loaded b <= b_read b)
                    batches
          /\ Forall metrics_sound (snapshots (mkMetrics 0 0 0) batches)
          /\ nondecreasing (mkMetrics 0 0 0) (snapshots (mkMetrics 0 0 0) batches)
          /\ (forall m, r = Ok m ->
                m = last (snapshots (mkMetrics 0 0 0) batches) (mkMetrics 0 0 0)
                /\ metrics_sound m)).
Proof.
  split.
  - intros df out H.
    pose proof (transform_chunk_height _ _ _ H) as Hlen.
    pose proof (filter_length_le (retained env) (rows df)) as Hle.
    split; [unfold height; lia |]. split.
    + exists (filter (retained env) (rows df)). split; [apply filter_subseq |].
      apply transform_chunk_Ok in H as (_ & _ & H).
      apply Forall2_map_left in H.
      eapply Forall2_impl; [| exact H].
      intros r o [Hsame _] c Hc Hd. cbv beta in Hsame.
      unfold cell at 1. rewrite (Hsame c Hd).
      now apply cell_casted.
    + intros pid sh ss rs Hb. apply build_copy_rows_length in Hb.
      split; [exact Hb |]. unfold height. lia.
  - intros fuel path pid sh ss cs c r st H.
    assert (H0 : metrics_sound (mkMetrics 0 0 0)) by (unfold metrics_sound; simpl; lia).
    apply run_etl_inv in H as [(e & -> & -> & _) | H].
    { exists []. simpl. repeat split; auto; try lia; discriminate. }
    destruct H as (lf & bs & tail & _ & Hok & _ & Hev & Hq & Hm).
    assert (Hb : Forall (fun b => 0 <= b_read b - b_loaded b
                                  /\ 0 <= b_loaded b <= b_read b) bs).
    { eapply Forall_impl; [| exact Hok].
      intros b Hb. pose proof (batch_ok_bounds _ _ _ _ _ _ _ Hb). lia. }
    destruct (snapshots_grow bs _ Hb H0) as (Hs & Hn & Hl).
    exists bs. split.
    { rewrite Hev. cbn [filter is_print]. rewrite filter_app, (filter_quiet _ Hq).
      rewrite app_nil_r. apply prints_of_batches. }
    split; [exact Hb |]. split; [exact Hs |]. split; [exact Hn |].
    intros m ->. destruct (Hm m eq_refl) as (_ & Hsum & _).
    assert (m = last (snapshots (mkMetrics 0 0 0) bs) (mkMetrics 0 0 0)).
    { rewrite snapshots_last. simpl. exact Hsum. }
    split; [assumption | congruence].
Qed.

Lemma transform_chunk_filters_witness :
  exists out,
    transform_chunk Sample.env mixed_frame = Ok out
    /\ height out <= height mixed_frame
    /\ exists kept, subseq kept (rows mixed_frame) /\ length kept = length (rows out).
Proof.
  assert (exists out, transform_chunk Sample.env mixed_frame = Ok out) as [out H]
    by (vm_compute; eexists; reflexivity).
  destruct (transform_chunk_filters Sample.env) as [Ht _].
  destruct (Ht _ _ H) as (Hh & (kept & Hsub & Hall) & _).
  exists out. split; [exact H |]. split; [exact Hh |].
  exists kept. split; [exact Hsub |]. eapply Forall2_length; exact Hall.
Defined.


(** * More properties of the code *)

(** ** compute_file_hash *)

Lemma update_chunks_Some fuel n : forall remaining hasher h,
  (0 < n)%nat ->
  update_chunks fuel n remaining hasher = Some h -> h = hasher ++ remaining.
Proof.
  induction fuel as [| fuel IH]; intros remaining hasher h Hn H; [discriminate |].
  cbn [update_chunks file_read] in H.
  destruct (firstn n remaining) as [| a chunk] eqn:E.
  - inversion H; subst.
    destruct n; [lia |]. destruct remaining; [now rewrite app_nil_r | discriminate].
  - apply IH in H; [| exact Hn]. subst h.
    rewrite <- E, <- app_assoc, firstn_skipn. reflexivity.
Qed.

Lemma update_chunks_enough fuel n : forall remaining hasher,
  (0 < n)%nat -> (length remaining < fuel)%nat ->
  update_chunks fuel n remaining hasher = Some (hasher ++ remaining).
Proof.
  induction fuel as [| fuel IH]; intros remaining hasher Hn Hlen; [lia |].
  cbn [update_chunks file_read].
  destruct (firstn n remaining) as [| a chunk] eqn:E.
  - destruct n; [lia |]. destruct remaining; [now rewrite app_nil_r | discriminate].
  - rewrite IH.
    + rewrite <- E, <- app_assoc, firstn_skipn. reflexivity.
    + exact Hn.
    + rewrite length_skipn. destruct remaining; [destruct n; discriminate |].
      cbn [length] in *. lia.
Qed.

(** The digest of a file is the SHA-256 of all its bytes: the chunks read
    are fed to the hasher in order and make up the file, whatever the size
    of the chunks, and the loop ends at the first empty read, which for an
    empty file is the first one. *)
Theorem compute_file_hash_whole_file (content : list Z) (fuel : nat) :
  (length content < fuel)%nat ->
  compute_file_hash fuel content = Some (SHA256.hexdigest content)
  /\ (forall n, (0 < n)%nat ->
        update_chunks fuel n content [] = Some content)
  /\ (forall fuel' h, compute_file_hash fuel' content = Some h ->
        h = SHA256.hexdigest content).
Proof.
  intros Hlen. split; [| split].
  - unfold compute_file_hash.
    rewrite update_chunks_enough by (auto; lia). reflexivity.
  - intros n Hn. now rewrite update_chunks_enough.
  - intros fuel' h H. unfold compute_file_hash in H.
    destruct (update_chunks fuel' (1024 * 1024) content []) as [x |] eqn:E;
      [| discriminate].
    apply update_chunks_Some in E; [| lia]. simpl in E. subst x.
    now inversion H.
Qed.

Lemma compute_file_hash_whole_file_witness :
  compute_file_hash 4 (lit "abc") = Some (SHA256.hexdigest (lit "abc"))
  /\ update_chunks 4 2 (lit "abc") [] = Some (lit "abc").
Proof.
  destruct (compute_file_hash_whole_file (lit "abc") 4) as (H1 & H2 & _);
    [simpl; lia |].
  split; [exact H1 | apply H2; lia].
Defined.

(** ** The CSV data of a COPY can be read back *)

(** What the reader is at after an unquoted text. *)
Lemma csv_parse_unquoted s : forall mode field fields records rest,
  mode <> Quoted ->
  existsb csv_special s = false ->
  exists mode',
    mode' <> Quoted
    /\ csv_parse mode field fields records (s ++ rest)
       = csv_parse mode' (field ++ s) fields records rest.
Proof.
  induction s as [| c s IH]; intros mode field fields records rest Hm Hs.
  - exists mode. now rewrite app_nil_r.
  - simpl in Hs. apply orb_false_iff in Hs as [Hc Hs].
    unfold csv_special in Hc.
    apply orb_false_iff in Hc as [Hc H10]. apply orb_false_iff in Hc as [Hc H13].
    apply orb_false_iff in Hc as [H44 H34].
    destruct (IH Plain (field ++ [c]) fields records rest) as (mode' & Hm' & E);
      [discriminate | exact Hs |].
    exists mode'. split; [exact Hm' |].
    rewrite <- app_assoc in E. simpl in E. rewrite <- E.
    destruct mode; [| contradiction |]; simpl; rewrite H34, H44, H13, H10; reflexivity.
Qed.

Lemma csv_parse_quoted_body s : forall field fields records rest,
  csv_parse Quoted field fields records
            (flat_map (fun c => if c =? 34 then [34; 34] else [c]) s ++ 34 :: rest)
  = csv_parse QuoteSeen (field ++ s) fields records rest.
Proof.
  induction s as [| c s IH]; intros field fields records rest.
  - simpl. now rewrite app_nil_r.
  - simpl. destruct (c =? 34) eqn:E.
    + apply Z.eqb_eq in E. subst c. simpl.
      rewrite IH, <- app_assoc. reflexivity.
    + simpl. rewrite E, IH, <- app_assoc. reflexivity.
Qed.

Lemma csv_parse_quote s fields records rest :
  csv_parse Plain [] fields records (csv_quote s ++ rest)
  = csv_parse QuoteSeen s fields records rest.
Proof.
  unfold csv_quote. rewrite <- !app_assoc. simpl.
  apply (csv_parse_quoted_body s []).
Qed.

Lemma csv_parse_field v fields records rest :
  exists mode',
    mode' <> Quoted
    /\ csv_parse Plain [] fields records (csv_field v ++ rest)
       = csv_parse mode' (csv_text v) fields records rest.
Proof.
  unfold csv_field. destruct (existsb csv_special (csv_text v)) eqn:E.
  - exists QuoteSeen. split; [discriminate | apply csv_parse_quote].
  - apply (csv_parse_unquoted (csv_text v) Plain []); [discriminate | exact E].
Qed.

Lemma csv_parse_comma mode field fields records rest :
  mode <> Quoted ->
  csv_parse mode field fields records (44 :: rest)
  = csv_parse Plain [] (fields ++ [field]) records rest.
Proof. destruct mode; [reflexivity | contradiction | reflexivity]. Qed.

Lemma csv_parse_crlf mode field fields records rest :
  mode <> Quoted ->
  csv_parse mode field fields records (13 :: 10 :: rest)
  = csv_parse Plain [] [] (records ++ [fields ++ [field]]) rest.
Proof. destruct mode; [reflexivity | contradiction | reflexivity]. Qed.

Lemma csv_parse_line row : row <> [] ->
  forall fields records rest,
    csv_parse Plain [] fields records
              (join [44] (map csv_field row) ++ 13 :: 10 :: rest)
    = csv_parse Plain [] [] (records ++ [fields ++ map csv_text row]) rest.
Proof.
  induction row as [| v row IH]; intros Hne fields records rest; [contradiction |].
  destruct row as [| v' row].
  - cbn [map join].
    destruct (csv_parse_field v fields records (13 :: 10 :: rest)) as (m & Hm & ->).
    now apply csv_parse_crlf.
  - change (join [44] (map csv_field (v :: v' :: row)))
      with (csv_field v ++ [44] ++ join [44] (map csv_field (v' :: row))).
    rewrite <- !app_assoc.
    destruct (csv_parse_field v fields records
                ([44] ++ join [44] (map csv_field (v' :: row)) ++ 13 :: 10 :: rest))
      as (m & Hm & ->).
    cbn [app]. rewrite (csv_parse_comma _ _ _ _ _ Hm).
    rewrite IH by discriminate.
    cbn [map]. now rewrite <- app_assoc.
Qed.

Lemma csv_field_empty v : csv_field v = [] -> csv_text v = [].
Proof.
  unfold csv_field. destruct (existsb csv_special (csv_text v)); [discriminate | auto].
Qed.

Lemma csv_parse_writerow row : row <> [] ->
  forall records rest,
    csv_parse Plain [] [] records (writerow row ++ rest)
    = csv_parse Plain [] [] (records ++ [map csv_text row]) rest.
Proof.
  intros Hne records rest. unfold writerow.
  destruct row as [| v row]; [contradiction |].
  destruct (join [44] (map csv_field (v :: row))) as [| c line] eqn:E.
  - destruct row as [| v' row];
      [| exfalso; revert E; cbn [map]; apply join_two_nonempty; discriminate].
    cbn [map join] in E. apply csv_field_empty in E.
    rewrite <- app_assoc, csv_parse_quote. cbn [app map]. rewrite E.
    now apply csv_parse_crlf.
  - rewrite <- E, <- app_assoc. cbn [app].
    now rewrite (csv_parse_line (v :: row) Hne []).
Qed.

Lemma csv_parse_writerows rs :
  Forall (fun row => row <> []) rs ->
  forall records rest,
    csv_parse Plain [] [] records (writerows rs ++ rest)
    = csv_parse Plain [] [] (records ++ map (map csv_text) rs) rest.
Proof.
  unfold writerows.
  induction 1 as [| row rs Hrow _ IH]; intros records rest; simpl.
  - now rewrite app_nil_r.
  - rewrite <- app_assoc, csv_parse_writerow by exact Hrow.
    rewrite IH, <- app_assoc. reflexivity.
Qed.

Lemma build_copy_rows_nonempty df pid sh ss rs :
  build_copy_rows df pid sh ss = Ok rs -> Forall (fun row => row <> []) rs.
Proof.
  unfold build_copy_rows. generalize (to_dicts df). intros l. revert rs.
  induction l as [| r l IH]; simpl; intros rs H.
  - inversion H. constructor.
  - apply rbind_Ok in H as (row & Hrow & H).
    apply rbind_Ok in H as (rows' & Hrows & H).
    inversion H; subst. constructor; [| now apply IH].
    apply build_copy_row_Ok in Hrow as (tid & ph & _ & _ & ->). discriminate.
Qed.

(** What [copy_to_staging] hands to COPY reads back, record by record and
    field by field, as the texts of the values of the rows: a comma, a
    quote or a line break inside a value does not shift a field.  An
    absent value and an empty string are both read as the empty text.
    So two batches with the same data have the same texts, and so it is
    for the rows that [build_copy_rows] makes. *)
Theorem copy_to_staging_reads_back (env : Env) (rs : list (list value)) (st st' : State) :
  rs <> [] ->
  Forall (fun row => row <> []) rs ->
  copy_to_staging env rs st = (Ok tt, st') ->
  (exists sql data,
     st_events st' = st_events st ++ [ECopy sql data]
     /\ csv_read data = map (map csv_text) rs)
  /\ csv_text VNone = csv_text (VStr [])
  /\ (forall rs2, Forall (fun row => row <> []) rs2 ->
        writerows rs = writerows rs2 ->
        map (map csv_text) rs = map (map csv_text) rs2)
  /\ (forall df pid sh ss built,
        build_copy_rows df pid sh ss = Ok built ->
        csv_read (writerows built) = map (map csv_text) built).
Proof.
  intros Hne Hrows H.
  assert (Hread : forall l, Forall (fun row : list value => row <> []) l ->
                            csv_read (writerows l) = map (map csv_text) l).
  { intros l Hl. unfold csv_read.
    rewrite <- (app_nil_r (writerows l)), csv_parse_writerows by exact Hl.
    reflexivity. }
  split; [| split; [reflexivity | split]].
  - destruct rs as [| r rs0]; [contradiction |].
    unfold copy_to_staging, cursor_copy in H.
    destruct (copy_ok env _ _ _); [| discriminate].
    unfold emit in H. inversion H; subst; clear H. cbn [st_events].
    eexists _, _. split; [reflexivity |]. exact (Hread (r :: rs0) Hrows).
  - intros rs2 H2 E. rewrite <- (Hread rs Hrows), <- (Hread rs2 H2). now rewrite E.
  - intros df pid sh ss built Hb. apply Hread.
    eapply build_copy_rows_nonempty; eauto.
Qed.

Lemma copy_to_staging_reads_back_witness :
  exists sql data,
    st_events (snd (copy_to_staging Sample.env
                      [[VStr (lit "a,b"); VNone; VInt 3]; [VStr [34; 10]]]
                      (mkState (mkMetrics 0 0 0) [])))
    = [ECopy sql data]
    /\ csv_read data = [[lit "a,b"; []; lit "3"]; [[34; 10]]].
Proof.
  destruct (copy_to_staging_reads_back Sample.env
              [[VStr (lit "a,b"); VNone; VInt 3]; [VStr [34; 10]]]
              (mkState (mkMetrics 0 0 0) [])
              (snd (copy_to_staging Sample.env
                      [[VStr (lit "a,b"); VNone; VInt 3]; [VStr [34; 10]]]
                      (mkState (mkMetrics 0 0 0) []))))
    as ((sql & data & He & Hr) & _).
  - discriminate.
  - repeat constructor; discriminate.
  - reflexivity.
  - exists sql, data. split; [exact He | exact Hr].
Defined.

(** ** Canonical forms *)

Lemma lstrip_spaces l s :
  Forall (fun c => isspace c = true) l -> lstrip (l ++ s) = lstrip s.
Proof. induction 1 as [| c l Hc _ IH]; simpl; [reflexivity | now rewrite Hc]. Qed.

Lemma lstrip_all_spaces l :
  Forall (fun c => isspace c = true) l -> lstrip l = [].
Proof. induction 1 as [| c l Hc _ IH]; simpl; [reflexivity | now rewrite Hc]. Qed.

Lemma lstrip_app s r :
  lstrip (s ++ r) = match lstrip s with [] => lstrip r | t => t ++ r end.
Proof.
  induction s as [| c s IH]; simpl.
  - now destruct (lstrip r).
  - destruct (isspace c); [exact IH | reflexivity].
Qed.

Lemma rstrip_spaces s r :
  Forall (fun c => isspace c = true) r -> rstrip (s ++ r) = rstrip s.
Proof.
  intros Hr. unfold rstrip. rewrite rev_app_distr.
  rewrite lstrip_spaces by now apply Forall_rev. reflexivity.
Qed.

Lemma strip_surrounding l s r :
  Forall (fun c => isspace c = true) l ->
  Forall (fun c => isspace c = true) r ->
  strip (l ++ s ++ r) = strip s.
Proof.
  intros Hl Hr. unfold strip.
  rewrite lstrip_spaces by exact Hl. rewrite lstrip_app.
  destruct (lstrip s) as [| c t] eqn:E.
  - now rewrite (lstrip_all_spaces r Hr).
  - now apply rstrip_spaces.
Qed.

Lemma lstrip_head s :
  (forall c t, s = c :: t -> isspace c = false) -> lstrip s = s.
Proof.
  destruct s as [| c t]; intros H; simpl; [reflexivity |].
  now rewrite (H c t eq_refl).
Qed.

Lemma strip_trimmed s :
  (forall c t, s = c :: t -> isspace c = false) ->
  (forall t c, s = t ++ [c] -> isspace c = false) ->
  strip s = s.
Proof.
  intros Hh Hl. unfold strip, rstrip. rewrite (lstrip_head s Hh).
  rewrite lstrip_head; [apply rev_involutive |].
  intros c t E. apply (Hl (rev t) c).
  rewrite <- (rev_involutive s), E. reflexivity.
Qed.

Lemma strip_idempotent s : strip (strip s) = strip s.
Proof.
  destruct (strip_spec s) as (l & r & _ & _ & _ & Hh & Hl).
  now apply strip_trimmed.
Qed.

Lemma strip_no_space s :
  Forall (fun c => isspace c = false) s -> strip s = s.
Proof.
  intros H. apply strip_trimmed.
  - intros c t ->. now apply Forall_inv in H.
  - intros t c ->. apply Forall_app in H as [_ H]. now apply Forall_inv in H.
Qed.

(** The characters of a number: a sign and digits. *)
Lemma string_of_uint_digits d :
  Forall (fun c => 48 <= c <= 57) (lit (NilEmpty.string_of_uint d)).
Proof.
  assert (Hlit : forall a s, lit (String a s) = Z.of_N (N_of_ascii a) :: lit s)
    by reflexivity.
  induction d; cbn [NilEmpty.string_of_uint]; rewrite ?Hlit;
    try (constructor; [vm_compute; split; discriminate | exact IHd]).
  constructor.
Qed.

Lemma str_int_chars z : Forall (fun c => c = 45 \/ 48 <= c <= 57) (str_int z).
Proof.
  unfold str_int.
  assert (Hu : forall d, Forall (fun c => c = 45 \/ 48 <= c <= 57)
                                (lit (NilZero.string_of_uint d))).
  { intros d.
    assert (Hd := string_of_uint_digits d).
    assert (Hd' : Forall (fun c => c = 45 \/ 48 <= c <= 57)
                         (lit (NilEmpty.string_of_uint d)))
      by (eapply Forall_impl; [| exact Hd]; intros; now right).
    destruct d; try exact Hd'.
    change (lit (NilZero.string_of_uint Decimal.Nil)) with [48].
    constructor; [right; lia | constructor]. }
  destruct (Z.to_int z) as [d | d]; cbn [NilZero.string_of_int].
  - apply Hu.
  - change (Forall (fun c => c = 45 \/ 48 <= c <= 57)
                   (45 :: lit (NilZero.string_of_uint d))).
    constructor; [now left | apply Hu].
Qed.

Lemma no_space_of_chars (P : Z -> Prop) s :
  (forall c, P c -> isspace c = false) -> Forall P s ->
  Forall (fun c => isspace c = false) s.
Proof. intros HP. apply Forall_impl. exact HP. Qed.

Lemma sign_digit_no_space c : c = 45 \/ 48 <= c <= 57 -> isspace c = false.
Proof.
  intros H. unfold isspace.
  repeat (apply orb_false_iff; split);
    try (apply andb_false_iff);
    try (apply Z.eqb_neq; lia);
    destruct H as [-> | H];
    try (left; apply Z.leb_gt; lia); try (right; apply Z.leb_gt; lia).
Qed.

Lemma str_int_no_space z : Forall (fun c => isspace c = false) (str_int z).
Proof.
  eapply no_space_of_chars; [apply sign_digit_no_space | apply str_int_chars].
Qed.

Lemma zfill_no_space w z : Forall (fun c => isspace c = false) (zfill w z).
Proof.
  unfold zfill. apply Forall_app. split; [| apply str_int_no_space].
  apply Forall_forall. intros c Hc. apply repeat_spec in Hc. now subst.
Qed.

Lemma str_decimal2_no_space u : Forall (fun c => isspace c = false) (str_decimal2 u).
Proof.
  unfold str_decimal2.
  apply Forall_app; split; [destruct (u <? 0); repeat constructor |].
  apply Forall_app; split; [apply str_int_no_space |].
  apply Forall_app; split; [repeat constructor | apply zfill_no_space].
Qed.

Lemma format_offset_no_space off : Forall (fun c => isspace c = false) (format_offset off).
Proof.
  unfold format_offset. destruct off as [o |]; [| constructor].
  apply Forall_app; split; [destruct (o <? 0); repeat constructor |].
  apply Forall_app; split; [apply zfill_no_space |].
  apply Forall_app; split; [repeat constructor |].
  apply Forall_app; split; [apply zfill_no_space |].
  destruct (Z.abs o mod 60 =? 0); [constructor |].
  apply Forall_app; split; [repeat constructor | apply zfill_no_space].
Qed.

Lemma isoformat_no_space d : Forall (fun c => isspace c = false) (isoformat d).
Proof.
  unfold isoformat, isoformat_sep.
  apply Forall_app; split; [apply zfill_no_space |].
  apply Forall_app; split; [repeat constructor |].
  apply Forall_app; split; [apply zfill_no_space |].
  apply Forall_app; split; [repeat constructor |].
  apply Forall_app; split; [apply zfill_no_space |].
  apply Forall_app; split; [repeat constructor |].
  apply Forall_app; split; [apply zfill_no_space |].
  apply Forall_app; split; [repeat constructor |].
  apply Forall_app; split; [apply zfill_no_space |].
  apply Forall_app; split; [repeat constructor |].
  apply Forall_app; split; [apply zfill_no_space |].
  apply Forall_app; split; [| apply format_offset_no_space].
  destruct (microsecond d =? 0); [constructor |].
  apply Forall_app; split; [repeat constructor | apply zfill_no_space].
Qed.

(** White space around a text value does not count, and a text of white
    space only counts as an absent value: the canonical form, and so the
    digest of any list of values, is the same. *)
Theorem normalize_value_ignores_surrounding_space (l s r : pystr) :
  Forall (fun c => isspace c = true) l ->
  Forall (fun c => isspace c = true) r ->
  normalize_value (VStr (l ++ s ++ r)) = normalize_value (VStr s)
  /\ normalize_value (VStr l) = normalize_value VNone
  /\ (forall before after,
        sha256_from_values (before ++ VStr (l ++ s ++ r) :: after)
        = sha256_from_values (before ++ VStr s :: after))
  /\ (forall before after,
        sha256_from_values (before ++ VStr l :: after)
        = sha256_from_values (before ++ VNone :: after)).
Proof.
  intros Hl Hr.
  assert (H1 : normalize_value (VStr (l ++ s ++ r)) = normalize_value (VStr s))
    by (simpl; now apply strip_surrounding).
  assert (H2 : normalize_value (VStr l) = normalize_value VNone).
  { simpl. unfold strip. now rewrite (lstrip_all_spaces l Hl). }
  repeat split; auto; intros before after;
    apply sha256_from_values_canonical_eq;
    rewrite !map_app; cbn [map]; congruence.
Qed.

Lemma normalize_value_ignores_surrounding_space_witness :
  normalize_value (VStr (lit "  " ++ lit "ACCT-1" ++ [9; 10]))
  = normalize_value (VStr (lit "ACCT-1"))
  /\ normalize_value (VStr (lit "  ")) = normalize_value VNone.
Proof.
  destruct (normalize_value_ignores_surrounding_space
              (lit "  ") (lit "ACCT-1") [9; 10]) as (H1 & H2 & _).
  - repeat constructor.
  - repeat constructor.
  - split; [exact H1 | exact H2].
Defined.

(** Canonicalizing twice is canonicalizing once, and a number has the
    canonical form of its text: an integer cell and a text cell with the
    same digits (as the same file gives when read from Parquet and from
    CSV) get the same digest, and digests computed again from canonical
    forms are the digests of the values. *)
Theorem normalize_value_idempotent :
  (forall v, normalize_value (VStr (normalize_value v)) = normalize_value v)
  /\ (forall z, normalize_value (VInt z) = str_int z
                /\ normalize_value (VStr (str_int z)) = normalize_value (VInt z))
  /\ (forall u, normalize_value (VDecimal u) = str_decimal2 u)
  /\ (forall values,
        sha256_from_values (map (fun v => VStr (normalize_value v)) values)
        = sha256_from_values values).
Proof.
  assert (Hidem : forall v, normalize_value (VStr (normalize_value v))
                            = normalize_value v).
  { intros [| z | s | u | d]; simpl.
    - reflexivity.
    - apply strip_idempotent.
    - apply strip_idempotent.
    - apply strip_idempotent.
    - apply strip_no_space, isoformat_no_space. }
  split; [exact Hidem |]. split; [| split].
  - intros z. simpl. rewrite (strip_no_space _ (str_int_no_space z)). auto.
  - intros u. simpl. apply strip_no_space, str_decimal2_no_space.
  - intros values. apply sha256_from_values_canonical_eq.
    rewrite map_map. apply map_ext. exact Hidem.
Qed.

(** *** Without a separator inside a value the canonical string is not
    ambiguous *)

(** When no canonical form holds the separator, two lists of as many
    values with one canonical string have the same canonical forms, value
    by value: only a separator inside a value can make two different
    lists of canonical forms collide before hashing. *)
Theorem canonical_string_unambiguous (values1 values2 : list value) :
  length values1 = length values2 ->
  Forall (fun v => separator_free (normalize_value v) = true) values1 ->
  Forall (fun v => separator_free (normalize_value v) = true) values2 ->
  canonical_string values1 = canonical_string values2 ->
  map normalize_value values1 = map normalize_value values2.
Proof.
  intros Hlen H1 H2 E. unfold canonical_string, SEPARATOR in E.
  apply join_separator_free; auto.
  - now rewrite !length_map.
  - now apply Forall_map.
  - now apply Forall_map.
Qed.

Lemma canonical_string_unambiguous_witness :
  map normalize_value [VInt 101; VStr (lit " A "); VNone]
  = map normalize_value [VStr (lit "101"); VStr (lit "A"); VStr []].
Proof.
  apply canonical_string_unambiguous.
  - reflexivity.
  - repeat constructor.
  - repeat constructor.
  - vm_compute. reflexivity.
Defined.

(** ** When a row can be built *)

Lemma encode_char_cases c :
  if scalar_value c then exists bs, encode_char c = Ok bs
  else encode_char c = Raise UnicodeEncodeError.
Proof.
  destruct (scalar_value c) eqn:E; [now apply encode_char_scalar |].
  unfold scalar_value in E. unfold encode_char.
  destruct (c <? 0) eqn:E0; [reflexivity |].
  apply Z.ltb_ge in E0.
  destruct (c <? 128) eqn:E1.
  { apply Z.ltb_lt in E1. exfalso. revert E.
    replace (0 <=? c) with true by (symmetry; apply Z.leb_le; lia).
    replace (c <? 1114112) with true by (symmetry; apply Z.ltb_lt; lia).
    replace (55296 <=? c) with false by (symmetry; apply Z.leb_gt; lia).
    discriminate. }
  destruct (c <? 2048) eqn:E2.
  { apply Z.ltb_lt in E2. exfalso. revert E.
    replace (0 <=? c) with true by (symmetry; apply Z.leb_le; lia).
    replace (c <? 1114112) with true by (symmetry; apply Z.ltb_lt; lia).
    replace (55296 <=? c) with false by (symmetry; apply Z.leb_gt; lia).
    discriminate. }
  destruct (c <? 65536) eqn:E3.
  { apply Z.ltb_lt in E3.
    destruct ((55296 <=? c) && (c <=? 57343)) eqn:Es; [reflexivity |].
    exfalso. revert E.
    replace (0 <=? c) with true by (symmetry; apply Z.leb_le; lia).
    replace (c <? 1114112) with true by (symmetry; apply Z.ltb_lt; lia).
    discriminate. }
  destruct (c <? 1114112) eqn:E4; [| reflexivity].
  apply Z.ltb_ge in E3. exfalso. revert E.
  replace (0 <=? c) with true by (symmetry; apply Z.leb_le; lia).
  replace (c <=? 57343) with false by (symmetry; apply Z.leb_gt; lia).
  rewrite andb_false_r. discriminate.
Qed.

Lemma encode_utf8_cases s :
  if forallb scalar_value s then exists bs, encode_utf8 s = Ok bs
  else encode_utf8 s = Raise UnicodeEncodeError.
Proof.
  destruct (forallb scalar_value s) eqn:E; [now apply encode_utf8_scalar |].
  unfold encode_utf8.
  assert (H : mapM encode_char s = Raise UnicodeEncodeError); [| now rewrite H].
  induction s as [| c s IH]; simpl in *; [discriminate |].
  pose proof (encode_char_cases c) as Hc.
  destruct (scalar_value c); simpl in E.
  - destruct Hc as (bs & ->). simpl. now rewrite IH.
  - now rewrite Hc.
Qed.

Lemma sha256_from_values_cases values :
  if forallb scalar_value (canonical_string values)
  then exists digest, sha256_from_values values = Ok digest
  else sha256_from_values values = Raise UnicodeEncodeError.
Proof.
  unfold sha256_from_values.
  pose proof (encode_utf8_cases (canonical_string values)) as H.
  destruct (forallb scalar_value (canonical_string values)).
  - destruct H as (bs & ->). simpl. eauto.
  - now rewrite H.
Qed.

Lemma scalar_join l :
  forallb scalar_value (join [124] l) = forallb (forallb scalar_value) l.
Proof.
  induction l as [| p l IH]; [reflexivity |].
  destruct l as [| q l].
  - simpl. now rewrite andb_true_r.
  - change (join [124] (p :: q :: l)) with (p ++ [124] ++ join [124] (q :: l)).
    rewrite !forallb_app, IH. reflexivity.
Qed.

Lemma scalar_canonical values :
  forallb scalar_value (canonical_string values)
  = forallb (fun v => forallb scalar_value (normalize_value v)) values.
Proof.
  unfold canonical_string, SEPARATOR.
  change (lit "|") with [124]. rewrite scalar_join.
  induction values as [| v values IH]; simpl; [reflexivity | now rewrite IH].
Qed.

Lemma mapM_getitem_cases r cs :
  (mapM (getitem r) cs = Ok (map (cell r) cs)
   /\ forall c, In c cs -> lookup r c <> None)
  \/ (mapM (getitem r) cs = Raise KeyError
      /\ exists c, In c cs /\ lookup r c = None).
Proof.
  induction cs as [| c cs IH]; simpl.
  - left. split; [reflexivity | contradiction].
  - assert (Hg : getitem r c = match lookup r c with
                                | Some v => Ok v
                                | None => Raise KeyError
                                end) by reflexivity.
    assert (Hcell : cell r c = match lookup r c with
                               | Some v => v
                               | None => VNone
                               end) by reflexivity.
    rewrite Hg, Hcell.
    destruct (lookup r c) as [v |] eqn:E; cbn [rbind].
    + destruct IH as [[-> Hall] | [-> (c' & Hin & Hc')]]; cbn [rbind].
      * left. split; [reflexivity |]. intros c' [<- | Hin]; [congruence | auto].
      * right. split; [reflexivity | eauto].
    + right. split; [reflexivity | eauto].
Qed.

Lemma business_key_is_source c : In c BUSINESS_KEY_COLUMNS -> In c SOURCE_COLUMNS.
Proof.
  intros H. apply existsb_eqb_In.
  unfold BUSINESS_KEY_COLUMNS in H. simpl in H.
  repeat (destruct H as [<- | H]; [reflexivity |]). contradiction.
Qed.

Lemma build_copy_row_missing_key pid sh ss r :
  (exists c, In c SOURCE_COLUMNS /\ lookup r c = None) ->
  build_copy_row pid sh ss r = Raise KeyError.
Proof.
  intros (c & Hc & Hnone). unfold build_copy_row, business_key, payload_values.
  destruct (mapM_getitem_cases r BUSINESS_KEY_COLUMNS) as [[-> _] | [-> _]];
    [| reflexivity].
  cbn [rbind].
  destruct (mapM_getitem_cases r SOURCE_COLUMNS) as [[_ Hall] | [-> _]];
    [| reflexivity].
  exfalso. now apply (Hall c Hc).
Qed.

Lemma build_copy_row_present pid sh ss r :
  (forall c, In c SOURCE_COLUMNS -> lookup r c <> None) ->
  build_copy_row pid sh ss r
  = (transaction_id <- sha256_from_values
                         (map (cell r) BUSINESS_KEY_COLUMNS ++ [VStr ss]) ;;
     payload_hash <- sha256_from_values
                       (map (cell r) SOURCE_COLUMNS ++ [VStr ss]) ;;
     Ok ([VStr pid; VStr sh; VStr ss; VStr transaction_id; VStr payload_hash]
         ++ map (cell r) SOURCE_COLUMNS)).
Proof.
  intros Hall. unfold build_copy_row, business_key, payload_values.
  destruct (mapM_getitem_cases r BUSINESS_KEY_COLUMNS)
    as [[-> _] | [_ (c & Hc & Hn)]];
    [| exfalso; now apply (Hall c (business_key_is_source c Hc))].
  change ROW_COLUMNS with SOURCE_COLUMNS.
  destruct (mapM_getitem_cases r SOURCE_COLUMNS)
    as [[-> _] | [_ (c & Hc & Hn)]];
    [| exfalso; now apply (Hall c Hc)].
  cbn [rbind].
  destruct (sha256_from_values (map (cell r) BUSINESS_KEY_COLUMNS ++ [VStr ss]));
    [| reflexivity].
  cbn [rbind].
  destruct (sha256_from_values (map (cell r) SOURCE_COLUMNS ++ [VStr ss]));
    reflexivity.
Qed.

Lemma business_key_scalar ss r :
  forallb (fun v => forallb scalar_value (normalize_value v))
          (map (cell r) SOURCE_COLUMNS ++ [VStr ss]) = true ->
  forallb (fun v => forallb scalar_value (normalize_value v))
          (map (cell r) BUSINESS_KEY_COLUMNS ++ [VStr ss]) = true.
Proof.
  rewrite !forallb_app. intros H.
  apply andb_true_iff in H as [Hs Ht]. apply andb_true_iff. split; [| exact Ht].
  rewrite forallb_forall in Hs |- *. intros v Hv. apply Hs.
  apply in_map_iff in Hv as (c & <- & Hc).
  apply in_map. now apply business_key_is_source.
Qed.

Lemma build_copy_row_encodable pid sh ss r :
  (forall c, In c SOURCE_COLUMNS -> lookup r c <> None) ->
  forallb (fun v => forallb scalar_value (normalize_value v))
          (map (cell r) SOURCE_COLUMNS ++ [VStr ss]) = true ->
  exists row, build_copy_row pid sh ss r = Ok row.
Proof.
  intros Hall Hsc. rewrite (build_copy_row_present pid sh ss r Hall).
  pose proof (sha256_from_values_cases (map (cell r) BUSINESS_KEY_COLUMNS ++ [VStr ss]))
    as Hbk.
  pose proof (sha256_from_values_cases (map (cell r) SOURCE_COLUMNS ++ [VStr ss]))
    as Hpv.
  rewrite scalar_canonical in Hbk, Hpv.
  rewrite (business_key_scalar ss r Hsc) in Hbk. rewrite Hsc in Hpv.
  destruct Hbk as (d1 & ->). destruct Hpv as (d2 & ->). simpl. eauto.
Qed.

Lemma build_copy_row_present_cases pid sh ss r :
  (forall c, In c SOURCE_COLUMNS -> lookup r c <> None) ->
  (exists row, build_copy_row pid sh ss r = Ok row
               /\ forallb (fun v => forallb scalar_value (normalize_value v))
                          (map (cell r) SOURCE_COLUMNS ++ [VStr ss]) = true)
  \/ (build_copy_row pid sh ss r = Raise UnicodeEncodeError
      /\ forallb (fun v => forallb scalar_value (normalize_value v))
                 (map (cell r) SOURCE_COLUMNS ++ [VStr ss]) = false).
Proof.
  intros Hall.
  destruct (forallb (fun v => forallb scalar_value (normalize_value v))
                    (map (cell r) SOURCE_COLUMNS ++ [VStr ss])) eqn:Hsc.
  - left. destruct (build_copy_row_encodable pid sh ss r Hall Hsc) as (row & Hrow).
    eauto.
  - right. split; [| reflexivity].
    rewrite (build_copy_row_present pid sh ss r Hall).
    pose proof (sha256_from_values_cases
                  (map (cell r) BUSINESS_KEY_COLUMNS ++ [VStr ss])) as Hbk.
    pose proof (sha256_from_values_cases
                  (map (cell r) SOURCE_COLUMNS ++ [VStr ss])) as Hpv.
    rewrite scalar_canonical in Hbk, Hpv. rewrite Hsc in Hpv.
    destruct (forallb _ (map (cell r) BUSINESS_KEY_COLUMNS ++ [VStr ss])).
    + destruct Hbk as (d1 & ->). cbn [rbind]. now rewrite Hpv.
    + now rewrite Hbk.
Qed.

(** [build_copy_row] returns a row exactly when the record has the 22
    keys and the canonical form of each of the 22 values and of the
    source-system tag can be encoded in UTF-8.  A missing key raises
    [KeyError], a lone surrogate [UnicodeEncodeError], and nothing else is
    raised; the process id and the file digest are copied as they are and
    play no part in this. *)
Theorem build_copy_row_outcome (pid sh ss : pystr) (r : record) :
  ((exists row, build_copy_row pid sh ss r = Ok row)
   <-> (forall c, In c SOURCE_COLUMNS -> lookup r c <> None)
       /\ forallb (fun v => forallb scalar_value (normalize_value v))
                  (map (cell r) SOURCE_COLUMNS ++ [VStr ss]) = true)
  /\ ((exists c, In c SOURCE_COLUMNS /\ lookup r c = None) ->
      build_copy_row pid sh ss r = Raise KeyError)
  /\ (forall e, build_copy_row pid sh ss r = Raise e ->
        e = KeyError \/ e = UnicodeEncodeError)
  /\ (forall row, build_copy_row pid sh ss r = Ok row ->
        length row = 27%nat /\ firstn 3 row = [VStr pid; VStr sh; VStr ss])
  /\ ((forall c, In c SOURCE_COLUMNS -> lookup r c <> None) ->
      forallb (fun v => forallb scalar_value (normalize_value v))
              (map (cell r) SOURCE_COLUMNS ++ [VStr ss]) = false ->
      build_copy_row pid sh ss r = Raise UnicodeEncodeError).
Proof.
  assert (Hdec : (forall c, In c SOURCE_COLUMNS -> lookup r c <> None)
                 \/ exists c, In c SOURCE_COLUMNS /\ lookup r c = None).
  { destruct (mapM_getitem_cases r SOURCE_COLUMNS) as [[_ H] | [_ H]]; auto. }
  assert (Hlone : (forall c, In c SOURCE_COLUMNS -> lookup r c <> None) ->
                  forallb (fun v => forallb scalar_value (normalize_value v))
                          (map (cell r) SOURCE_COLUMNS ++ [VStr ss]) = false ->
                  build_copy_row pid sh ss r = Raise UnicodeEncodeError).
  { intros Hall Hsc.
    destruct (build_copy_row_present_cases pid sh ss r Hall)
      as [(row & _ & Hok) | (Hr & _)]; [congruence | exact Hr]. }
  split; [split |].
  - intros (row & Hrow).
    destruct Hdec as [Hall | Hmiss];
      [| rewrite (build_copy_row_missing_key pid sh ss r Hmiss) in Hrow;
         discriminate].
    split; [exact Hall |].
    destruct (build_copy_row_present_cases pid sh ss r Hall)
      as [(row' & _ & Hsc) | (Hr & _)]; [exact Hsc | congruence].
  - intros [Hall Hsc]. now apply build_copy_row_encodable.
  - split; [apply build_copy_row_missing_key |]. split.
    + intros e He.
      destruct Hdec as [Hall | Hmiss].
      * right.
        destruct (build_copy_row_present_cases pid sh ss r Hall)
          as [(row & Hrow & _) | (Hr & _)]; congruence.
      * left. rewrite (build_copy_row_missing_key pid sh ss r Hmiss) in He.
        congruence.
    + split; [| exact Hlone].
      intros row Hrow.
      apply build_copy_row_Ok in Hrow as (tid & ph & _ & _ & ->).
      split; reflexivity.
Qed.

Lemma build_copy_row_outcome_witness :
  build_copy_row (lit "p") (lit "h") (lit "s")
                 (filter (fun kv => negb (String.eqb (fst kv) "Referido")) key_twin_1)
  = Raise KeyError.
Proof.
  destruct (build_copy_row_outcome (lit "p") (lit "h") (lit "s")
              (filter (fun kv => negb (String.eqb (fst kv) "Referido")) key_twin_1))
    as (_ & H & _).
  apply H. exists "Referido"%string. split; [| reflexivity].
  apply existsb_eqb_In. reflexivity.
Defined.

(** ** What the transformer reads and what it hands on *)

Lemma cell_project r c : In c SOURCE_COLUMNS -> cell (project r) c = cell r c.
Proof.
  intros Hc. unfold cell at 1, project. rewrite lookup_project.
  apply existsb_eqb_In in Hc. now rewrite Hc.
Qed.

Lemma project_project r : project (project r) = project r.
Proof.
  unfold project at 1 3. apply map_ext_in.
  intros c Hc. now rewrite cell_project.
Qed.

Lemma retained_rows_of_projections env l :
  map (casted env) (filter (retained env) l)
  = map (cast_record env CASTS)
        (filter (fun p => no_nulls CRITICAL_COLUMNS p
                          && no_nulls CRITICAL_COLUMNS (cast_record env CASTS p))
                (map project l)).
Proof. rewrite filter_map_swap, map_map. reflexivity. Qed.

(** [transform_chunk] reads the 22 source columns and nothing else: two
    frames whose rows agree on them are transformed alike, whatever other
    columns they have and in whatever order; a frame that lacks one of the
    22 is refused with [ColumnNotFoundError]. *)
Theorem transform_chunk_reads_source_columns (env : Env) (df1 df2 : DataFrame) :
  has_columns df1 SOURCE_COLUMNS = true ->
  has_columns df2 SOURCE_COLUMNS = true ->
  map project (rows df1) = map project (rows df2) ->
  transform_chunk env df1 = transform_chunk env df2
  /\ transform_chunk env df1
     = transform_chunk env (mkFrame SOURCE_COLUMNS (map project (rows df1)))
  /\ (forall df, has_columns df SOURCE_COLUMNS = false ->
        transform_chunk env df = Raise ColumnNotFoundError).
Proof.
  intros H1 H2 E.
  assert (Hsame : forall da db,
             has_columns da SOURCE_COLUMNS = true ->
             has_columns db SOURCE_COLUMNS = true ->
             map project (rows da) = map project (rows db) ->
             transform_chunk env da = transform_chunk env db).
  { intros da db Ha Hb Hab. unfold transform_chunk.
    rewrite (transform_casts_cases env da Ha), (transform_casts_cases env db Hb).
    unfold castable, present.
    now rewrite !retained_rows_of_projections, Hab. }
  split; [now apply Hsame |]. split.
  - apply Hsame; [exact H1 | reflexivity |].
    cbn [rows]. rewrite map_map. apply map_ext. intros r.
    symmetry. apply project_project.
  - intros df Hdf. unfold transform_chunk.
    now rewrite (transform_casts_missing env df Hdf).
Qed.

Lemma transform_chunk_reads_source_columns_witness :
  transform_chunk Sample.env Sample.frame
  = transform_chunk Sample.env
      (mkFrame ("Extra"%string :: rev SOURCE_COLUMNS)
               (map (fun r => ("Extra"%string, VInt 1) :: rev r) (rows Sample.frame))).
Proof.
  destruct (transform_chunk_reads_source_columns Sample.env Sample.frame
              (mkFrame ("Extra"%string :: rev SOURCE_COLUMNS)
                 (map (fun r => ("Extra"%string, VInt 1) :: rev r)
                      (rows Sample.frame)))) as (H & _);
    [reflexivity | reflexivity | reflexivity | exact H].
Defined.

Lemma keys_cast_record env casts r : map fst (cast_record env casts r) = map fst r.
Proof. unfold cast_record. rewrite map_map. reflexivity. Qed.

Lemma keys_project r : map fst (project r) = SOURCE_COLUMNS.
Proof. unfold project. rewrite map_map. apply map_id. Qed.

Lemma keys_set_cell c v r : map fst (set_cell c v r) = map fst r.
Proof.
  unfold set_cell. rewrite map_map. apply map_ext.
  intros kv. now destruct (String.eqb (fst kv) c).
Qed.

Lemma parse_date_column_keys env df c out (K : list string) :
  parse_date_column env df c = Ok out ->
  Forall (fun r => map fst r = K) (rows df) ->
  Forall (fun r => map fst r = K) (rows out).
Proof.
  unfold parse_date_column.
  destruct (has_column df c); [| discriminate].
  intros H HK.
  apply rbind_Ok in H as (text & _ & H).
  apply rbind_Ok in H as (parsed & _ & H).
  destruct (Nat.eqb (length parsed) _); [| discriminate].
  inversion H; subst; clear H. cbn [rows].
  apply Forall_forall. intros o Ho.
  apply in_map_iff in Ho as ([r p] & <- & Hin).
  rewrite keys_set_cell. cbn [fst].
  rewrite Forall_forall in HK. apply HK. eapply in_combine_l; eauto.
Qed.

Lemma parse_dates_keys env (K : list string) cs : forall df out,
  foldM (parse_date_column env) cs df = Ok out ->
  Forall (fun r => map fst r = K) (rows df) ->
  Forall (fun r => map fst r = K) (rows out).
Proof.
  induction cs as [| c cs IH]; intros df out H HK; simpl in H.
  - now inversion H; subst.
  - apply rbind_Ok in H as (mid & Hmid & H).
    eapply IH; [exact H |]. eapply parse_date_column_keys; eauto.
Qed.

Lemma lookup_key r c : In c (map fst r) -> lookup r c <> None.
Proof.
  induction r as [| [k v] r IH]; simpl; [contradiction |].
  intros [<- | Hin].
  - now rewrite String.eqb_refl.
  - destruct (String.eqb k c); [discriminate | auto].
Qed.

Lemma mapM_Raise {A B} (f : A -> result B) (l : list A) (e : error) :
  mapM f l = Raise e -> exists a, In a l /\ f a = Raise e.
Proof.
  induction l as [| a l IH]; simpl; intros H; [discriminate |].
  destruct (f a) as [b |] eqn:E; simpl in H.
  - destruct (mapM f l) as [bs |] eqn:El; simpl in H; [discriminate |].
    inversion H; subst. destruct (IH eq_refl) as (a' & Ha' & Hf). eauto.
  - inversion H; subst. eauto.
Qed.

(** Every row that [transform_chunk] returns has the 22 source columns,
    in the order of [SOURCE_COLUMNS], and no other.  So [build_copy_rows]
    never raises [KeyError] on what the transformer returns: it fails only
    on a text that UTF-8 cannot encode, and then no row is returned. *)
Theorem transform_chunk_rows_complete (env : Env) (df out : DataFrame) :
  transform_chunk env df = Ok out ->
  columns out = SOURCE_COLUMNS
  /\ Forall (fun o => map fst o = SOURCE_COLUMNS) (rows out)
  /\ (forall pid sh ss e,
        build_copy_rows out pid sh ss = Raise e -> e = UnicodeEncodeError)
  /\ (forall pid sh ss,
        forallb (fun o => forallb (fun v => forallb scalar_value (normalize_value v))
                                  (map (cell o) SOURCE_COLUMNS ++ [VStr ss]))
                (rows out) = true ->
        exists rs, build_copy_rows out pid sh ss = Ok rs
                   /\ length rs = length (rows out)).
Proof.
  intros H.
  assert (Hkeys : Forall (fun o => map fst o = SOURCE_COLUMNS) (rows out)).
  { pose proof H as H'. unfold transform_chunk in H'.
    apply rbind_Ok in H' as (mid & Hmid & Hd).
    apply (parse_dates_keys env SOURCE_COLUMNS _ _ _ Hd).
    apply transform_casts_Ok_inv in Hmid as (_ & _ & ->). cbn [rows].
    apply Forall_forall. intros o Ho. apply in_map_iff in Ho as (r & <- & _).
    unfold casted. now rewrite keys_cast_record, keys_project. }
  assert (Hpresent : forall o, In o (rows out) ->
                               forall c, In c SOURCE_COLUMNS -> lookup o c <> None).
  { intros o Ho c Hc. apply lookup_key.
    rewrite Forall_forall in Hkeys. now rewrite (Hkeys o Ho). }
  split; [now apply transform_chunk_Ok in H |].
  split; [exact Hkeys |]. split.
  - intros pid sh ss e He. unfold build_copy_rows, to_dicts in He.
    apply mapM_Raise in He as (o & Ho & He).
    destruct (build_copy_row_present_cases pid sh ss o (Hpresent o Ho))
      as [(row & Hrow & _) | (Hr & _)]; congruence.
  - intros pid sh ss Hsc. unfold build_copy_rows, to_dicts.
    assert (Hall : forall o, In o (rows out) ->
                             exists row, build_copy_row pid sh ss o = Ok row).
    { intros o Ho.
      apply build_copy_row_encodable; [now apply Hpresent |].
      rewrite forallb_forall in Hsc. now apply Hsc. }
    clear - Hall. induction (rows out) as [| o l IH]; simpl.
    + exists []. auto.
    + destruct (Hall o (or_introl eq_refl)) as (row & ->).
      destruct IH as (rs & -> & Hlen); [intros; apply Hall; now right |].
      simpl. exists (row :: rs). simpl. auto.
Qed.

Lemma transform_chunk_rows_complete_witness :
  exists out rs,
    transform_chunk Sample.env mixed_frame = Ok out
    /\ Forall (fun o => map fst o = SOURCE_COLUMNS) (rows out)
    /\ build_copy_rows out (lit "p") (lit "h") (lit "s") = Ok rs.
Proof.
  assert (exists out, transform_chunk Sample.env mixed_frame = Ok out) as [out H]
    by (vm_compute; eexists; reflexivity).
  destruct (transform_chunk_rows_complete Sample.env mixed_frame out H)
    as (_ & Hk & _ & Hb).
  destruct (Hb (lit "p") (lit "h") (lit "s")) as (rs & Hrs & _).
  - vm_compute in H. inversion H; subst out. vm_compute. reflexivity.
  - exists out, rs. auto.
Defined.

(** ** The batches of a run, once more *)

Lemma batches_concat env lf pid sh ss c :
  0 < c ->
  forall bs off,
    0 <= off -> offsets_from off c bs ->
    Forall (batch_ok env lf pid sh ss c) bs ->
    concat (map (fun b => rows (b_chunk b)) bs)
    ++ skipn (Z.to_nat (off + c * Z.of_nat (length bs))) (rows lf)
    = skipn (Z.to_nat off) (rows lf).
Proof.
  intros Hc. induction bs as [| b bs IH]; intros off Hoff Ho Hok.
  - simpl. now replace (off + c * 0) with off by lia.
  - destruct Ho as [Hb Ho]. pose proof (Forall_inv Hok) as (Hs & _).
    apply Forall_inv_tail in Hok. rewrite Hb in Hs.
    cbn [map concat]. rewrite (slice_rows _ _ _ _ Hoff Hs), <- app_assoc.
    replace (off + c * Z.of_nat (length (b :: bs)))
      with (off + c + c * Z.of_nat (length bs)) by (cbn [length]; lia).
    rewrite IH by (auto; lia).
    replace (Z.to_nat (off + c)) with (Z.to_nat c + Z.to_nat off)%nat by lia.
    rewrite <- skipn_skipn. apply firstn_skipn.
Qed.

(** With a positive batch size, the batches of a run that returns are the
    source cut in consecutive pieces: put end to end, the chunks read are
    the records of the source, each once and in order.  So [rows_read] is
    the number of records of the source, and every record is counted
    either as loaded or as rejected. *)
Theorem run_etl_batches_partition (env : Env) (fuel : nat)
    (input_path process_id source_hash source_system connection_string : pystr)
    (chunk_size : Z) (m : Metrics) (st : State) (lazy_frame : DataFrame) :
  0 < chunk_size ->
  run_etl env fuel input_path process_id source_hash source_system
          connection_string chunk_size = Some (Ok m, st) ->
  scan_input_file env input_path = Ok lazy_frame ->
  (exists batches,
     Forall (batch_ok env lazy_frame process_id source_hash source_system chunk_size)
            batches
     /\ offsets_from 0 chunk_size batches
     /\ concat (map (fun b => rows (b_chunk b)) batches) = rows lazy_frame)
  /\ rows_read m = height lazy_frame
  /\ rows_loaded m + rows_rejected m = height lazy_frame.
Proof.
  intros Hc H Hscan.
  pose proof (run_etl_reads_all _ _ _ _ _ _ _ _ _ _ _ Hc H Hscan) as Hread.
  pose proof H as H'.
  apply run_etl_inv in H' as [(e & He & _) | H']; [discriminate |].
  destruct H' as (lf & bs & tail & Hscan' & Hok & Hoff & _ & _ & Hm).
  assert (lf = lazy_frame) by congruence. subst lf.
  destruct (Hm m eq_refl) as (_ & Hsum & (chunk & Hs & Hh) & _).
  split; [| split; [exact Hread |]].
  - exists bs. split; [exact Hok |]. split; [exact Hoff |].
    pose proof (batches_concat env lazy_frame _ _ _ _ Hc bs 0 (Z.le_refl 0) Hoff Hok)
      as Hcat.
    rewrite Z.add_0_l in Hcat. cbn [Z.to_nat skipn] in Hcat.
    assert (Hpos : 0 <= chunk_size * Z.of_nat (length bs)) by nia.
    pose proof (slice_rows _ _ _ _ Hpos Hs) as Hrows.
    assert (Hempty : rows chunk = []).
    { unfold height in Hh. destruct (rows chunk); [reflexivity | discriminate]. }
    rewrite Hempty in Hrows.
    destruct (skipn (Z.to_nat (chunk_size * Z.of_nat (length bs))) (rows lazy_frame))
      as [| x l] eqn:E.
    + now rewrite app_nil_r in Hcat.
    + destruct (Z.to_nat chunk_size) eqn:En; [lia | discriminate].
  - rewrite <- Hread. rewrite Hsum. cbn [rows_read rows_loaded rows_rejected].
    clear. induction bs as [| b bs IH]; simpl; lia.
Qed.

Lemma run_etl_batches_partition_witness :
  exists m st,
    run_etl Sample.env 5 (lit "data/in.csv") (lit "p1") (lit "h")
            (lit "ExternalProvider") (lit "host=db") 2 = Some (Ok m, st)
    /\ rows_read m = height Sample.frame.
Proof.
  assert (exists st, run_etl Sample.env 5 (lit "data/in.csv") (lit "p1") (lit "h")
                             (lit "ExternalProvider") (lit "host=db") 2
                     = Some (Ok (mkMetrics 3 2 1), st)) as [st H]
    by (vm_compute; eexists; reflexivity).
  exists (mkMetrics 3 2 1), st. split; [exact H |].
  assert (Hc : 0 < 2) by lia.
  assert (Hs : scan_input_file Sample.env (lit "data/in.csv") = Ok Sample.frame)
    by reflexivity.
  destruct (run_etl_batches_partition Sample.env 5 _ _ _ _ _ 2 _ _ Sample.frame
              Hc H Hs) as (_ & Hr & _).
  exact Hr.
Defined.

(** A batch size that is not positive: with 0 the first slice is empty,
    and the run returns at once with all counters at zero, whatever the
    source holds; with a negative size the first slice is refused, after
    the connection was opened, and the run raises [ValueError], rolls back
    and closes. *)
Theorem run_etl_nonpositive_chunk_size (env : Env) (fuel : nat)
    (input_path process_id source_hash source_system connection_string : pystr)
    (chunk_size : Z) (lazy_frame : DataFrame) :
  chunk_size <= 0 ->
  scan_input_file env input_path = Ok lazy_frame ->
  connect_ok env connection_string = true ->
  run_etl env (S fuel) input_path process_id source_hash source_system
          connection_string chunk_size
  = if chunk_size <? 0 then
      Some (Raise ValueError,
            mkState (mkMetrics 0 0 0) [EConnect connection_string; ERollback; EClose])
    else if commit_ok env [EConnect connection_string; ECollect 0 0 0] then
      Some (Ok (mkMetrics 0 0 0),
            mkState (mkMetrics 0 0 0)
                    [EConnect connection_string; ECollect 0 0 0; ECommit; EClose])
    else
      Some (Raise DatabaseError,
            mkState (mkMetrics 0 0 0) [EConnect connection_string; ECollect 0 0 0]).
Proof.
  intros Hc Hscan Hconn. unfold run_etl. rewrite Hscan, Hconn.
  cbn [run_loop st_metrics st_events app].
  destruct (chunk_size <? 0) eqn:E.
  - unfold etl_batch, collect_slice, bind, lift, slice. rewrite E. reflexivity.
  - apply Z.ltb_ge in E. assert (chunk_size = 0) by lia. subst chunk_size.
    rewrite (etl_batch_Break env lazy_frame _ _ _ 0 0 _
               (mkFrame (columns lazy_frame) []))
      by (try reflexivity; now rewrite slice_window by lia).
    cbn [option_map leave_connection st_metrics st_events app].
    destruct (commit_ok env _); reflexivity.
Qed.

Lemma run_etl_nonpositive_chunk_size_witness :
  run_etl Sample.env 1 (lit "data/in.csv") (lit "p1") (lit "h")
          (lit "ExternalProvider") (lit "host=db") 0
  = Some (Ok (mkMetrics 0 0 0),
          mkState (mkMetrics 0 0 0)
                  [EConnect (lit "host=db"); ECollect 0 0 0; ECommit; EClose]).
Proof.
  rewrite (run_etl_nonpositive_chunk_size Sample.env 0 _ _ _ _ _ 0 Sample.frame);
    [reflexivity | lia | reflexivity | reflexivity].
Defined.

(** ** What the store holds after a run *)

Lemma etl_batch_Raise_quiet env lf pid sh ss c off st st' e :
  etl_batch env lf pid sh ss c off st = (Raise e, st') ->
  exists evs, st_events st' = st_events st ++ evs
              /\ forallb (fun ev => negb (is_print ev) && negb (is_commit ev)) evs = true.
Proof.
  run_monad. intros H.
  destruct (slice off c lf) as [chunk | e0];
    [| inversion H; subst; exists []; now rewrite app_nil_r].
  destruct (height chunk =? 0); [discriminate |].
  destruct (transform_chunk env chunk) as [t | e0];
    [| inversion H; subst; eexists; split; reflexivity].
  destruct (build_copy_rows t pid sh ss) as [rs | e0];
    [| inversion H; subst; eexists; split; reflexivity].
  destruct rs as [| r rs];
    repeat (match type of H with
            | context [if ?b then _ else _] => destruct b
            end; try discriminate);
    inversion H; subst; clear H; cbn [st_events];
    rewrite <- ?app_assoc; eexists; split; reflexivity.
Qed.

Lemma replay_batch off c h b m rest stored :
  replay (batch_events off c h (b_rows b) m ++ rest) [] stored
  = replay rest [] (stored ++ batch_data b).
Proof. unfold batch_data. destruct (b_rows b); reflexivity. Qed.

Lemma replay_batches c bs : forall m rest stored,
  replay (batches_events c m bs ++ rest) [] stored
  = replay rest [] (stored ++ flat_map batch_data bs).
Proof.
  induction bs as [| b bs IH]; intros m rest stored; cbn [batches_events flat_map].
  - now rewrite app_nil_r.
  - rewrite <- app_assoc, replay_batch, IH, <- app_assoc. reflexivity.
Qed.

Lemma replay_rolled_back evs : forall pending stored rest,
  forallb (fun ev => negb (is_print ev) && negb (is_commit ev)) evs = true ->
  replay (evs ++ ERollback :: rest) pending stored = replay rest [] stored.
Proof.
  induction evs as [| ev evs IH]; intros pending stored rest H; [reflexivity |].
  simpl in H. apply andb_true_iff in H as [Hev H].
  destruct ev; simpl in *; try discriminate; now apply IH.
Qed.

Lemma quiet_events_no_print evs :
  forallb (fun ev => negb (is_print ev) && negb (is_commit ev)) evs = true ->
  forallb (fun ev => negb (is_print ev)) evs = true.
Proof.
  rewrite !forallb_forall. intros H ev Hev.
  specialize (H ev Hev). now apply andb_true_iff in H.
Qed.

Lemma run_etl_inv_store env fuel path pid sh ss cs c r st :
  run_etl env fuel path pid sh ss cs c = Some (r, st) ->
  exists bs,
    (forall lf, scan_input_file env path = Ok lf ->
                Forall (batch_ok env lf pid sh ss c) bs)
    /\ offsets_from 0 c bs
    /\ stored_data (st_events st) = flat_map batch_data bs
    /\ filter is_print (st_events st)
       = map (fun m => EPrint (progress_line m)) (snapshots (mkMetrics 0 0 0) bs)
    /\ (forall m, r = Ok m -> rows_loaded m = sumZ b_loaded bs).
Proof.
  unfold run_etl. intros H.
  destruct (scan_input_file env path) as [lf | e] eqn:Hscan.
  2:{ inversion H; subst. exists []. repeat split; auto; discriminate. }
  destruct (connect_ok env cs).
  2:{ inversion H; subst. exists []. repeat split; auto; discriminate. }
  cbn [st_metrics st_events app] in H.
  destruct (run_loop env fuel lf pid sh ss c 0 _) as [[r1 st1] |] eqn:Hloop;
    [| discriminate].
  apply run_loop_inv in Hloop as (bs & Hok & Hoff & Hend).
  cbn zeta in Hend. rewrite Z.add_0_l in Hend.
  pose proof (after_batches_metrics c bs (mkState (mkMetrics 0 0 0) [EConnect cs]))
    as Hm.
  pose proof (after_batches_events c bs (mkState (mkMetrics 0 0 0) [EConnect cs]))
    as He.
  cbn [st_metrics st_events rows_read rows_loaded rows_rejected app] in Hm, He.
  rewrite !Z.add_0_l in Hm.
  exists bs.
  split; [intros lf' Hlf'; inversion Hlf'; subst; exact Hok |].
  split; [exact Hoff |].
  assert (Hshape : exists tail,
             st_events st = EConnect cs :: batches_events c (mkMetrics 0 0 0) bs ++ tail
             /\ forallb (fun ev => negb (is_print ev)) tail = true
             /\ (forall stored, replay tail [] stored = stored)
             /\ (forall m, r = Ok m -> m = st_metrics (fold_left (after_batch c) bs
                                            (mkState (mkMetrics 0 0 0) [EConnect cs])))).
  { destruct Hend as [(-> & Hbreak & Hmet) | (e & -> & Hraise)].
    - apply etl_batch_Break_inv in Hbreak as (chunk & Hs & Hh & ->).
      cbn [option_map leave_connection st_metrics st_events] in H.
      rewrite He in H.
      destruct (commit_ok env _); inversion H; subst; clear H; cbn [st_events].
      + exists [ECollect (c * Z.of_nat (length bs)) c 0; ECommit; EClose].
        split; [cbn [app]; rewrite <- ?app_assoc; reflexivity |].
        split; [reflexivity |]. split; [intros; simpl; apply app_nil_r |].
        intros m Hm'. now inversion Hm'.
      + exists [ECollect (c * Z.of_nat (length bs)) c 0].
        split; [cbn [app]; rewrite <- ?app_assoc; reflexivity |].
        split; [reflexivity |]. split; [reflexivity | discriminate].
    - apply etl_batch_Raise_quiet in Hraise as (evs & Hevs & Hq).
      cbn [option_map leave_connection] in H.
      inversion H; subst; clear H. cbn [st_events].
      exists (evs ++ [ERollback; EClose]). rewrite Hevs, He.
      split; [cbn [app]; rewrite <- ?app_assoc; reflexivity |].
      split; [rewrite forallb_app, (quiet_events_no_print _ Hq); reflexivity |].
      split; [| discriminate].
      intros stored. now rewrite replay_rolled_back. }
  destruct Hshape as (tail & Hev & Hquiet & Hneutral & Hfinal).
  split; [| split].
  - unfold stored_data. rewrite Hev. cbn [replay].
    rewrite replay_batches, Hneutral. reflexivity.
  - rewrite Hev. cbn [filter is_print]. rewrite filter_app, (filter_quiet _ Hquiet).
    rewrite app_nil_r. apply prints_of_batches.
  - intros m Hr. rewrite (Hfinal m Hr), Hm. reflexivity.
Qed.

Lemma snapshots_length m bs : length (snapshots m bs) = length bs.
Proof.
  revert m. induction bs as [| b bs IH]; intros m; simpl; [reflexivity |].
  now rewrite IH.
Qed.

Lemma stored_batches_read_back env lf pid sh ss c bs :
  Forall (batch_ok env lf pid sh ss c) bs ->
  flat_map csv_read (flat_map batch_data bs)
  = map (map csv_text) (flat_map b_rows bs)
  /\ Z.of_nat (length (flat_map b_rows bs)) = sumZ b_loaded bs.
Proof.
  induction 1 as [| b bs Hb _ [IH1 IH2]]; [split; reflexivity |].
  destruct Hb as (_ & _ & t & _ & Hrows).
  apply build_copy_rows_nonempty in Hrows.
  cbn [flat_map sumZ]. rewrite flat_map_app, map_app, IH1, length_app.
  split; [| unfold b_loaded at 1; lia].
  f_equal. unfold batch_data.
  destruct (b_rows b) as [| row rs] eqn:E; [reflexivity |].
  cbn [flat_map]. rewrite app_nil_r. unfold csv_read.
  rewrite <- (app_nil_r (writerows (row :: rs))).
  now rewrite csv_parse_writerows.
Qed.

(** What is stored when a run ends, whether it returns or raises, is the
    data of the batches that were completed, those with a progress line,
    in order: the COPY of a batch that raises before its commit is rolled
    back.  Read back, the stored data is the rows built for those batches;
    when the run returns there are [rows_loaded] of them. *)
Theorem run_etl_stores_completed_batches (env : Env) (fuel : nat)
    (input_path process_id source_hash source_system connection_string : pystr)
    (chunk_size : Z) (r : result Metrics) (st : State) (lazy_frame : DataFrame) :
  run_etl env fuel input_path process_id source_hash source_system
          connection_string chunk_size = Some (r, st) ->
  scan_input_file env input_path = Ok lazy_frame ->
  exists batches,
    Forall (batch_ok env lazy_frame process_id source_hash source_system chunk_size)
           batches
    /\ offsets_from 0 chunk_size batches
    /\ length (filter is_print (st_events st)) = length batches
    /\ stored_data (st_events st) = flat_map batch_data batches
    /\ flat_map csv_read (stored_data (st_events st))
       = map (map csv_text) (flat_map b_rows batches)
    /\ (forall m, r = Ok m ->
          rows_loaded m = Z.of_nat (length (flat_map b_rows batches))).
Proof.
  intros H Hscan.
  apply run_etl_inv_store in H as (bs & Hok & Hoff & Hstored & Hprints & Hm).
  specialize (Hok lazy_frame Hscan).
  destruct (stored_batches_read_back _ _ _ _ _ _ _ Hok) as [Hread Hcount].
  exists bs. split; [exact Hok |]. split; [exact Hoff |]. split.
  - now rewrite Hprints, length_map, snapshots_length.
  - split; [exact Hstored |]. split; [now rewrite Hstored |].
    intros m Hr. rewrite (Hm m Hr). now rewrite Hcount.
Qed.

Lemma run_etl_stores_completed_batches_witness :
  exists st batches,
    run_etl refusing_env 5 (lit "data/in.csv") (lit "p1") (lit "h")
            (lit "ExternalProvider") (lit "host=db") 2
    = Some (Raise DatabaseError, st)
    /\ length batches = 1%nat
    /\ stored_data (st_events st) = flat_map batch_data batches.
Proof.
  assert (exists st, run_etl refusing_env 5 (lit "data/in.csv") (lit "p1") (lit "h")
                             (lit "ExternalProvider") (lit "host=db") 2
                     = Some (Raise DatabaseError, st)
                     /\ length (filter is_print (st_events st)) = 1%nat)
    as (st & H & Hp)
    by (vm_compute; eexists; split; reflexivity).
  assert (Hs : scan_input_file refusing_env (lit "data/in.csv") = Ok Sample.frame)
    by reflexivity.
  destruct (run_etl_stores_completed_batches refusing_env 5 _ _ _ _ _ 2 _ _ _ H Hs)
    as (bs & _ & _ & Hlen & Hst & _).
  exists st, bs. split; [exact H |]. split; [congruence | exact Hst].
Defined.

(** ** The reader and the extension of the file *)

Lemma path_name_aux_plain name : forall acc,
  forallb (fun x => negb (x =? 47)) name = true ->
  path_name_aux acc name = acc ++ name.
Proof.
  induction name as [| c name IH]; intros acc H; simpl in *.
  - now rewrite app_nil_r.
  - apply andb_true_iff in H as [Hc H]. apply negb_true_iff in Hc.
    rewrite Hc, IH by exact H. now rewrite <- app_assoc.
Qed.

Lemma path_name_aux_dir dir : forall acc name,
  path_name_aux acc (dir ++ 47 :: name) = path_name_aux [] name.
Proof.
  induction dir as [| c dir IH]; intros acc name; [reflexivity |].
  cbn [app path_name_aux]. destruct (c =? 47); apply IH.
Qed.

Lemma path_name_file_in dir name :
  forallb (fun x => negb (x =? 47)) name = true ->
  path_name (dir ++ 47 :: name) = name /\ path_name name = name.
Proof.
  intros H. unfold path_name.
  now rewrite path_name_aux_dir, path_name_aux_plain.
Qed.

Lemma last_dot_none s :
  forallb (fun x => negb (x =? 46)) s = true -> last_dot s = None.
Proof.
  induction s as [| c s IH]; intros H; simpl in *; [reflexivity |].
  apply andb_true_iff in H as [Hc H]. apply negb_true_iff in Hc.
  now rewrite IH, Hc.
Qed.

Lemma last_dot_app stem ext :
  forallb (fun x => negb (x =? 46)) ext = true ->
  last_dot (stem ++ 46 :: ext) = Some (46 :: ext).
Proof.
  intros H. induction stem as [| c stem IH].
  - cbn [app last_dot]. now rewrite last_dot_none.
  - cbn [app last_dot]. now rewrite IH.
Qed.

Lemma forallb_and_split {A} (f g : A -> bool) (l : list A) :
  forallb (fun x => f x && g x) l = true ->
  forallb f l = true /\ forallb g l = true.
Proof.
  induction l as [| a l IH]; simpl; [auto |].
  intros H. apply andb_true_iff in H as [Ha H].
  apply andb_true_iff in Ha as [Hf Hg]. destruct (IH H) as [H1 H2].
  now rewrite Hf, Hg, H1, H2.
Qed.

Lemma suffix_of_name name dir :
  forallb (fun x => negb (x =? 47)) name = true ->
  suffix (dir ++ 47 :: name) = suffix name.
Proof.
  intros H. unfold suffix.
  destruct (path_name_file_in dir name H) as [-> ->]. reflexivity.
Qed.

(** The reader goes by the text after the last dot of the file name, in
    any letter case, whatever the directory and whatever dots the stem
    holds: a name [stem.ext] is read as Parquet or as CSV when [.ext]
    lowers to one of the two extensions, and is refused otherwise.  A name
    that is only an extension (a hidden file such as [.csv]) and a name that
    ends with a dot have no suffix and are refused. *)
Theorem scan_input_file_by_extension (env : Env) (dir : pystr) (c : Z)
    (stem : pystr) (e : Z) (ext : pystr) :
  c <> 46 ->
  forallb (fun x => negb (x =? 47)) (c :: stem) = true ->
  forallb (fun x => negb (x =? 46) && negb (x =? 47)) (e :: ext) = true ->
  let extension := 46 :: e :: ext in
  let path := file_in dir (c :: stem) extension in
  suffix path = extension
  /\ suffix ((c :: stem) ++ extension) = extension
  /\ scan_input_file env path
     = (if pystr_eqb (lower extension) (lit ".parquet")
        then Ok (scan_parquet env path)
        else if pystr_eqb (lower extension) (lit ".csv")
             then Ok (scan_csv env path)
             else Raise ValueError)
  /\ scan_input_file env (file_in dir [] extension) = Raise ValueError
  /\ scan_input_file env (file_in dir (c :: stem) [46]) = Raise ValueError.
Proof.
  intros Hc Hstem Hext extension path.
  destruct (forallb_and_split _ _ _ Hext) as [Hdot Hslash].
  assert (Hname : forallb (fun x => negb (x =? 47)) ((c :: stem) ++ extension) = true).
  { rewrite forallb_app, Hstem. exact Hslash. }
  assert (Hsuf : suffix ((c :: stem) ++ extension) = extension).
  { unfold suffix. destruct (path_name_file_in [] _ Hname) as [_ ->].
    unfold extension. rewrite last_dot_app by exact Hdot.
    replace (Nat.ltb (length (46 :: e :: ext)) (length ((c :: stem) ++ 46 :: e :: ext)))
      with true
      by (symmetry; apply Nat.ltb_lt; rewrite length_app; cbn [length]; lia).
    reflexivity. }
  assert (Hpath : suffix path = extension).
  { unfold path, file_in. cbn [app]. rewrite suffix_of_name; assumption. }
  split; [exact Hpath |]. split; [exact Hsuf |]. split; [| split].
  - unfold scan_input_file. rewrite Hpath. reflexivity.
  - assert (Hn : forallb (fun x => negb (x =? 47)) extension = true)
      by exact Hslash.
    assert (Hnone : suffix (file_in dir [] extension) = []).
    { unfold file_in. cbn [app]. rewrite suffix_of_name by exact Hn.
      unfold suffix. destruct (path_name_file_in [] _ Hn) as [_ ->].
      unfold extension. pose proof (last_dot_app [] (e :: ext) Hdot) as Hl.
      cbn [app] in Hl. rewrite Hl. now rewrite Nat.ltb_irrefl. }
    unfold scan_input_file. rewrite Hnone. reflexivity.
  - assert (Hn : forallb (fun x => negb (x =? 47)) ((c :: stem) ++ [46]) = true).
    { rewrite forallb_app, Hstem. reflexivity. }
    assert (Hnone : suffix (file_in dir (c :: stem) [46]) = []).
    { unfold file_in.
      change (dir ++ [47] ++ (c :: stem) ++ [46])
        with (dir ++ 47 :: ((c :: stem) ++ [46])).
      rewrite suffix_of_name by exact Hn.
      unfold suffix. destruct (path_name_file_in [] _ Hn) as [_ ->].
      rewrite (last_dot_app (c :: stem) [] eq_refl).
      cbn [length Nat.ltb Nat.leb]. now rewrite andb_false_r. }
    unfold scan_input_file. rewrite Hnone. reflexivity.
Qed.

Lemma scan_input_file_by_extension_witness :
  scan_input_file Sample.env (lit "data.v2/in.bak.CSV")
  = Ok (scan_csv Sample.env (lit "data.v2/in.bak.CSV"))
  /\ scan_input_file Sample.env (lit "data.v2/.CSV") = Raise ValueError.
Proof.
  destruct (scan_input_file_by_extension Sample.env (lit "data.v2") 105
              (lit "n.bak") 67 (lit "SV"))
    as (_ & _ & H & Hhidden & _);
    [discriminate | reflexivity | reflexivity |].
  split; [exact H | exact Hhidden].
Defined.

(** ** The entry point *)

Lemma printable_of_lower_hex c : is_lower_hex c = true -> printable c = true.
Proof.
  unfold is_lower_hex, printable. intros H.
  apply orb_true_iff in H as [H | H]; apply andb_true_iff in H as [H1 H2];
    apply Z.leb_le in H1, H2; apply andb_true_iff; split; apply Z.leb_le; lia.
Qed.

Lemma hex4_printable n : forallb printable (hex4 n) = true.
Proof.
  unfold hex4. cbn [map forallb].
  repeat (rewrite printable_of_lower_hex
            by (apply SHA256Facts.hexdigit_lower; apply Z.mod_pos_bound; lia)).
  reflexivity.
Qed.

Lemma json_escape_printable c : forallb printable (json_escape c) = true.
Proof.
  unfold json_escape.
  repeat (match goal with
          | |- context [if ?b then _ else _] => destruct b eqn:?
          end; try reflexivity).
  - cbn [forallb]. unfold printable at 1.
    match goal with H : _ && _ = true |- _ => rewrite H end. reflexivity.
  - cbn [app forallb]. now rewrite hex4_printable.
  - rewrite !forallb_app, !hex4_printable. reflexivity.
Qed.

Lemma json_string_printable s : forallb printable (json_string s) = true.
Proof.
  unfold json_string. rewrite !forallb_app.
  assert (H : forallb printable (flat_map json_escape s) = true).
  { induction s as [| c s IH]; [reflexivity |].
    cbn [flat_map]. now rewrite forallb_app, json_escape_printable. }
  now rewrite H.
Qed.

Lemma str_int_printable z : forallb printable (str_int z) = true.
Proof.
  apply forallb_forall. intros c Hc.
  pose proof (str_int_chars z) as H. rewrite Forall_forall in H.
  unfold printable. apply andb_true_iff.
  destruct (H c Hc) as [-> | Hd]; split; apply Z.leb_le; lia.
Qed.

Lemma summary_line_printable pid sh m :
  forallb printable (summary_line pid sh m) = true.
Proof.
  unfold summary_line.
  rewrite !forallb_app, !json_string_printable, !str_int_printable.
  reflexivity.
Qed.

Lemma progress_is_no_summary m pid sh m' : progress_line m <> summary_line pid sh m'.
Proof.
  intros H. apply (f_equal (hd 0)) in H. discriminate H.
Qed.

Lemma run_etl_prints env fuel path pid sh ss cs c r st :
  run_etl env fuel path pid sh ss cs c = Some (r, st) ->
  forall line, In (EPrint line) (st_events st) -> exists m, line = progress_line m.
Proof.
  intros H line Hin.
  apply run_etl_inv in H as [(e & _ & -> & _) | H]; [destruct Hin |].
  destruct H as (lf & bs & tail & _ & _ & _ & Hev & Hquiet & _).
  assert (Hf : In (EPrint line) (filter is_print (st_events st)))
    by (apply filter_In; split; [exact Hin | reflexivity]).
  rewrite Hev in Hf. cbn [filter is_print] in Hf.
  rewrite filter_app, (filter_quiet _ Hquiet), app_nil_r, prints_of_batches in Hf.
  apply in_map_iff in Hf as (m & Hm & _). exists m. now inversion Hm.
Qed.

Lemma run_etl_balance env fuel path pid sh ss cs c m st :
  run_etl env fuel path pid sh ss cs c = Some (Ok m, st) ->
  rows_read m = rows_loaded m + rows_rejected m.
Proof.
  intros H.
  apply run_etl_inv in H as [(e & He & _) | H]; [discriminate |].
  destruct H as (lf & bs & tail & _ & _ & _ & _ & _ & Hm).
  destruct (Hm m eq_refl) as (_ & -> & _). cbn [rows_read rows_loaded rows_rejected].
  clear. induction bs as [| b bs IH]; cbn [sumZ]; lia.
Qed.

Lemma run_loop_returns env lf pid sh ss c st :
  exists k r, forall fuel, (k <= fuel)%nat ->
    run_loop env fuel lf pid sh ss c 0 st = Some r.
Proof.
  destruct (Z.lt_ge_cases 0 c) as [Hc | Hc].
  - destruct (run_loop_terminates env lf pid sh ss c Hc (length (rows lf)) 0 st)
      as (r & Hr); [lia | unfold height; lia |].
    exists (S (length (rows lf))), r. intros fuel Hfuel.
    exact (run_loop_fuel_mono _ _ _ _ _ _ _ _ _ _ Hr fuel Hfuel).
  - assert (Hr : exists r, run_loop env 1 lf pid sh ss c 0 st = Some r).
    { cbn [run_loop].
      destruct (etl_batch env lf pid sh ss c 0 st) as [[[] | e] st1] eqn:E; eauto.
      exfalso.
      apply etl_batch_Continue_inv in E as (chunk & _ & _ & Hs & Hh & _).
      destruct (slice_nonempty _ _ _ _ (Z.le_refl 0) Hs Hh). lia. }
    destruct Hr as (r & Hr). exists 1%nat, r. intros fuel Hfuel.
    exact (run_loop_fuel_mono _ _ _ _ _ _ _ _ _ _ Hr fuel Hfuel).
Qed.

Lemma run_etl_returns env path pid sh ss cs c :
  exists k r st, forall fuel, (k <= fuel)%nat ->
    run_etl env fuel path pid sh ss cs c = Some (r, st).
Proof.
  unfold run_etl.
  destruct (scan_input_file env path) as [lf | e]; [| exists O; eauto].
  destruct (connect_ok env cs); [| exists O; eauto].
  destruct (run_loop_returns env lf pid sh ss c
              (mkState (st_metrics (mkState (mkMetrics 0 0 0) []))
                 (st_events (mkState (mkMetrics 0 0 0) []) ++ [EConnect cs])))
    as (k & [r st] & Hrun).
  destruct (leave_connection env (r, st)) as [r' st'] eqn:El.
  exists k, r', st'. intros fuel Hfuel.
  rewrite (Hrun fuel Hfuel). cbn [option_map]. now rewrite El.
Qed.

Lemma main_source_hash_cases file_bytes fuel args path h :
  main_source_hash file_bytes fuel args path = Some h ->
  match h with
  | None => arg_source_hash args = [] /\ file_bytes path = None
  | Some source_hash =>
      (arg_source_hash args <> [] /\ source_hash = arg_source_hash args)
      \/ (arg_source_hash args = []
          /\ exists content, file_bytes path = Some content
                             /\ source_hash = SHA256.hexdigest content)
  end.
Proof.
  unfold main_source_hash, compute_file_hash. intros H.
  destruct (arg_source_hash args) as [| a given] eqn:Ea.
  - destruct (file_bytes path) as [content |] eqn:Ef.
    + destruct (update_chunks fuel (1024 * 1024) content []) as [fed |] eqn:Eu;
        [| discriminate].
      inversion H; subst. right. split; [reflexivity |].
      exists content. split; [reflexivity |].
      apply update_chunks_Some in Eu; [now subst | lia].
    + inversion H; subst. auto.
  - inversion H; subst. left. split; [discriminate | reflexivity].
Qed.

(** [main] takes the digest it was given, and otherwise the SHA-256 of
    the whole file at the path, which it reads before anything else: a file
    that cannot be opened stops it with nothing done.  It then makes one run
    with that digest.  When the run returns, [main] prints one more line,
    last: the summary of that run, with the identifier, the digest and the
    final counters, which balance; the line is printable ASCII whatever the
    identifier holds.  When the run raises, so does [main]: what was printed
    is progress lines only, never a summary. *)
Theorem main_summary (env : Env) (file_bytes : pystr -> option (list Z))
    (fuel : nat) (args : Namespace) (out : main_exit) (st : State) :
  main env file_bytes fuel args = Some (out, st) ->
  let input_path := Path (arg_parquet_path args) in
  (out = FileError ->
     arg_source_hash args = [] /\ file_bytes input_path = None
     /\ st_events st = [])
  /\ (out <> FileError ->
      exists source_hash r st0,
        (arg_source_hash args <> [] -> source_hash = arg_source_hash args)
        /\ (arg_source_hash args = [] ->
              exists content, file_bytes input_path = Some content
                              /\ source_hash = SHA256.hexdigest content)
        /\ run_etl env fuel input_path (arg_process_id args) source_hash
                   (arg_source_system args) (arg_connection_string args)
                   (arg_chunk_size args) = Some (r, st0)
        /\ match r with
           | Ok m =>
               out = Returned
               /\ st_events st
                  = st_events st0
                    ++ [EPrint (summary_line (arg_process_id args) source_hash m)]
               /\ forallb printable
                          (summary_line (arg_process_id args) source_hash m) = true
               /\ rows_read m = rows_loaded m + rows_rejected m
           | Raise e =>
               out = RunError e /\ st = st0
               /\ forall pid sh m,
                    ~ In (EPrint (summary_line pid sh m)) (st_events st)
           end).
Proof.
  intros H input_path. unfold main in H. fold input_path in H.
  destruct (main_source_hash file_bytes fuel args input_path) as [[sh |] |] eqn:Eh;
    [| | discriminate].
  - apply main_source_hash_cases in Eh.
    assert (Hgiven : arg_source_hash args <> [] -> sh = arg_source_hash args).
    { intros Hne. destruct Eh as [[_ ->] | [E0 _]]; [reflexivity | contradiction]. }
    assert (Hfile : arg_source_hash args = [] ->
                    exists content, file_bytes input_path = Some content
                                    /\ sh = SHA256.hexdigest content).
    { intros E0. destruct Eh as [[Hne _] | [_ Hc]]; [contradiction | exact Hc]. }
    destruct (run_etl env fuel input_path (arg_process_id args) sh
                (arg_source_system args) (arg_connection_string args)
                (arg_chunk_size args)) as [[[m | e] st0] |] eqn:Er;
      [| | discriminate].
    + injection H as Hout Hst. split; [intros Hf; congruence |].
      intros _. exists sh, (Ok m), st0.
      split; [exact Hgiven |]. split; [exact Hfile |]. split; [exact Er |].
      split; [now symmetry |]. split; [now rewrite <- Hst |].
      split; [apply summary_line_printable |].
      exact (run_etl_balance _ _ _ _ _ _ _ _ _ _ Er).
    + injection H as Hout Hst. split; [intros Hf; congruence |].
      intros _. exists sh, (Raise e), st0.
      split; [exact Hgiven |]. split; [exact Hfile |]. split; [exact Er |].
      split; [now symmetry |]. split; [now symmetry |].
      intros pid sh' m Hin. rewrite <- Hst in Hin.
      destruct (run_etl_prints _ _ _ _ _ _ _ _ _ _ Er _ Hin) as (m' & Hm').
      symmetry in Hm'. exact (progress_is_no_summary _ _ _ _ Hm').
  - apply main_source_hash_cases in Eh as [E0 Ef].
    inversion H; subst; clear H.
    split; [intros _; auto | intros Hne; now contradiction Hne].
Qed.

Lemma main_summary_witness :
  exists st, 
    main Sample.env (one_file (lit "data/in.csv") (lit "abc")) 5
         (default_namespace (lit "data//./in.csv") (lit "p1") (lit "host=db"))
    = Some (Returned, st)
    /\ exists line, last (st_events st) EClose = EPrint line
                    /\ forallb printable line = true.
Proof.
  assert (exists st,
             main Sample.env (one_file (lit "data/in.csv") (lit "abc")) 5
                  (default_namespace (lit "data//./in.csv") (lit "p1") (lit "host=db"))
             = Some (Returned, st)) as (st & H)
    by (vm_compute; eexists; reflexivity).
  exists st. split; [exact H |].
  destruct (main_summary _ _ _ _ _ _ H) as [_ Hrun].
  destruct Hrun as (sh & r & st0 & _ & _ & _ & Hr); [discriminate |].
  destruct r as [m | e].
  - destruct Hr as (_ & Hev & Hp & _).
    exists (summary_line (lit "p1") sh m). split; [| exact Hp].
    rewrite Hev. apply last_last.
  - destruct Hr as (Hout & _). discriminate Hout.
Defined.

(** A file is given by its bytes, finitely many.  [main] then ends for
    every command line: some number of loop turns is enough for it to
    return or raise, and more turns change nothing.  When a digest is
    given on the command line the file is not opened for it, and [main]
    does the same whatever the files are. *)
Theorem main_terminates (env : Env) (file_bytes : pystr -> option (list Z))
    (args : Namespace) :
  (exists k out st, forall fuel, (k <= fuel)%nat ->
     main env file_bytes fuel args = Some (out, st))
  /\ (arg_source_hash args <> [] ->
      forall (other_files : pystr -> option (list Z)) fuel,
        main env other_files fuel args = main env file_bytes fuel args).
Proof.
  split.
  2:{ intros Hgiven other_files fuel. unfold main, main_source_hash.
      destruct (arg_source_hash args); [contradiction | reflexivity]. }
  unfold main. set (input_path := Path (arg_parquet_path args)).
  assert (Hh : exists k h, forall fuel, (k <= fuel)%nat ->
                 main_source_hash file_bytes fuel args input_path = Some h).
  { unfold main_source_hash, compute_file_hash.
    destruct (arg_source_hash args) as [| a given]; [| exists O; eauto].
    destruct (file_bytes input_path) as [content |]; [| exists O; eauto].
    exists (S (length content)), (Some (SHA256.hexdigest content)).
    intros fuel Hfuel.
    rewrite update_chunks_enough by lia. reflexivity. }
  destruct Hh as (k1 & [sh |] & Hh).
  - destruct (run_etl_returns env input_path (arg_process_id args) sh
                (arg_source_system args) (arg_connection_string args)
                (arg_chunk_size args)) as (k2 & r & st & Hr).
    exists (Nat.max k1 k2).
    destruct r as [m | e]; eexists; eexists; intros fuel Hfuel;
      rewrite Hh, Hr by lia; reflexivity.
  - exists k1. eexists; eexists; intros fuel Hfuel. rewrite Hh by lia. reflexivity.
Qed.
